(** * Stream Deck Teams Avatar: a shallow embedding of the two actions

    The development follows [teamsAvatar.js] (class [TeamsAvatar], the
    single-avatar button) and [teamsRotating.js] (class [TeamsRotating], the
    carousel button).  Part I embeds the code; Part II states and proves the
    properties.

    Modelling conventions.
    - A JavaScript string is a Rocq [string]; a code unit is an [ascii].
    - A JavaScript number that holds an integer is a [Z]; the 32-bit
      operators [<<] and [&] wrap explicitly through [to_int32].
    - A canvas is the list of drawing commands issued on it, in order; a data
      URL is either the encoding of a fetched blob or the PNG encoding of a
      canvas.  Alpha values and coordinates are exact rationals.
    - [this] is a record, a method is a function on it.  An [async] method
      is a resumption: it runs up to its next [await], exposes the state it
      leaves behind, and is resumed later with the answer. *)

From Stdlib Require Import ZArith QArith List String Ascii Lia Bool Sorted Permutation.
From stdpp Require Import base gmap strings list pretty.
Close Scope Q_scope.
Open Scope Z_scope.

(** * Part I: the model *)

(** ** JavaScript primitives *)

Module Js.

(** [ToInt32]: the value modulo 2^32, read as a signed 32-bit integer. *)
Definition to_int32 (z : Z) : Z :=
  let m := z mod 2 ^ 32 in
  if 2 ^ 31 <=? m then m - 2 ^ 32 else m.

(** [a << n] for [0 <= n < 32]. *)
Definition shl (a n : Z) : Z := to_int32 (Z.shiftl (to_int32 a) n).

(** [a & b]. *)
Definition band (a b : Z) : Z := Z.land (to_int32 a) (to_int32 b).

(** Truthiness of a possibly missing string: [undefined] and [''] are
    falsy. *)
Definition truthy (o : option string) : bool :=
  match o with
  | Some s => negb (String.eqb s "")
  | None => false
  end.

(** [a || b] on possibly missing strings. *)
Definition or_else (a b : option string) : option string :=
  if truthy a then a else b.

(** [n || 0] on a possibly missing number. *)
Definition num_or_0 (n : option Z) : Z :=
  match n with
  | Some z => z
  | None => 0
  end.

(** Interpolation of a possibly missing string in a template literal. *)
Definition show (o : option string) : string :=
  match o with
  | Some s => s
  | None => "undefined"
  end.

(** [s.split(' ')]: one token per space-separated field, empty fields
    included; the empty string gives one empty token. *)
Fixpoint split_space (s : string) : list string :=
  match s with
  | EmptyString => [EmptyString]
  | String c rest =>
      if Ascii.eqb c " " then EmptyString :: split_space rest
      else match split_space rest with
           | t :: ts => String c t :: ts
           | [] => [String c EmptyString]
           end
  end.

(** [s.split('')]: the code units of [s]. *)
Definition chars (s : string) : list ascii := list_ascii_of_string s.

(** [c.charCodeAt(0)] of a one-unit string. *)
Definition charCode (c : ascii) : Z := Z.of_N (N_of_ascii c).

(** [s.charAt(0)]. *)
Definition charAt0 (s : string) : string :=
  match s with
  | EmptyString => EmptyString
  | String c _ => String c EmptyString
  end.

(** [l.join('')]. *)
Definition join (l : list string) : string := fold_right String.append EmptyString l.

(** An index that may be [NaN]: [(i + 1) % 0] is [NaN] in JavaScript, and
    [NaN] stays [NaN] under [+ 1] and [%]. *)
Inductive index : Type :=
| Idx (i : nat)
| NaN.

(** [(i + 1) % len]. *)
Definition succ_mod (i : index) (len : nat) : index :=
  match i, len with
  | Idx n, S _ => Idx ((n + 1) mod len)
  | _, _ => NaN
  end.

(** [l[i]]: [undefined] out of range and at [NaN]. *)
Definition at_index {A : Type} (l : list A) (i : index) : option A :=
  match i with
  | Idx n => nth_error l n
  | NaN => None
  end.

(** Interpolation of an index in a template literal. *)
Definition show_index (i : index) : string :=
  match i with
  | Idx n => pretty n
  | NaN => "NaN"
  end.

(** The built-ins whose tables are not part of the program. *)
Class Builtins : Type := {
  (** [String.prototype.toUpperCase] *)
  toUpperCase : string -> string;
  (** [encodeURIComponent] *)
  encodeURIComponent : string -> string
}.

End Js.

Import Js.

(** An instance of the built-ins for running the model on examples:
    [toUpperCase] on the ASCII letters, and [encodeURIComponent] as
    ECMAScript defines it on the code units below 256 (the characters of
    Latin-1, two bytes of UTF-8 from 128 on). *)
Definition ascii_upper (c : ascii) : ascii :=
  let n := nat_of_ascii c in
  if ((97 <=? n)%nat && (n <=? 122)%nat)%bool then ascii_of_nat (n - 32) else c.

Fixpoint string_upper (s : string) : string :=
  match s with
  | EmptyString => EmptyString
  | String c rest => String (ascii_upper c) (string_upper rest)
  end.

(** The characters [encodeURIComponent] leaves as they are: the letters,
    the digits and [- _ . ! ~ * ' ( )]. *)
Definition uriUnreserved (c : ascii) : bool :=
  let n := nat_of_ascii c in
  (((97 <=? n)%nat && (n <=? 122)%nat) || ((65 <=? n)%nat && (n <=? 90)%nat)
   || ((48 <=? n)%nat && (n <=? 57)%nat)
   || existsb (Ascii.eqb c) (list_ascii_of_string "-_.!~*'()"))%bool.

Definition hexDigit (n : nat) : ascii :=
  nth n (list_ascii_of_string "0123456789ABCDEF") "0"%char.

(** One byte of the UTF-8 encoding as [%XX]. *)
Definition percentByte (n : nat) : string :=
  String "%" (String (hexDigit (n / 16)) (String (hexDigit (n mod 16)) EmptyString)).

Definition uriEncodeUnit (c : ascii) : string :=
  let n := nat_of_ascii c in
  if uriUnreserved c then String c EmptyString
  else if (n <? 128)%nat then percentByte n
  else (percentByte (192 + n / 64) ++ percentByte (128 + n mod 64))%string.

Fixpoint uriEncode (s : string) : string :=
  match s with
  | EmptyString => EmptyString
  | String c rest => (uriEncodeUnit c ++ uriEncode rest)%string
  end.

Definition asciiBuiltins : Builtins :=
  {| toUpperCase := string_upper; encodeURIComponent := uriEncode |}.

(** ** Images *)

(** The body of an HTTP response read as a blob: its media type, its bytes,
    and whether the image decoder accepts them. *)
Record Blob : Type := mkBlob {
  blob_type : string;
  blob_data : string;
  blob_isImage : bool
}.

(** A data URL, and the commands drawn on a 144x144 canvas.  Text is always
    set in bold Arial; [fontPx] is its size in pixels. *)
Inductive DataUrl : Type :=
| DataUrlOfBlob (b : Blob)               (* FileReader.readAsDataURL(blob) *)
| DataUrlOfCanvas (ops : list DrawOp)    (* canvas.toDataURL('image/png') *)
with DrawOp : Type :=
| FillRect (fillStyle : string) (x y w h : Q)
| DrawImage (img : DataUrl) (globalAlpha : Q) (x y w h : Q)
| StrokeText (text : string) (fontPx : Q) (strokeStyle : string) (lineWidth globalAlpha : Q) (x y : Q)
| FillText (text : string) (fontPx : Q) (fillStyle : string) (globalAlpha : Q) (x y : Q).

(** The media type a data URL announces. *)
Definition mediaType (d : DataUrl) : string :=
  match d with
  | DataUrlOfBlob b => blob_type b
  | DataUrlOfCanvas _ => "image/png"
  end.

(** [img.onload] fires for a canvas encoding and for a blob the decoder
    accepts; [img.onerror] otherwise. *)
Definition loads (d : DataUrl) : bool :=
  match d with
  | DataUrlOfBlob b => blob_isImage b
  | DataUrlOfCanvas _ => true
  end.

(** ** The image renderer *)

Module Render.

(** [const size = 144], the side of a button image. *)
Definition size : Q := 144 # 1.

(** A canvas holding a solid background and white bold lines of text; every
    static state image has this shape.  A line is its text and its vertical
    offset from the centre. *)
Definition staticImage (background : string) (fontPx : Q) (lines : list (string * Q)) : DataUrl :=
  DataUrlOfCanvas
    (FillRect background 0 0 size size
     :: map (fun l => FillText (fst l) fontPx "#ffffff" 1 (size / 2) (size / 2 + snd l)) lines)%Q.

Definition generateLoadingImage : DataUrl :=
  staticImage "#0078d4" (size * (15 # 100)) [("Loading...", 0%Q)].

Definition generateConfigRequiredImage : DataUrl :=
  staticImage "#ff8c00" (size * (12 # 100)) [("Config", (-10 # 1)%Q); ("Required", (10 # 1)%Q)].

Definition generateErrorImage : DataUrl :=
  staticImage "#d13438" (size * (2 # 10)) [("Error", 0%Q)].

Definition generateNoUsersImage : DataUrl :=
  staticImage "#666666" (size * (15 # 100)) [("No Users", 0%Q)].

Definition generateInvalidDataImage : DataUrl :=
  staticImage "#c239b3" (size * (12 # 100)) [("Invalid", (-10 # 1)%Q); ("Data", (10 # 1)%Q)].

(** The palette of [generateInitialsImage]. *)
Definition colors : list string :=
  [ "#B0C4DE"; "#98FB98"; "#FFB6C1"; "#FFDAB9";
    "#DDA0DD"; "#AFEEEE"; "#D3D3D3"; "#FFFACD" ].

(** One step of the [reduce] callback:
    [a = ((a << 5) - a) + b.charCodeAt(0); return a & a]. *)
Definition hashStep (a : Z) (b : ascii) : Z :=
  let a' := (Js.shl a 5 - a) + Js.charCode b in
  Js.band a' a'.

(** [displayName.split('').reduce(..., 0)]. *)
Definition nameHash (displayName : string) : Z :=
  fold_left hashStep (Js.chars displayName) 0.

(** [colors[Math.abs(hash) % colors.length]]; [undefined] out of range. *)
Definition backgroundColor (displayName : string) : option string :=
  nth_error colors (Z.to_nat (Z.rem (Z.abs (nameHash displayName)) (Z.of_nat (length colors)))).

Section WithBuiltins.
Context `{Js.Builtins}.

(** [displayName.split(' ').filter(name => name.length > 0)]. *)
Definition nameTokens (displayName : string) : list string :=
  filter (fun name => (0 <? String.length name)%nat = true) (Js.split_space displayName).

(** [defaultInitials || names.map(name => name.charAt(0).toUpperCase()).slice(0, 2).join('')]. *)
Definition initialsOf (displayName : string) (defaultInitials : option string) : string :=
  if Js.truthy defaultInitials then Js.show defaultInitials
  else Js.join (firstn 2 (map (fun name => Js.toUpperCase (Js.charAt0 name)) (nameTokens displayName))).

(** [generateInitialsImage (displayName, defaultInitials = null)].  A fill
    style that is not a colour leaves the context's default, black. *)
Definition generateInitialsImage (displayName : string) (defaultInitials : option string) : DataUrl :=
  let initials := initialsOf displayName defaultInitials in
  let fontPx := (size * (6 # 10))%Q in
  DataUrlOfCanvas
    [ FillRect (default "#000000" (backgroundColor displayName)) 0 0 size size;
      StrokeText initials fontPx "#000000" (2 # 1) 1 (size / 2) (size / 2);
      FillText initials fontPx "#ffffff" 1 (size / 2) (size / 2) ]%Q.

End WithBuiltins.

(** The canvas of [overlayCountOnImage] once the base image has loaded: the
    image redrawn at 144x144 and, for a positive count, the count stroked
    and filled at half opacity.  (The dominant and complementary colours
    computed in that branch are not used by any drawing command.) *)
Definition overlayCanvas (img : DataUrl) (count : Z) : list DrawOp :=
  DrawImage img 1 0 0 size size
  :: (if 0 <? count then
        [ StrokeText (pretty count) (144 # 1) "#000000" (5 # 1) (1 # 2) (size / 2) (size / (16 # 10));
          FillText (pretty count) (144 # 1) "#ffffff" (1 # 2) (size / 2) (size / (16 # 10)) ]%Q
      else []).

(** What the promise of [overlayCountOnImage] settles to: rejected when the
    base image does not load, else the PNG encoding of the canvas. *)
Definition overlayCountResult (imageDataUrl : DataUrl) (count : Z) : option DataUrl :=
  if loads imageDataUrl then Some (DataUrlOfCanvas (overlayCanvas imageDataUrl count))
  else None.

(** The frame of index [frame] of a crossfade: a black background, the
    current image at [1 - frame / 24], the next image at [frame / 24]. *)
Definition transitionFrame (currentImg nextImg : DataUrl) (frame : nat) : DataUrl :=
  let currentAlpha := (1 - (inject_Z (Z.of_nat frame) / (24 # 1)))%Q in
  let nextAlpha := (inject_Z (Z.of_nat frame) / (24 # 1))%Q in
  DataUrlOfCanvas
    [ FillRect "#000000" 0 0 size size;
      DrawImage currentImg currentAlpha 0 0 size size;
      DrawImage nextImg nextAlpha 0 0 size size ]%Q.

(** [for (let frame = 0; frame <= 24; frame++) { ...push(...) }]: the loop
    entered at [frame] with [24 + 1 - frame] iterations left. *)
Fixpoint framesFrom (currentImg nextImg : DataUrl) (frame left : nat) : list DataUrl :=
  match left with
  | O => []
  | S left' => transitionFrame currentImg nextImg frame :: framesFrom currentImg nextImg (S frame) left'
  end.

End Render.

(** ** The roster *)

(** An item of the array the rotating webhook answers with, read through
    the four fields the code looks at; a field may be missing. *)
Record UserEntry : Type := mkUser {
  userId : option string;
  displayName : option string;
  count : option Z;
  fromType : option string
}.

(** The comparator of the poll handler: [(b.count || 0) - (a.count || 0)]. *)
Definition compareCount (a b : UserEntry) : Z :=
  Js.num_or_0 (count b) - Js.num_or_0 (count a).

Module JsArray.

Section Sort.
Context {A : Type} (compare : A -> A -> Z).

(** [Array.prototype.sort] is a stable sort; for a comparator that is a
    consistent order its result is the one of a stable insertion sort: an
    element stays in front of the elements after it unless the comparator
    is positive. *)
Fixpoint insert (x : A) (l : list A) : list A :=
  match l with
  | [] => [x]
  | y :: l' => if compare x y <=? 0 then x :: y :: l' else y :: insert x l'
  end.

Fixpoint sort (l : list A) : list A :=
  match l with
  | [] => []
  | x :: l' => insert x (sort l')
  end.

End Sort.

(** [l.findIndex(p)], [None] standing for [-1]. *)
Fixpoint findIndex {A : Type} (p : A -> bool) (l : list A) : option nat :=
  match l with
  | [] => None
  | x :: l' => if p x then Some O else option_map S (findIndex p l')
  end.

End JsArray.

(** ** The network *)

(** What [response.json()] parses to, as far as the code distinguishes. *)
Inductive Json : Type :=
| JsonArray (items : list UserEntry)
| JsonOther.

(** An HTTP response: its [ok] flag and what reading the body gives, [None]
    when the read rejects. *)
Record Response : Type := mkResponse {
  resp_ok : bool;
  resp_blob : option Blob;
  resp_json : option Json
}.

(** What [await fetch(url)] comes back with. *)
Inductive FetchResult : Type :=
| Responded (r : Response)
| NetworkError (message : string).

(** ** Asynchronous methods as resumptions *)

Module Async.

Section WithState.
Context {St : Type}.

(** A method that has run as far as it can without the event loop.
    [Ret] and [Raise]: it has returned or thrown, leaving state [s].
    [AwaitFetch] and [Pause]: it is suspended at an [await], on a network
    request or on a promise whose value the program itself determines (an
    image load, a body read); [s] is the state other handlers see in the
    meantime and [k] is the rest of the method.
    [Fork c k]: an async method [c] was called without [await]; it runs up
    to its first suspension, then the caller goes on with [k]. *)
Inductive Act (A : Type) : Type :=
| Ret (s : St) (a : A)
| Raise (s : St) (message : string)
| AwaitFetch (s : St) (url : string) (k : FetchResult -> St -> Act A)
| Pause (s : St) (k : St -> Act A)
| Fork (c : Act unit) (k : St -> Act A).

Arguments Ret {A} s a.
Arguments Raise {A} s message.
Arguments AwaitFetch {A} s url k.
Arguments Pause {A} s k.
Arguments Fork {A} c k.

Definition Prog (A : Type) : Type := St -> Act A.

Definition ret {A : Type} (a : A) : Prog A := fun s => Ret s a.

Definition throw {A : Type} (message : string) : Prog A := fun s => Raise s message.

Fixpoint bindAct {A B : Type} (m : Act A) (f : A -> Prog B) : Act B :=
  match m with
  | Ret s a => f a s
  | Raise s e => Raise s e
  | AwaitFetch s url k => AwaitFetch s url (fun r s' => bindAct (k r s') f)
  | Pause s k => Pause s (fun s' => bindAct (k s') f)
  | Fork c k => Fork c (fun s' => bindAct (k s') f)
  end.

Definition bind {A B : Type} (m : Prog A) (f : A -> Prog B) : Prog B :=
  fun s => bindAct (m s) f.

(** [try { m } catch (error) { h error.message }].  A rejection of a forked
    method is not the caller's to catch. *)
Fixpoint catchAct {A : Type} (m : Act A) (h : string -> Prog A) : Act A :=
  match m with
  | Ret s a => Ret s a
  | Raise s e => h e s
  | AwaitFetch s url k => AwaitFetch s url (fun r s' => catchAct (k r s') h)
  | Pause s k => Pause s (fun s' => catchAct (k s') h)
  | Fork c k => Fork c (fun s' => catchAct (k s') h)
  end.

Definition try_catch {A : Type} (m : Prog A) (h : string -> Prog A) : Prog A :=
  fun s => catchAct (m s) h.

(** [try { m } finally { f }], with [f] a plain state update. *)
Fixpoint finallyAct {A : Type} (m : Act A) (f : St -> St) : Act A :=
  match m with
  | Ret s a => Ret (f s) a
  | Raise s e => Raise (f s) e
  | AwaitFetch s url k => AwaitFetch s url (fun r s' => finallyAct (k r s') f)
  | Pause s k => Pause s (fun s' => finallyAct (k s') f)
  | Fork c k => Fork c (fun s' => finallyAct (k s') f)
  end.

Definition try_finally {A : Type} (m : Prog A) (f : St -> St) : Prog A :=
  fun s => finallyAct (m s) f.

Definition get : Prog St := fun s => Ret s s.

Definition modify (f : St -> St) : Prog unit := fun s => Ret (f s) tt.

(** [await fetch(url)]. *)
Definition fetch (url : string) : Prog Response :=
  fun s => AwaitFetch s url (fun r s' =>
    match r with
    | Responded resp => Ret s' resp
    | NetworkError e => Raise s' e
    end).

(** [await p] for a promise [p] that settles to [v], or rejects for [None];
    the rejection of an image load carries no message, which a template
    literal prints as [undefined]. *)
Definition await {A : Type} (v : option A) : Prog A :=
  fun s => Pause s (fun s' =>
    match v with
    | Some a => Ret s' a
    | None => Raise s' "undefined"
    end).

(** A call [this.m()] of an async method without [await]. *)
Definition spawn (m : Prog unit) : Prog unit :=
  fun s => Fork (m s) (fun s' => Ret s' tt).

(** *** Running a resumption *)

Inductive Outcome (A : Type) : Type :=
| Returned (a : A)
| Rejected (message : string)
| Suspended.

Arguments Returned {A} a.
Arguments Rejected {A} message.
Arguments Suspended {A}.

(** The result of running a method: the state it leaves, how it ended, the
    URLs it requested, how many of its own [await]s it went through, and
    the forked methods still suspended. *)
Record Run (A : Type) : Type := mkRun {
  final : St;
  outcome : Outcome A;
  fetched : list string;
  awaited : nat;
  detached : list (Act unit)
}.

Arguments mkRun {A} final outcome fetched awaited detached.
Arguments final {A} r.
Arguments outcome {A} r.
Arguments fetched {A} r.
Arguments awaited {A} r.
Arguments detached {A} r.

(** The synchronous part: up to the first [await] of the method itself (a
    request awaited there has been issued).  A forked method contributes
    its own synchronous part; if it is then suspended it is left among the
    detached ones. *)
Fixpoint prefix {A : Type} (m : Act A) : Run A :=
  match m with
  | Ret s a => mkRun s (Returned a) [] 0 []
  | Raise s e => mkRun s (Rejected e) [] 0 []
  | AwaitFetch s url k => mkRun s Suspended [url] 0 []
  | Pause s k => mkRun s Suspended [] 0 []
  | Fork c k =>
      let rc := prefix c in
      let rk := prefix (k (final rc)) in
      mkRun (final rk) (outcome rk) (fetched rc ++ fetched rk) 0
        (detached rc
         ++ match outcome rc with Suspended => [c] | _ => [] end
         ++ detached rk)
  end.

(** The whole method, every [await] answered at once and no other handler
    running in between: [net] is the answer of the network to a request.
    Forked methods run their synchronous part only. *)
Fixpoint run {A : Type} (net : string -> FetchResult) (m : Act A) : Run A :=
  match m with
  | Ret s a => mkRun s (Returned a) [] 0 []
  | Raise s e => mkRun s (Rejected e) [] 0 []
  | AwaitFetch s url k =>
      let r := run net (k (net url) s) in
      mkRun (final r) (outcome r) (url :: fetched r) (S (awaited r)) (detached r)
  | Pause s k =>
      let r := run net (k s) in
      mkRun (final r) (outcome r) (fetched r) (S (awaited r)) (detached r)
  | Fork c k =>
      let rc := prefix c in
      let rk := run net (k (final rc)) in
      mkRun (final rk) (outcome rk) (fetched rc ++ fetched rk) (awaited rk)
        (detached rc
         ++ match outcome rc with Suspended => [c] | _ => [] end
         ++ detached rk)
  end.

(** A suspended method resumed later, in the state [s] the session then
    has; a method that has ended stays as it is. *)
Definition resume {A : Type} (net : string -> FetchResult) (m : Act A) (s : St) : Act A :=
  match m with
  | AwaitFetch _ url k => k (net url) s
  | Pause _ k => k s
  | _ => m
  end.

(** The state a call leaves when control comes back to the caller: for a
    synchronous method the state at its return, for an async one the state
    at its first [await]. *)
Definition after {A : Type} (m : Prog A) (s : St) : St := final (prefix (m s)).

End WithState.

Arguments Act St A : clear implicits.
Arguments Prog St A : clear implicits.
Arguments Run St A : clear implicits.
Arguments Ret {St A} s a.
Arguments Raise {St A} s message.
Arguments AwaitFetch {St A} s url k.
Arguments Pause {St A} s k.
Arguments Fork {St A} c k.
Arguments Returned {A} a.
Arguments Rejected {A} message.
Arguments Suspended {A}.
Arguments mkRun {St A} final outcome fetched awaited detached.
Arguments final {St A} r.
Arguments outcome {St A} r.
Arguments fetched {St A} r.
Arguments awaited {St A} r.
Arguments detached {St A} r.

End Async.

Notation "x <- m ;; k" := (Async.bind m (fun x => k))
  (at level 100, m at next level, right associativity).
Notation "m ;;; k" := (Async.bind m (fun _ => k))
  (at level 100, right associativity).

(** ** What both actions share *)

(** The settings of a button instance; a field may be missing. *)
Record Settings : Type := mkSettings {
  rotatingWebhookUrl : option string;
  avatarWebhookUrl : option string;
  messagesWebhookUrl : option string;
  userEmail : option string;
  useDisplayNameAsTitle : bool
}.

(** Modelled from the spec: the base class [Action] ([./action]) and the
    Stream Deck wrapper are not among the sources.  The display surface
    accepts [setImage(instanceId, imageData)] and
    [setTitle(instanceId, text)] and exposes [log(message)]; a session
    records the calls it makes, oldest first. *)
Inductive Output : Type :=
| SetImage (image : DataUrl)
| SetTitle (title : string)
| Log (message : string).

(** The images written to the display, oldest first. *)
Definition imagesWritten (o : list Output) : list DataUrl :=
  omap (fun e => match e with SetImage i => Some i | _ => None end) o.

(** ** The carousel action, [TeamsRotating] *)

Module TeamsRotating.

(** The fields of [this].  [transitionInterval] and [safetyTimeout] tell
    whether the frame timer and the one-shot safety timer are armed; [out]
    is the record of calls to the display surface and the log. *)
Record State : Type := mkState {
  settings : Settings;
  users : list UserEntry;
  currentUserIndex : Js.index;
  currentAvatarImage : option DataUrl;
  nextAvatarImage : option DataUrl;
  isFetchingNext : bool;
  isFetchingCurrent : bool;
  isTransitioning : bool;
  avatarCache : gmap string DataUrl;
  transitionFrames : list DataUrl;
  currentFrameIndex : nat;
  lastDisplayedState : option string;
  transitionInterval : bool;
  safetyTimeout : bool;
  out : list Output
}.

Definition set_users (v : list UserEntry) (s : State) : State :=
  {| settings := settings s; users := v; currentUserIndex := currentUserIndex s;
     currentAvatarImage := currentAvatarImage s; nextAvatarImage := nextAvatarImage s;
     isFetchingNext := isFetchingNext s; isFetchingCurrent := isFetchingCurrent s;
     isTransitioning := isTransitioning s; avatarCache := avatarCache s;
     transitionFrames := transitionFrames s; currentFrameIndex := currentFrameIndex s;
     lastDisplayedState := lastDisplayedState s;
     transitionInterval := transitionInterval s; safetyTimeout := safetyTimeout s;
     out := out s |}.

Definition set_currentUserIndex (v : Js.index) (s : State) : State :=
  {| settings := settings s; users := users s; currentUserIndex := v;
     currentAvatarImage := currentAvatarImage s; nextAvatarImage := nextAvatarImage s;
     isFetchingNext := isFetchingNext s; isFetchingCurrent := isFetchingCurrent s;
     isTransitioning := isTransitioning s; avatarCache := avatarCache s;
     transitionFrames := transitionFrames s; currentFrameIndex := currentFrameIndex s;
     lastDisplayedState := lastDisplayedState s;
     transitionInterval := transitionInterval s; safetyTimeout := safetyTimeout s;
     out := out s |}.

Definition set_currentAvatarImage (v : option DataUrl) (s : State) : State :=
  {| settings := settings s; users := users s; currentUserIndex := currentUserIndex s;
     currentAvatarImage := v; nextAvatarImage := nextAvatarImage s;
     isFetchingNext := isFetchingNext s; isFetchingCurrent := isFetchingCurrent s;
     isTransitioning := isTransitioning s; avatarCache := avatarCache s;
     transitionFrames := transitionFrames s; currentFrameIndex := currentFrameIndex s;
     lastDisplayedState := lastDisplayedState s;
     transitionInterval := transitionInterval s; safetyTimeout := safetyTimeout s;
     out := out s |}.

Definition set_nextAvatarImage (v : option DataUrl) (s : State) : State :=
  {| settings := settings s; users := users s; currentUserIndex := currentUserIndex s;
     currentAvatarImage := currentAvatarImage s; nextAvatarImage := v;
     isFetchingNext := isFetchingNext s; isFetchingCurrent := isFetchingCurrent s;
     isTransitioning := isTransitioning s; avatarCache := avatarCache s;
     transitionFrames := transitionFrames s; currentFrameIndex := currentFrameIndex s;
     lastDisplayedState := lastDisplayedState s;
     transitionInterval := transitionInterval s; safetyTimeout := safetyTimeout s;
     out := out s |}.

Definition set_isFetchingNext (v : bool) (s : State) : State :=
  {| settings := settings s; users := users s; currentUserIndex := currentUserIndex s;
     currentAvatarImage := currentAvatarImage s; nextAvatarImage := nextAvatarImage s;
     isFetchingNext := v; isFetchingCurrent := isFetchingCurrent s;
     isTransitioning := isTransitioning s; avatarCache := avatarCache s;
     transitionFrames := transitionFrames s; currentFrameIndex := currentFrameIndex s;
     lastDisplayedState := lastDisplayedState s;
     transitionInterval := transitionInterval s; safetyTimeout := safetyTimeout s;
     out := out s |}.

Definition set_isFetchingCurrent (v : bool) (s : State) : State :=
  {| settings := settings s; users := users s; currentUserIndex := currentUserIndex s;
     currentAvatarImage := currentAvatarImage s; nextAvatarImage := nextAvatarImage s;
     isFetchingNext := isFetchingNext s; isFetchingCurrent := v;
     isTransitioning := isTransitioning s; avatarCache := avatarCache s;
     transitionFrames := transitionFrames s; currentFrameIndex := currentFrameIndex s;
     lastDisplayedState := lastDisplayedState s;
     transitionInterval := transitionInterval s; safetyTimeout := safetyTimeout s;
     out := out s |}.

Definition set_isTransitioning (v : bool) (s : State) : State :=
  {| settings := settings s; users := users s; currentUserIndex := currentUserIndex s;
     currentAvatarImage := currentAvatarImage s; nextAvatarImage := nextAvatarImage s;
     isFetchingNext := isFetchingNext s; isFetchingCurrent := isFetchingCurrent s;
     isTransitioning := v; avatarCache := avatarCache s;
     transitionFrames := transitionFrames s; currentFrameIndex := currentFrameIndex s;
     lastDisplayedState := lastDisplayedState s;
     transitionInterval := transitionInterval s; safetyTimeout := safetyTimeout s;
     out := out s |}.

Definition set_avatarCache (v : gmap string DataUrl) (s : State) : State :=
  {| settings := settings s; users := users s; currentUserIndex := currentUserIndex s;
     currentAvatarImage := currentAvatarImage s; nextAvatarImage := nextAvatarImage s;
     isFetchingNext := isFetchingNext s; isFetchingCurrent := isFetchingCurrent s;
     isTransitioning := isTransitioning s; avatarCache := v;
     transitionFrames := transitionFrames s; currentFrameIndex := currentFrameIndex s;
     lastDisplayedState := lastDisplayedState s;
     transitionInterval := transitionInterval s; safetyTimeout := safetyTimeout s;
     out := out s |}.

Definition set_transitionFrames (v : list DataUrl) (s : State) : State :=
  {| settings := settings s; users := users s; currentUserIndex := currentUserIndex s;
     currentAvatarImage := currentAvatarImage s; nextAvatarImage := nextAvatarImage s;
     isFetchingNext := isFetchingNext s; isFetchingCurrent := isFetchingCurrent s;
     isTransitioning := isTransitioning s; avatarCache := avatarCache s;
     transitionFrames := v; currentFrameIndex := currentFrameIndex s;
     lastDisplayedState := lastDisplayedState s;
     transitionInterval := transitionInterval s; safetyTimeout := safetyTimeout s;
     out := out s |}.

Definition set_currentFrameIndex (v : nat) (s : State) : State :=
  {| settings := settings s; users := users s; currentUserIndex := currentUserIndex s;
     currentAvatarImage := currentAvatarImage s; nextAvatarImage := nextAvatarImage s;
     isFetchingNext := isFetchingNext s; isFetchingCurrent := isFetchingCurrent s;
     isTransitioning := isTransitioning s; avatarCache := avatarCache s;
     transitionFrames := transitionFrames s; currentFrameIndex := v;
     lastDisplayedState := lastDisplayedState s;
     transitionInterval := transitionInterval s; safetyTimeout := safetyTimeout s;
     out := out s |}.

Definition set_lastDisplayedState (v : option string) (s : State) : State :=
  {| settings := settings s; users := users s; currentUserIndex := currentUserIndex s;
     currentAvatarImage := currentAvatarImage s; nextAvatarImage := nextAvatarImage s;
     isFetchingNext := isFetchingNext s; isFetchingCurrent := isFetchingCurrent s;
     isTransitioning := isTransitioning s; avatarCache := avatarCache s;
     transitionFrames := transitionFrames s; currentFrameIndex := currentFrameIndex s;
     lastDisplayedState := v; transitionInterval := transitionInterval s;
     safetyTimeout := safetyTimeout s; out := out s |}.

Definition set_transitionInterval (v : bool) (s : State) : State :=
  {| settings := settings s; users := users s; currentUserIndex := currentUserIndex s;
     currentAvatarImage := currentAvatarImage s; nextAvatarImage := nextAvatarImage s;
     isFetchingNext := isFetchingNext s; isFetchingCurrent := isFetchingCurrent s;
     isTransitioning := isTransitioning s; avatarCache := avatarCache s;
     transitionFrames := transitionFrames s; currentFrameIndex := currentFrameIndex s;
     lastDisplayedState := lastDisplayedState s; transitionInterval := v;
     safetyTimeout := safetyTimeout s; out := out s |}.

Definition set_safetyTimeout (v : bool) (s : State) : State :=
  {| settings := settings s; users := users s; currentUserIndex := currentUserIndex s;
     currentAvatarImage := currentAvatarImage s; nextAvatarImage := nextAvatarImage s;
     isFetchingNext := isFetchingNext s; isFetchingCurrent := isFetchingCurrent s;
     isTransitioning := isTransitioning s; avatarCache := avatarCache s;
     transitionFrames := transitionFrames s; currentFrameIndex := currentFrameIndex s;
     lastDisplayedState := lastDisplayedState s;
     transitionInterval := transitionInterval s; safetyTimeout := v; out := out s |}.

Definition set_out (v : list Output) (s : State) : State :=
  {| settings := settings s; users := users s; currentUserIndex := currentUserIndex s;
     currentAvatarImage := currentAvatarImage s; nextAvatarImage := nextAvatarImage s;
     isFetchingNext := isFetchingNext s; isFetchingCurrent := isFetchingCurrent s;
     isTransitioning := isTransitioning s; avatarCache := avatarCache s;
     transitionFrames := transitionFrames s; currentFrameIndex := currentFrameIndex s;
     lastDisplayedState := lastDisplayedState s;
     transitionInterval := transitionInterval s; safetyTimeout := safetyTimeout s;
     out := v |}.

Import Async.

Abbreviation Method := (Prog State).

(** The two slots an avatar is resolved into, with the in-flight flag that
    guards each. *)
Inductive Slot : Type :=
| NextSlot        (* nextAvatarImage, isFetchingNext *)
| CurrentSlot.    (* currentAvatarImage, isFetchingCurrent *)

Definition set_image (slot : Slot) : option DataUrl -> State -> State :=
  match slot with
  | NextSlot => set_nextAvatarImage
  | CurrentSlot => set_currentAvatarImage
  end.

Definition set_fetching (slot : Slot) : bool -> State -> State :=
  match slot with
  | NextSlot => set_isFetchingNext
  | CurrentSlot => set_isFetchingCurrent
  end.

Definition errorLabel (slot : Slot) : string :=
  match slot with
  | NextSlot => "Error prefetching avatar: "
  | CurrentSlot => "Error prefetching current avatar: "
  end.

Definition emit (e : Output) (s : State) : State := set_out (out s ++ [e]) s.

Definition setImage (image : DataUrl) : Method unit := modify (emit (SetImage image)).

Definition setTitle (title : string) : Method unit := modify (emit (SetTitle title)).

Definition log (message : string) : Method unit := modify (emit (Log message)).

(** [setImageIfChanged (context, image, stateKey)]. *)
Definition setImageIfChanged (image : DataUrl) (stateKey : string) : Method bool :=
  s <- get ;;
  if bool_decide (lastDisplayedState s = Some stateKey) then ret false
  else
    modify (set_lastDisplayedState (Some stateKey)) ;;;
    setImage image ;;;
    ret true.

(** [overlayCountOnImage (imageDataUrl, count)]: a promise that settles when
    the image has loaded or failed to. *)
Definition overlayCountOnImage (imageDataUrl : DataUrl) (count : Z) : Method DataUrl :=
  await (Render.overlayCountResult imageDataUrl count).

(** [blobToDataUrl (blob)]. *)
Definition blobToDataUrl (blob : Blob) : Method DataUrl :=
  await (Some (DataUrlOfBlob blob)).

(** [loadImage (dataUrl)]; a null source does not load. *)
Definition loadImage (dataUrl : option DataUrl) : Method DataUrl :=
  await (match dataUrl with
         | Some d => if loads d then Some d else None
         | None => None
         end).

Section WithBuiltins.
Context `{Js.Builtins}.

(** [cacheKey = `${user.userId}_${count}`]. *)
Definition cacheKey (user : UserEntry) : string :=
  Js.show (userId user) +:+ "_" +:+ pretty (Js.num_or_0 (count user)).

(** [user.displayName || user.userId] as passed to [generateInitialsImage]. *)
Definition nameOf (user : UserEntry) : string :=
  Js.show (Js.or_else (displayName user) (userId user)).

(** [this.<slot> = await this.overlayCountOnImage(baseImage, count);
     this.avatarCache.set(cacheKey, this.<slot>);
     this.streamDeck.log(...)]. *)
Definition compositeAndCache (slot : Slot) (user : UserEntry) (baseImage : DataUrl) : Method unit :=
  image <- overlayCountOnImage baseImage (Js.num_or_0 (count user)) ;;
  modify (set_image slot (Some image)) ;;;
  modify (fun s => set_avatarCache (<[cacheKey user := image]> (avatarCache s)) s) ;;;
  log ("Cached new avatar for user " +:+ Js.show (userId user)).

(** The body shared by [prefetchNextAvatar] and [prefetchCurrentAvatar] from
    [this.isFetching<Slot> = true] on; the two methods differ in the slot
    they fill, the flag they hold and the text of one log line. *)
Definition resolveAvatar (slot : Slot) (user : UserEntry) : Method unit :=
  modify (set_fetching slot true) ;;;
  s <- get ;;
  match avatarCache s !! cacheKey user with
  | Some image =>
      (* Check cache first *)
      modify (set_image slot (Some image)) ;;;
      log ("Using cached avatar for user " +:+ Js.show (userId user)) ;;;
      modify (set_fetching slot false)
  | None =>
      if bool_decide (fromType user = Some "bot") then
        (* For bots, always generate initials image *)
        compositeAndCache slot user
          (Render.generateInitialsImage (nameOf user)
             (if bool_decide (displayName user = Some "Workflows") then Some "WF" else None)) ;;;
        modify (set_fetching slot false)
      else
        (* For users, try to fetch avatar first, fallback to initials *)
        try_finally
          (try_catch
             (s <- get ;;
              let avatarUrl := avatarWebhookUrl (settings s) in
              if negb (Js.truthy avatarUrl) then
                compositeAndCache slot user (Render.generateInitialsImage (nameOf user) None) ;;;
                modify (set_fetching slot false)
              else
                response <- fetch (Js.show avatarUrl +:+ "?userId="
                                   +:+ Js.encodeURIComponent (Js.show (userId user))) ;;
                if resp_ok response then
                  avatarBlob <- await (resp_blob response) ;;
                  baseImage <- blobToDataUrl avatarBlob ;;
                  compositeAndCache slot user baseImage
                else
                  (* Avatar not found (404 or other error), generate initials image *)
                  compositeAndCache slot user (Render.generateInitialsImage (nameOf user) None))
             (fun message =>
                (* Network error, generate initials image as fallback *)
                log (errorLabel slot +:+ message) ;;;
                compositeAndCache slot user (Render.generateInitialsImage (nameOf user) None)))
          (set_fetching slot false)
  end.

(** [async prefetchNextAvatar ()]. *)
Definition prefetchNextAvatar : Method unit :=
  s <- get ;;
  if isFetchingNext s then ret tt
  else if (length (users s) =? 0)%nat then ret tt
  else
    let nextIndex := Js.succ_mod (currentUserIndex s) (length (users s)) in
    match Js.at_index (users s) nextIndex with
    | Some nextUser =>
        if Js.truthy (userId nextUser) then resolveAvatar NextSlot nextUser else ret tt
    | None => ret tt
    end.

(** [async prefetchCurrentAvatar ()]. *)
Definition prefetchCurrentAvatar : Method unit :=
  s <- get ;;
  if isFetchingCurrent s then ret tt
  else if (length (users s) =? 0)%nat then ret tt
  else
    match Js.at_index (users s) (currentUserIndex s) with
    | Some currentUser =>
        if Js.truthy (userId currentUser) then resolveAvatar CurrentSlot currentUser else ret tt
    | None => ret tt
    end.

(** [stateKey = `avatar:${currentUser?.userId}_${count}_${this.currentUserIndex}`]. *)
Definition stateKey (s : State) : string :=
  let currentUser := Js.at_index (users s) (currentUserIndex s) in
  "avatar:" +:+ Js.show (currentUser ≫= userId)
  +:+ "_" +:+ pretty (Js.num_or_0 (currentUser ≫= count))
  +:+ "_" +:+ Js.show_index (currentUserIndex s).

(** [updateDisplay (context)]. *)
Definition updateDisplay : Method unit :=
  s <- get ;;
  if (length (users s) =? 0)%nat then
    setImageIfChanged Render.generateNoUsersImage "noUsers" ;;;
    if useDisplayNameAsTitle (settings s) then setTitle "" else ret tt
  else
    let currentUser := Js.at_index (users s) (currentUserIndex s) in
    let key := stateKey s in
    match currentAvatarImage s with
    | Some image => setImageIfChanged image key ;;; ret tt
    | None =>
        match nextAvatarImage s with
        | Some image =>
            (* Use next avatar as fallback *)
            setImageIfChanged image key ;;;
            modify (set_currentAvatarImage (Some image)) ;;;
            modify (set_nextAvatarImage None) ;;;
            spawn prefetchNextAvatar
        | None => ret tt
        end
    end ;;;
    if useDisplayNameAsTitle (settings s) then
      setTitle (default "" (Js.or_else (currentUser ≫= displayName) (Some "")))
    else setTitle "".

(** [showNextUser (context)]. *)
Definition showNextUser : Method unit :=
  s <- get ;;
  if (length (users s) =? 0)%nat then
    setImageIfChanged Render.generateNoUsersImage "noUsers" ;;; ret tt
  else
    modify (fun s => set_currentUserIndex (Js.succ_mod (currentUserIndex s) (length (users s))) s) ;;;
    (* Swap current and next avatar *)
    modify (fun s => set_currentAvatarImage (nextAvatarImage s) s) ;;;
    modify (set_nextAvatarImage None) ;;;
    (* Start prefetching next avatar *)
    spawn prefetchNextAvatar ;;;
    updateDisplay.

(** [forceCompleteTransition (context)]. *)
Definition forceCompleteTransition : Method unit :=
  modify (set_transitionInterval false) ;;;
  modify (set_isTransitioning false) ;;;
  modify (set_transitionFrames []) ;;;
  (* Just update display without changing user *)
  updateDisplay ;;;
  s <- get ;;
  if (0 <? length (users s))%nat then spawn prefetchNextAvatar else ret tt.

(** [completeTransition (context, safetyTimeout)]. *)
Definition completeTransition : Method unit :=
  modify (set_safetyTimeout false) ;;;
  modify (set_transitionInterval false) ;;;
  modify (set_isTransitioning false) ;;;
  (* Move to next user *)
  modify (fun s => set_currentUserIndex (Js.succ_mod (currentUserIndex s) (length (users s))) s) ;;;
  modify (fun s => set_currentAvatarImage (nextAvatarImage s) s) ;;;
  modify (set_nextAvatarImage None) ;;;
  updateDisplay ;;;
  s <- get ;;
  (if (0 <? length (users s))%nat then spawn prefetchNextAvatar else ret tt) ;;;
  modify (set_transitionFrames []).

(** The callback of the safety timer armed by [playTransition]. *)
Definition safetyTimeoutFires : Method unit :=
  modify (set_safetyTimeout false) ;;;
  s <- get ;;
  if isTransitioning s then
    log "Transition safety timeout triggered" ;;;
    forceCompleteTransition
  else ret tt.

(** The callback of the frame timer armed by [playTransition]. *)
Definition transitionTick : Method unit :=
  s <- get ;;
  match nth_error (transitionFrames s) (currentFrameIndex s) with
  | Some frame =>
      (* always update during transition *)
      setImage frame ;;;
      modify (fun s => set_currentFrameIndex (S (currentFrameIndex s)) s)
  | None => completeTransition
  end.

(** [playTransition (context)]: a frame timer still armed is cleared and a
    new one armed, after the one-shot safety timer. *)
Definition playTransition : Method unit :=
  modify (set_currentFrameIndex 0) ;;;
  modify (set_lastDisplayedState (Some "transitioning")) ;;;
  modify (set_safetyTimeout true) ;;;
  modify (set_transitionInterval true).

(** [async generateTransitionFrames ()]. *)
Definition generateTransitionFrames : Method unit :=
  modify (set_transitionFrames []) ;;;
  try_catch
    (s <- get ;;
     currentImg <- loadImage (currentAvatarImage s) ;;
     s <- get ;;
     nextImg <- loadImage (nextAvatarImage s) ;;
     modify (fun s => set_transitionFrames
                        (transitionFrames s ++ Render.framesFrom currentImg nextImg 0 25) s))
    (fun message => throw ("Failed to generate transition frames: " +:+ message)).

(** [async showNextUserWithTransition (context)]. *)
Definition showNextUserWithTransition : Method unit :=
  s <- get ;;
  if ((length (users s) =? 0)%nat || isTransitioning s)%bool then ret tt
  else
    match currentAvatarImage s, nextAvatarImage s with
    | Some _, Some _ =>
        modify (set_isTransitioning true) ;;;
        try_catch
          (generateTransitionFrames ;;; playTransition)
          (fun message =>
             log ("Transition frame generation failed: " +:+ message) ;;;
             modify (set_isTransitioning false) ;;;
             showNextUser)
    | _, _ =>
        (* Fallback to instant change if we don't have both images *)
        showNextUser
    end.

(** The position the poll handler gives the previously current user in the
    new list: [findIndex] on [userId], [0] when there was no current user or
    the search gives [-1]. *)
Definition newIndex (currentUser : option UserEntry) (sortedUsers : list UserEntry) : nat :=
  match currentUser with
  | Some currentUser =>
      match JsArray.findIndex (fun user => bool_decide (userId user = userId currentUser)) sortedUsers with
      | Some foundIndex => foundIndex
      | None => 0%nat
      end
  | None => 0%nat
  end.

(** [async fetchUsersData (context)]. *)
Definition fetchUsersData : Method unit :=
  try_catch
    (s <- get ;;
     let rotatingUrl := rotatingWebhookUrl (settings s) in
     if negb (Js.truthy rotatingUrl) then
       setImageIfChanged Render.generateConfigRequiredImage "configRequired" ;;; ret tt
     else
       response <- fetch (Js.show rotatingUrl) ;;
       if negb (resp_ok response) then
         setImageIfChanged Render.generateErrorImage "error" ;;; ret tt
       else
         usersData <- await (resp_json response) ;;
         match usersData with
         | JsonOther =>
             setImageIfChanged Render.generateInvalidDataImage "invalidData" ;;; ret tt
         | JsonArray usersData =>
             (* Sort by count DESC *)
             let sortedUsers := JsArray.sort compareCount usersData in
             (* Find current user's position in new data *)
             s <- get ;;
             let currentUser := Js.at_index (users s) (currentUserIndex s) in
             modify (set_users sortedUsers) ;;;
             modify (set_currentUserIndex (Js.Idx (newIndex currentUser sortedUsers))) ;;;
             (if (0 <? length sortedUsers)%nat then prefetchCurrentAvatar else ret tt) ;;;
             s <- get ;;
             (if (negb (isFetchingNext s) && (0 <? length (users s))%nat)%bool
              then spawn prefetchNextAvatar else ret tt) ;;;
             updateDisplay
         end)
    (fun message =>
       log ("Error fetching users data: " +:+ message) ;;;
       setImageIfChanged Render.generateErrorImage "error" ;;; ret tt).

End WithBuiltins.

(** The state the constructor leaves. *)
Definition initial (settings : Settings) : State :=
  {| settings := settings; users := []; currentUserIndex := Js.Idx 0;
     currentAvatarImage := None; nextAvatarImage := None;
     isFetchingNext := false; isFetchingCurrent := false; isTransitioning := false;
     avatarCache := ∅; transitionFrames := []; currentFrameIndex := 0%nat;
     lastDisplayedState := None; transitionInterval := false; safetyTimeout := false;
     out := [] |}.

End TeamsRotating.

(** ** The single-avatar action, [TeamsAvatar] *)

Module TeamsAvatar.

(** The fields of [this]; [avatarImage] and the cache hold the base avatar,
    without the count. *)
Record State : Type := mkState {
  settings : Settings;
  avatarImage : option DataUrl;
  messages : list UserEntry;
  unreadCount : Z;
  avatarCache : gmap string DataUrl;
  lastDisplayedImageState : option string;
  out : list Output
}.

Definition set_avatarImage (v : option DataUrl) (s : State) : State :=
  {| settings := settings s; avatarImage := v; messages := messages s;
     unreadCount := unreadCount s; avatarCache := avatarCache s;
     lastDisplayedImageState := lastDisplayedImageState s; out := out s |}.

Definition set_messages (v : list UserEntry) (s : State) : State :=
  {| settings := settings s; avatarImage := avatarImage s; messages := v;
     unreadCount := unreadCount s; avatarCache := avatarCache s;
     lastDisplayedImageState := lastDisplayedImageState s; out := out s |}.

Definition set_unreadCount (v : Z) (s : State) : State :=
  {| settings := settings s; avatarImage := avatarImage s; messages := messages s;
     unreadCount := v; avatarCache := avatarCache s;
     lastDisplayedImageState := lastDisplayedImageState s; out := out s |}.

Definition set_avatarCache (v : gmap string DataUrl) (s : State) : State :=
  {| settings := settings s; avatarImage := avatarImage s; messages := messages s;
     unreadCount := unreadCount s; avatarCache := v;
     lastDisplayedImageState := lastDisplayedImageState s; out := out s |}.

Definition set_lastDisplayedImageState (v : option string) (s : State) : State :=
  {| settings := settings s; avatarImage := avatarImage s; messages := messages s;
     unreadCount := unreadCount s; avatarCache := avatarCache s;
     lastDisplayedImageState := v; out := out s |}.

Definition set_out (v : list Output) (s : State) : State :=
  {| settings := settings s; avatarImage := avatarImage s; messages := messages s;
     unreadCount := unreadCount s; avatarCache := avatarCache s;
     lastDisplayedImageState := lastDisplayedImageState s; out := v |}.

Import Async.

Abbreviation Method := (Prog State).

Definition emit (e : Output) (s : State) : State := set_out (out s ++ [e]) s.

Definition setImage (image : DataUrl) : Method unit := modify (emit (SetImage image)).

Definition log (message : string) : Method unit := modify (emit (Log message)).

(** [setImageIfChanged (context, image, stateKey)]. *)
Definition setImageIfChanged (image : DataUrl) (stateKey : string) : Method bool :=
  s <- get ;;
  if bool_decide (lastDisplayedImageState s = Some stateKey) then ret false
  else
    modify (set_lastDisplayedImageState (Some stateKey)) ;;;
    setImage image ;;;
    ret true.

(** [overlayCountOnImage (imageDataUrl, count)]. *)
Definition overlayCountOnImage (imageDataUrl : DataUrl) (count : Z) : Method DataUrl :=
  await (Render.overlayCountResult imageDataUrl count).

(** [blobToDataUrl (blob)]. *)
Definition blobToDataUrl (blob : Blob) : Method DataUrl :=
  await (Some (DataUrlOfBlob blob)).

(** [async updateDisplay (context)]. *)
Definition updateDisplay : Method unit :=
  s <- get ;;
  let stateKey := "avatar:" +:+ Js.show (userEmail (settings s)) +:+ "_" +:+ pretty (unreadCount s) in
  match avatarImage s with
  | Some image =>
      imageWithCount <- overlayCountOnImage image (unreadCount s) ;;
      setImageIfChanged imageWithCount stateKey ;;; ret tt
  | None => ret tt
  end.

Section WithBuiltins.
Context `{Js.Builtins}.

(** [async fetchData (context)]. *)
Definition fetchData : Method unit :=
  try_catch
    (s <- get ;;
     let email := userEmail (settings s) in
     let avatarUrl := avatarWebhookUrl (settings s) in
     let messagesUrl := messagesWebhookUrl (settings s) in
     if (negb (Js.truthy email) || negb (Js.truthy avatarUrl) || negb (Js.truthy messagesUrl))%bool then
       setImageIfChanged Render.generateConfigRequiredImage "configRequired" ;;; ret tt
     else
       (* Check cache first for avatar *)
       match avatarCache s !! Js.show email with
       | Some image =>
           modify (set_avatarImage (Some image)) ;;;
           log ("Using cached avatar for user " +:+ Js.show email)
       | None =>
           (* Fetch avatar *)
           avatarResponse <- fetch (Js.show avatarUrl +:+ "?user="
                                    +:+ Js.encodeURIComponent (Js.show email)) ;;
           if resp_ok avatarResponse then
             avatarBlob <- await (resp_blob avatarResponse) ;;
             avatarDataUrl <- blobToDataUrl avatarBlob ;;
             modify (set_avatarImage (Some avatarDataUrl)) ;;;
             (* Cache the base avatar (without count overlay) *)
             modify (fun s => set_avatarCache (<[Js.show email := avatarDataUrl]> (avatarCache s)) s) ;;;
             log ("Cached avatar for user " +:+ Js.show email)
           else ret tt
       end ;;;
       (* Always fetch messages (they change frequently) *)
       messagesResponse <- fetch (Js.show messagesUrl +:+ "?user="
                                  +:+ Js.encodeURIComponent (Js.show email)) ;;
       (if resp_ok messagesResponse then
          messagesData <- await (resp_json messagesResponse) ;;
          modify (set_messages (match messagesData with
                                | JsonArray items => items
                                | JsonOther => []
                                end)) ;;;
          modify (fun s => set_unreadCount (Z.of_nat (length (messages s))) s)
        else ret tt) ;;;
       updateDisplay)
    (fun message =>
       log ("Error fetching data: " +:+ message) ;;;
       setImageIfChanged Render.generateErrorImage "error" ;;; ret tt).

End WithBuiltins.

(** The state the constructor leaves. *)
Definition initial (settings : Settings) : State :=
  {| settings := settings; avatarImage := None; messages := []; unreadCount := 0;
     avatarCache := ∅; lastDisplayedImageState := None; out := [] |}.

End TeamsAvatar.

(** ** Definitions used to state the properties *)

Module Inv.
Import Async.

Section WithState.
Context {St : Type}.

(** [keeps R m]: every state that [m] exposes at an [await] or leaves at its
    end satisfies [R], whatever it is resumed with, provided the state it is
    resumed in satisfies [R]. *)
Fixpoint keeps {A : Type} (R : St -> Prop) (m : Act St A) : Prop :=
  match m with
  | Ret s _ => R s
  | Raise s _ => R s
  | AwaitFetch s _ k => R s /\ forall r s', R s' -> keeps R (k r s')
  | Pause s k => R s /\ forall s', R s' -> keeps R (k s')
  | Fork c k => keeps R c /\ forall s', R s' -> keeps R (k s')
  end.

(** A method keeps [R] if it does so from every state that satisfies it. *)
Definition Keeps {A : Type} (R : St -> Prop) (m : Prog St A) : Prop :=
  forall s, R s -> keeps R (m s).

End WithState.

End Inv.


Module Frame.
Import TeamsRotating.

(** [s] has the roster, the position and the transition state of [s0]:
    what neither a pre-fetch nor a display update touches. *)
Definition sameRoster (s0 s : State) : Prop :=
  users s = users s0
  /\ currentUserIndex s = currentUserIndex s0
  /\ isTransitioning s = isTransitioning s0
  /\ transitionFrames s = transitionFrames s0
  /\ currentFrameIndex s = currentFrameIndex s0
  /\ transitionInterval s = transitionInterval s0
  /\ safetyTimeout s = safetyTimeout s0.

(** [s] differs from [s0] at most in what a pre-fetch of the next avatar may
    touch: the next image, its in-flight flag, the cache and the log. *)
Definition sameButNext (s0 s : State) : Prop :=
  settings s = settings s0
  /\ users s = users s0
  /\ currentUserIndex s = currentUserIndex s0
  /\ currentAvatarImage s = currentAvatarImage s0
  /\ isFetchingCurrent s = isFetchingCurrent s0
  /\ isTransitioning s = isTransitioning s0
  /\ transitionFrames s = transitionFrames s0
  /\ currentFrameIndex s = currentFrameIndex s0
  /\ lastDisplayedState s = lastDisplayedState s0
  /\ transitionInterval s = transitionInterval s0
  /\ safetyTimeout s = safetyTimeout s0
  /\ imagesWritten (out s) = imagesWritten (out s0).

End Frame.

Module Display.
Import TeamsRotating.

(** The title [updateDisplay] sets for a non-empty roster. *)
Definition titleOf (s : State) : string :=
  if useDisplayNameAsTitle (settings s)
  then default "" (Js.or_else (Js.at_index (users s) (currentUserIndex s) ≫= displayName) (Some ""))
  else "".

(** The state [showNextUser] has built when it starts the pre-fetch: the
    position advanced, the next image moved to the current one. *)
Definition swapped (s : State) : State :=
  set_nextAvatarImage None
    (set_currentAvatarImage (nextAvatarImage s)
       (set_currentUserIndex (Js.succ_mod (currentUserIndex s) (length (users s))) s)).

End Display.

(** ** A session to run the model on *)

Module Example.
Import Async TeamsRotating.

Definition roster : list UserEntry :=
  [ mkUser (Some "b1") (Some "Workflows") (Some 3) (Some "bot");
    mkUser (Some "u1") (Some "Ann Lee") (Some 5) None ].

Definition config : Settings :=
  {| rotatingWebhookUrl := Some "https://hooks.example/roster";
     avatarWebhookUrl := Some "https://hooks.example/avatar";
     messagesWebhookUrl := Some "https://hooks.example/messages";
     userEmail := Some "ann@example.org";
     useDisplayNameAsTitle := true |}.

(** A JPEG portrait as an avatar webhook would answer with. *)
Definition portrait : Blob :=
  {| blob_type := "image/jpeg"; blob_data := "/9j/4AAQSkZJRg=="; blob_isImage := true |}.

(** The roster webhook answers; the avatar webhook answers 404;
    the messages webhook answers with two messages. *)
Definition net404 (url : string) : FetchResult :=
  if String.eqb url "https://hooks.example/roster" then
    Responded {| resp_ok := true; resp_blob := None; resp_json := Some (JsonArray roster) |}
  else if String.prefix "https://hooks.example/messages" url then
    Responded {| resp_ok := true; resp_blob := None;
                 resp_json := Some (JsonArray [mkUser None None None None; mkUser None None None None]) |}
  else Responded {| resp_ok := false; resp_blob := None; resp_json := None |}.

(** The same with an avatar webhook that cannot be reached. *)
Definition netDown (url : string) : FetchResult :=
  if String.prefix "https://hooks.example/avatar" url then NetworkError "Failed to fetch"
  else net404 url.

(** The same with an avatar webhook that answers with the portrait. *)
Definition netOk (url : string) : FetchResult :=
  if String.prefix "https://hooks.example/avatar" url then
    Responded {| resp_ok := true; resp_blob := Some portrait; resp_json := None |}
  else net404 url.

(** The first poll of a fresh session. *)
Definition firstPoll : Run State unit :=
  run net404 (@fetchUsersData asciiBuiltins (initial config)).

(** The session once the pre-fetch the poll has forked is through. *)
Definition ready : State :=
  fold_left (fun s task => final (run net404 (resume net404 task s)))
    (detached firstPoll) (final firstPoll).

(** A carousel tick with animation: frames generated, playback started. *)
Definition playing : State :=
  final (run net404 (@showNextUserWithTransition asciiBuiltins ready)).

(** The two images of the session when it is ready. *)
Definition readyCurrent : DataUrl := default (DataUrlOfCanvas []) (currentAvatarImage ready).

Definition readyNext : DataUrl := default (DataUrlOfCanvas []) (nextAvatarImage ready).

(** The session after a manual switch: the bot is the current user. *)
Definition switched : State := after (@showNextUser asciiBuiltins) ready.

(** The session with no next image yet and its pre-fetch in flight. *)
Definition waiting : State := set_isFetchingNext true (set_nextAvatarImage None ready).

(** The answer of the roster webhook. *)
Definition rosterResponse : Response :=
  {| resp_ok := true; resp_blob := None; resp_json := Some (JsonArray roster) |}.

(** Four entries with the counts 3, 7, 1, 7. *)
Definition fourEntries : list UserEntry :=
  [ mkUser (Some "a") None (Some 3) None; mkUser (Some "b") None (Some 7) None;
    mkUser (Some "c") None (Some 1) None; mkUser (Some "d") None (Some 7) None ].

End Example.

Module Resolve.
Import Async TeamsRotating.

(** The image and the in-flight flag of a slot. *)
Definition imageOf (slot : Slot) (s : State) : option DataUrl :=
  match slot with
  | NextSlot => nextAvatarImage s
  | CurrentSlot => currentAvatarImage s
  end.

Definition fetchingOf (slot : Slot) (s : State) : bool :=
  match slot with
  | NextSlot => isFetchingNext s
  | CurrentSlot => isFetchingCurrent s
  end.

(** One resolution of an avatar: the slot it is for, the roster entry, and
    what the network answers while it runs. *)
Record Request : Type := mkRequest {
  req_slot : Slot;
  req_user : UserEntry;
  req_net : string -> FetchResult
}.

Section WithBuiltins.
Context `{Js.Builtins}.

(** The initials image with the count composited: what a resolution falls
    back to when the avatar webhook gives no image. *)
Definition fallbackImage (user : UserEntry) : DataUrl :=
  DataUrlOfCanvas
    (Render.overlayCanvas (Render.generateInitialsImage (nameOf user) None)
       (Js.num_or_0 (count user))).

(** The avatar the count is drawn on when the cache has no entry for the
    key of the user.  For a bot it is synthesised: the initials image, with
    the initials "WF" for the display name "Workflows".  For a user it is
    the image the avatar webhook answers with; it is synthesised, the
    initials image, when there is no avatar URL, when the request throws,
    when the status is not OK, when the body cannot be read and when the
    image does not load. *)
Definition baseAvatar (net : string -> FetchResult) (user : UserEntry) (s : State) : DataUrl :=
  let initials := Render.generateInitialsImage (nameOf user) None in
  if bool_decide (fromType user = Some "bot") then
    Render.generateInitialsImage (nameOf user)
      (if bool_decide (displayName user = Some "Workflows") then Some "WF" else None)
  else if negb (Js.truthy (avatarWebhookUrl (settings s))) then initials
  else
    match net (Js.show (avatarWebhookUrl (settings s)) +:+ "?userId="
               +:+ Js.encodeURIComponent (Js.show (userId user))) with
    | Responded response =>
        if resp_ok response then
          match resp_blob response with
          | Some blob => if blob_isImage blob then DataUrlOfBlob blob else initials
          | None => initials
          end
        else initials
    | NetworkError _ => initials
    end.

(** What a resolution is to end on, in the words of the cache invariant:
    the entry of the cache when there is one for the key, and otherwise the
    fetched or synthesised avatar with the count composited. *)
Definition resolution (net : string -> FetchResult) (user : UserEntry) (s : State) : DataUrl :=
  match avatarCache s !! cacheKey user with
  | Some cached => cached
  | None =>
      DataUrlOfCanvas (Render.overlayCanvas (baseAvatar net user s) (Js.num_or_0 (count user)))
  end.

(** Resolutions one after the other, each run to its end before the next
    starts, with the run of each. *)
Fixpoint resolveAll (reqs : list Request) (s : State) : list (Request * Run State unit) :=
  match reqs with
  | [] => []
  | q :: rest =>
      let r := run (req_net q) (resolveAvatar (req_slot q) (req_user q) s) in
      (q, r) :: resolveAll rest (final r)
  end.

End WithBuiltins.

End Resolve.

(** ** Further definitions used to state properties *)

Module Safe.
Import Async.

Section WithState.
Context {St : Type}.

(** [neverThrows m]: however [m] is resumed, it does not end in [Raise]. *)
Fixpoint neverThrows {A : Type} (m : Act St A) : Prop :=
  match m with
  | Ret _ _ => True
  | Raise _ _ => False
  | AwaitFetch _ _ k => forall r s', neverThrows (k r s')
  | Pause _ k => forall s', neverThrows (k s')
  | Fork _ k => forall s', neverThrows (k s')
  end.

End WithState.

End Safe.

Module Poll.
Import Async TeamsRotating.

(** How a poll of the roster fails, read off the early returns and the
    catch block of [fetchUsersData]: the key and the image of the static
    state it displays, [None] when the webhook answers with an array. *)
Definition failure (net : string -> FetchResult) (s : State) : option (string * DataUrl) :=
  let rotatingUrl := rotatingWebhookUrl (settings s) in
  if negb (Js.truthy rotatingUrl) then Some ("configRequired", Render.generateConfigRequiredImage)
  else match net (Js.show rotatingUrl) with
       | NetworkError _ => Some ("error", Render.generateErrorImage)
       | Responded response =>
           if negb (resp_ok response) then Some ("error", Render.generateErrorImage)
           else match resp_json response with
                | None => Some ("error", Render.generateErrorImage)
                | Some JsonOther => Some ("invalidData", Render.generateInvalidDataImage)
                | Some (JsonArray _) => None
                end
       end.

End Poll.

Module Frame2.
Import TeamsRotating.

(** [s] differs from [s0] at most in what resolving the current avatar may
    touch: the current image, its in-flight flag, the cache and the log. *)
Definition sameButCurrent (s0 s : State) : Prop :=
  settings s = settings s0
  /\ users s = users s0
  /\ currentUserIndex s = currentUserIndex s0
  /\ nextAvatarImage s = nextAvatarImage s0
  /\ isFetchingNext s = isFetchingNext s0
  /\ isTransitioning s = isTransitioning s0
  /\ transitionFrames s = transitionFrames s0
  /\ currentFrameIndex s = currentFrameIndex s0
  /\ lastDisplayedState s = lastDisplayedState s0
  /\ transitionInterval s = transitionInterval s0
  /\ safetyTimeout s = safetyTimeout s0
  /\ imagesWritten (out s) = imagesWritten (out s0).

(** All that [s] has added to the record of calls of [s0] is lines of the
    log: no image and no title has been written in between. *)
Definition logsOnly (s0 s : State) : Prop :=
  exists lines, out s = out s0 ++ map Log lines.

Section WithBuiltins.
Context `{Js.Builtins}.

(** The URL a resolution requests for a roster entry. *)
Definition avatarRequest (s : State) (user : UserEntry) : string :=
  Js.show (avatarWebhookUrl (settings s)) +:+ "?userId="
  +:+ Js.encodeURIComponent (Js.show (userId user)).

End WithBuiltins.

End Frame2.

Module Playback.
Import Async TeamsRotating.

Section WithBuiltins.
Context `{Js.Builtins}.

(** [k] firings of the frame timer, one after the other. *)
Fixpoint ticks (k : nat) (s : State) : State :=
  match k with
  | O => s
  | S k' => ticks k' (after transitionTick s)
  end.

End WithBuiltins.

(** Whether [showNextUserWithTransition] finds two images it can crossfade:
    both are there and both load. *)
Definition canCrossfade (s : State) : bool :=
  match currentAvatarImage s, nextAvatarImage s with
  | Some currentImg, Some nextImg => loads currentImg && loads nextImg
  | _, _ => false
  end.

End Playback.

Module Carousel.
Import Async TeamsRotating.

Section WithBuiltins.
Context `{Js.Builtins}.

(** [k] instant switches, one after the other: key presses, or timer ticks
    with the animation disabled. *)
Fixpoint switches (k : nat) (s : State) : State :=
  match k with
  | O => s
  | S k' => switches k' (after showNextUser s)
  end.

End WithBuiltins.

End Carousel.

Module Single.
Import Async TeamsAvatar.

(** The key under which the single-avatar action displays its image:
    [`avatar:${userEmail}_${this.unreadCount}`]. *)
Definition stateKey (s : State) : string :=
  "avatar:" +:+ Js.show (userEmail (settings s)) +:+ "_" +:+ pretty (unreadCount s).

(** What the session of the single-avatar action keeps true from one poll
    to the next: the count is the number of messages held, and the avatar
    and every cache entry are base avatars as the webhook sent them, never
    an image with a count drawn on it. *)
Definition consistent (s : State) : Prop :=
  unreadCount s = Z.of_nat (length (messages s))
  /\ (forall image, avatarImage s = Some image -> exists blob, image = DataUrlOfBlob blob)
  /\ (forall key image, avatarCache s !! key = Some image -> exists blob, image = DataUrlOfBlob blob).

End Single.

Module Post.
Import Async.

Section WithState.
Context {St : Type}.

(** [ensures R Q m]: as [Inv.keeps R m], and the value [m] returns, if it
    returns, satisfies [Q]. *)
Fixpoint ensures {A : Type} (R : St -> Prop) (Q : A -> Prop) (m : Act St A) : Prop :=
  match m with
  | Ret s a => R s /\ Q a
  | Raise s _ => R s
  | AwaitFetch s _ k => R s /\ forall r s', R s' -> ensures R Q (k r s')
  | Pause s k => R s /\ forall s', R s' -> ensures R Q (k s')
  | Fork c k => ensures R (fun _ => True) c /\ forall s', R s' -> ensures R Q (k s')
  end.

Definition Ensures {A : Type} (R : St -> Prop) (Q : A -> Prop) (m : Prog St A) : Prop :=
  forall s, R s -> ensures R Q (m s).

End WithState.

End Post.

Module Moves.
Import Async.

Section WithState.
Context {St : Type}.

(** [follows P s0 m]: from [s0], every stretch of [m] between two [await]s
    moves the state along [P]: the state [m] exposes at its first [await]
    or leaves at its end is [P]-related to [s0], and so on from whatever
    state it is resumed in. *)
Fixpoint follows {A : Type} (P : St -> St -> Prop) (s0 : St) (m : Act St A) : Prop :=
  match m with
  | Ret s _ => P s0 s
  | Raise s _ => P s0 s
  | AwaitFetch s _ k => P s0 s /\ forall r s', follows P s' (k r s')
  | Pause s k => P s0 s /\ forall s', follows P s' (k s')
  | Fork c k => follows P s0 c /\ forall s', follows P s' (k s')
  end.

Definition Follows {A : Type} (P : St -> St -> Prop) (m : Prog St A) : Prop :=
  forall s, follows P s (m s).

(** A suspended method moves the state along [P] however it is resumed. *)
Definition resumes (P : St -> St -> Prop) (t : Act St unit) : Prop :=
  forall net s, follows P s (resume net t s).

End WithState.

End Moves.

Module Images.
Import TeamsRotating.

(** Every image the carousel holds can be loaded: the current image, the
    next image and every entry of the cache. *)
Definition loadable (s : State) : Prop :=
  (forall image, currentAvatarImage s = Some image -> loads image = true)
  /\ (forall image, nextAvatarImage s = Some image -> loads image = true)
  /\ (forall key image, avatarCache s !! key = Some image -> loads image = true).

(** The cache of [s'] has an entry for every key the cache of [s] has one
    for. *)
Definition cacheGrows (s s' : State) : Prop :=
  forall key, is_Some (avatarCache s !! key) -> is_Some (avatarCache s' !! key).

End Images.

Module Roster.
Import TeamsRotating.

(** The position designates a user of the roster, unless the roster is
    empty. *)
Definition positioned (s : State) : Prop :=
  users s = []
  \/ exists i, currentUserIndex s = Js.Idx i /\ (i < length (users s))%nat.

End Roster.

(** ** The life cycle of the carousel, and sessions *)

Module Lifecycle.
Import Async TeamsRotating.

(** Modelled from the spec: [this.setSettings(settings)] belongs to the
    base class [Action], which is not among the sources; configuration is
    "supplied at instance-appear time and on explicit settings-changed
    notification", so the call is taken to replace the settings of the
    instance. *)
Definition set_settings (v : Settings) (s : State) : State :=
  {| settings := v; users := users s; currentUserIndex := currentUserIndex s;
     currentAvatarImage := currentAvatarImage s; nextAvatarImage := nextAvatarImage s;
     isFetchingNext := isFetchingNext s; isFetchingCurrent := isFetchingCurrent s;
     isTransitioning := isTransitioning s; avatarCache := avatarCache s;
     transitionFrames := transitionFrames s; currentFrameIndex := currentFrameIndex s;
     lastDisplayedState := lastDisplayedState s;
     transitionInterval := transitionInterval s; safetyTimeout := safetyTimeout s;
     out := out s |}.

Section WithBuiltins.
Context `{Js.Builtins}.

(** [stopCarousel ()], as far as the state records timers: the frame timer
    is cleared.  The poll timer and the carousel timer are not part of the
    state; their firings are the events of a session. *)
Definition stopCarousel : Method unit := modify (set_transitionInterval false).

(** [startPolling (context)]: the initial fetch, called without [await]. *)
Definition startPolling : Method unit := spawn fetchUsersData.

(** [startCarousel (context)]. *)
Definition startCarousel : Method unit := stopCarousel.

(** [onWillAppear (context, settings)]. *)
Definition onWillAppear : Method unit :=
  modify (set_lastDisplayedState (Some "loading")) ;;;
  setImage Render.generateLoadingImage ;;;
  startPolling ;;;
  startCarousel.

(** [onDidReceiveSettings (context, payload)]. *)
Definition onDidReceiveSettings (settings : Settings) : Method unit :=
  modify (set_settings settings) ;;;
  (* Restart everything with new settings *)
  stopCarousel ;;;
  modify (set_users []) ;;;
  modify (set_currentUserIndex (Js.Idx 0)) ;;;
  modify (set_currentAvatarImage None) ;;;
  modify (set_nextAvatarImage None) ;;;
  modify (set_isFetchingNext false) ;;;
  modify (set_isFetchingCurrent false) ;;;
  modify (set_isTransitioning false) ;;;
  modify (set_avatarCache ∅) ;;;
  modify (set_transitionFrames []) ;;;
  modify (set_lastDisplayedState None) ;;;
  startPolling ;;;
  startCarousel.

(** [onKeyUp (...)]. *)
Definition onKeyUp : Method unit := showNextUser.

(** The callback of the carousel timer armed by [startCarousel], with the
    animation disabled or not. *)
Definition carouselTick (disableAnimation : bool) : Method unit :=
  if disableAnimation then showNextUser
  else
    s <- get ;;
    (* Only start transition if not already transitioning *)
    if negb (isTransitioning s) then showNextUserWithTransition else ret tt.

End WithBuiltins.

End Lifecycle.

Module Session.
Import Async TeamsRotating.

Section WithState.
Context {St : Type}.

(** Where a method is suspended once its synchronous part has run: the
    [await] it has reached, if it has not ended. *)
Fixpoint residual {A : Type} (m : Act St A) : option (Act St A) :=
  match m with
  | Ret _ _ => None
  | Raise _ _ => None
  | AwaitFetch _ _ _ => Some m
  | Pause _ _ => Some m
  | Fork c k => residual (k (final (prefix c)))
  end.

End WithState.

(** What the event loop delivers to an instance of the carousel. *)
Inductive Event : Type :=
| WillAppear
| DidReceiveSettings (settings : Settings)
| KeyUp
| PollTimer
| CarouselTimer (disableAnimation : bool)
| FrameTimer
| SafetyTimer.

(** A session: the fields of the instance and the methods suspended at an
    [await]. *)
Record Config : Type := mkConfig {
  state : State;
  pending : list (Act State unit)
}.

Section WithBuiltins.
Context `{Js.Builtins}.

(** The callback an event runs. *)
Definition handler (e : Event) : Method unit :=
  match e with
  | WillAppear => Lifecycle.onWillAppear
  | DidReceiveSettings settings => Lifecycle.onDidReceiveSettings settings
  | KeyUp => Lifecycle.onKeyUp
  | PollTimer => fetchUsersData
  | CarouselTimer disableAnimation => Lifecycle.carouselTick disableAnimation
  | FrameTimer => transitionTick
  | SafetyTimer => safetyTimeoutFires
  end.

(** The methods a run leaves suspended, each at the [await] it has
    reached: the methods called without [await], and the method itself. *)
Definition suspended (m : Act State unit) : list (Act State unit) :=
  omap residual (detached (prefix m))
  ++ match residual m with Some t => [t] | None => [] end.

(** A method runs until it ends or reaches an [await]; what it leaves
    suspended joins the suspended methods of the session. *)
Definition settle (m : Act State unit) (others : list (Act State unit)) : Config :=
  {| state := final (prefix m); pending := others ++ suspended m |}.

(** What happened in one turn of the event loop. *)
Inductive Label : Type :=
| Delivered (e : Event)
| Resumed.

(** One turn of the event loop: an event is delivered and its callback
    runs, or one suspended method is resumed with the answer of the network
    and runs up to its next [await].  Any event may come at any time and
    the suspended methods are resumed in any order: every order the timers
    and the network allow is among these. *)
Inductive step : Config -> Label -> Config -> Prop :=
| step_event (c : Config) (e : Event) :
    step c (Delivered e) (settle (handler e (state c)) (pending c))
| step_resume (c : Config) (net : string -> FetchResult)
      (before : list (Act State unit)) (task : Act State unit) (rest : list (Act State unit)) :
    pending c = before ++ task :: rest ->
    step c Resumed (settle (resume net task (state c)) (before ++ rest)).

(** The sessions an instance can be in: from the state the constructor
    leaves, by turns of the event loop. *)
Inductive reachable : Config -> Prop :=
| reachable_start (settings : Settings) : reachable (mkConfig (initial settings) [])
| reachable_step (c c' : Config) (l : Label) : reachable c -> step c l c' -> reachable c'.

End WithBuiltins.

(** A session is good for [R] when its state satisfies [R] and every
    suspended method keeps [R] from where it is. *)
Definition good (R : State -> Prop) (c : Config) : Prop :=
  R (state c) /\ List.Forall (Post.ensures R (fun _ => True)) (pending c).

End Session.

(** ** A session of the event loop to run the model on *)

Module Walk.
Import Async TeamsRotating Session.

(** The first suspended method of a session is resumed with the answer of
    [net]. *)
Definition resumeFirst (H : Js.Builtins) (net : string -> FetchResult) (c : Config) : Config :=
  match pending c with
  | task :: rest => settle (resume net task (state c)) rest
  | [] => c
  end.

(** The button appears. *)
Definition appeared : Config :=
  settle (@handler asciiBuiltins WillAppear (initial Example.config)) [].

Fixpoint resumeMany (H : Js.Builtins) (net : string -> FetchResult) (n : nat) (c : Config) : Config :=
  match n with
  | O => c
  | S n' => resumeMany H net n' (resumeFirst H net c)
  end.

(** The roster webhook has answered, the avatar webhook has answered 404
    and the initials of the first user are in the cache and on display;
    the resolution for the second user is suspended. *)
Definition shown : Config := resumeMany asciiBuiltins Example.net404 4 appeared.

(** Nothing is left suspended. *)
Definition settled : Config := resumeMany asciiBuiltins Example.net404 5 appeared.

End Walk.

(** ** The connection test *)

Module Connection.
Import Async.

(** The three images of the connection test of the single avatar. *)
Definition generateTestOkImage : DataUrl :=
  Render.staticImage "#107c10" (Render.size * (18 # 100)) [("Test OK", 0%Q)].

Definition generateTestFailImage : DataUrl :=
  Render.staticImage "#d13438" (Render.size * (15 # 100)) [("Test Fail", 0%Q)].

Definition generateTestErrorImage : DataUrl :=
  Render.staticImage "#a80000" (Render.size * (13 # 100)) [("Test Error", 0%Q)].

(** [await Promise.all([fetch(a), fetch(b)])]: both requests are made; the
    [await] gives both responses, or throws when a request has thrown. *)
Definition fetchBoth {St : Type} (a b : string) : Prog St (Response * Response) :=
  fun s => AwaitFetch s a (fun ra s1 =>
    AwaitFetch s1 b (fun rb s2 =>
      match ra, rb with
      | Responded x, Responded y => Ret s2 (x, y)
      | NetworkError e, _ => Raise s2 e
      | _, NetworkError e => Raise s2 e
      end)).

Module Rotating.
Import TeamsRotating.

Section WithBuiltins.
Context `{Js.Builtins}.

(** [async testConnection (context, settings)] of the carousel, with the
    settings of the payload.  Each branch also arms a timer of two seconds
    whose callback is [revert]. *)
Definition testConnection (settings : Settings) : Method unit :=
  try_catch
    (let avatarUrl := avatarWebhookUrl settings in
     let rotatingUrl := rotatingWebhookUrl settings in
     if (negb (Js.truthy avatarUrl) || negb (Js.truthy rotatingUrl))%bool then
       setTitle ("URLs" +:+ String "010"%char "Required")
     else
       (* Test rotating webhook *)
       rotatingResponse <- fetch (Js.show rotatingUrl) ;;
       if resp_ok rotatingResponse then setTitle "Test OK" else setTitle "Test Fail")
    (fun _ => setTitle "Test Error").

(** [() => this.updateDisplay(context)]. *)
Definition revert : Method unit := updateDisplay.

End WithBuiltins.

(** The title a connection test ends on. *)
Definition verdict (net : string -> FetchResult) (settings : Settings) : string :=
  if (negb (Js.truthy (avatarWebhookUrl settings))
      || negb (Js.truthy (rotatingWebhookUrl settings)))%bool
  then "URLs" +:+ String "010"%char "Required"
  else match net (Js.show (rotatingWebhookUrl settings)) with
       | NetworkError _ => "Test Error"
       | Responded response => if resp_ok response then "Test OK" else "Test Fail"
       end.

End Rotating.

Module Single.
Import TeamsAvatar.

Section WithBuiltins.
Context `{Js.Builtins}.

(** [this.setImage(context, image); this.lastDisplayedImageState = key]. *)
Definition showTest (image : DataUrl) (key : string) : Method unit :=
  setImage image ;;;
  modify (set_lastDisplayedImageState (Some key)).

(** [async testConnection (context, settings)] of the single avatar, with
    the settings of the payload.  Each branch also arms a timer of two
    seconds whose callback is [revert]. *)
Definition testConnection (settings : Settings) : Method unit :=
  try_catch
    (let email := userEmail settings in
     let avatarUrl := avatarWebhookUrl settings in
     let messagesUrl := messagesWebhookUrl settings in
     (* Test both webhooks *)
     responses <- fetchBoth
                    (Js.show avatarUrl +:+ "?user=" +:+ Js.encodeURIComponent (Js.show email))
                    (Js.show messagesUrl +:+ "?user=" +:+ Js.encodeURIComponent (Js.show email)) ;;
     let avatarOk := resp_ok (fst responses) in
     let messagesOk := resp_ok (snd responses) in
     if (avatarOk && messagesOk)%bool then showTest generateTestOkImage "testOk"
     else showTest generateTestFailImage "testFail")
    (fun _ => showTest generateTestErrorImage "testError").

End WithBuiltins.

(** [() => { this.lastDisplayedImageState = null; this.updateDisplay(context) }]. *)
Definition revert : Method unit :=
  modify (set_lastDisplayedImageState None) ;;;
  (* Force update *)
  updateDisplay.

(** The image and the key a connection test ends on. *)
Definition verdict (H : Js.Builtins) (net : string -> FetchResult) (settings : Settings)
    : DataUrl * string :=
  let query := "?user=" +:+ Js.encodeURIComponent (Js.show (userEmail settings)) in
  match net (Js.show (avatarWebhookUrl settings) +:+ query),
        net (Js.show (messagesWebhookUrl settings) +:+ query) with
  | Responded avatarResponse, Responded messagesResponse =>
      if (resp_ok avatarResponse && resp_ok messagesResponse)%bool
      then (generateTestOkImage, "testOk")
      else (generateTestFailImage, "testFail")
  | _, _ => (generateTestErrorImage, "testError")
  end.

End Single.

End Connection.

(** ** The property inspector of the carousel, [pi-rotating.js] *)

Module JsText.

(** White space and line terminators among the code units below 256. *)
Definition isWhiteSpace (c : ascii) : bool :=
  let n := nat_of_ascii c in
  ((9 <=? n)%nat && (n <=? 13)%nat || (n =? 32)%nat || (n =? 160)%nat)%bool.

Fixpoint trimStart (s : string) : string :=
  match s with
  | EmptyString => EmptyString
  | String c rest => if isWhiteSpace c then trimStart rest else s
  end.

Fixpoint trimEnd (s : string) : string :=
  match s with
  | EmptyString => EmptyString
  | String c rest =>
      match trimEnd rest with
      | EmptyString => if isWhiteSpace c then EmptyString else String c EmptyString
      | rest' => String c rest'
      end
  end.

(** [s.trim()]. *)
Definition trim (s : string) : string := trimEnd (trimStart s).

(** The value of a digit in a radix of 10 or 16. *)
Definition digit (radix : Z) (c : ascii) : option Z :=
  let n := Z.of_nat (nat_of_ascii c) in
  if (48 <=? n) && (n <=? 57) then Some (n - 48)
  else if (radix =? 16) && (97 <=? n) && (n <=? 102) then Some (n - 87)
  else if (radix =? 16) && (65 <=? n) && (n <=? 70) then Some (n - 55)
  else None.

(** The number the longest prefix of digits denotes, from [acc]; [None]
    when there is no digit. *)
Fixpoint digits (radix : Z) (s : string) (acc : option Z) : option Z :=
  match s with
  | EmptyString => acc
  | String c rest =>
      match digit radix c with
      | Some d => digits radix rest (Some (Js.num_or_0 acc * radix + d))
      | None => acc
      end
  end.

(** [parseInt(s)] without a radix, [None] standing for [NaN]: leading
    white space is skipped, then a sign, then [0x] or [0X] selects radix
    16, then the longest prefix of digits counts.  The result is a double
    in JavaScript: exact up to 2^53, which is far above the bounds the
    inspector compares it with. *)
Definition parseInt (s : string) : option Z :=
  let s := trimStart s in
  let '(sign, s) := match s with
                    | String "-" rest => (-1, rest)
                    | String "+" rest => (1, rest)
                    | _ => (1, s)
                    end in
  let '(radix, s) := match s with
                     | String "0" (String "x" rest) => (16, rest)
                     | String "0" (String "X" rest) => (16, rest)
                     | _ => (10, s)
                     end in
  option_map (Z.mul sign) (digits radix s None).

(** Whether every code unit of [s] is a decimal digit. *)
Fixpoint allDigits (s : string) : bool :=
  match s with
  | EmptyString => true
  | String c rest => match digit 10 c with Some _ => allDigits rest | None => false end
  end.

(** Whether the code unit [c] occurs in [s]. *)
Fixpoint occurs (c : ascii) (s : string) : bool :=
  match s with
  | EmptyString => false
  | String c' rest => (Ascii.eqb c c' || occurs c rest)%bool
  end.

(** [n || d] on a number: [NaN] and [0] are falsy. *)
Definition num_or (n : option Z) (d : Z) : Z :=
  match n with
  | Some z => if z =? 0 then d else z
  | None => d
  end.

End JsText.

Module Inspector.

(** The values of the four input elements. *)
Record Form : Type := mkForm {
  avatarWebhookUrl_value : string;
  rotatingWebhookUrl_value : string;
  pollingRefreshRate_value : string;
  carouselDuration_value : string
}.

(** The settings object the inspector sends. *)
Record InstanceSettings : Type := mkInstanceSettings {
  avatarWebhookUrl : string;
  rotatingWebhookUrl : string;
  pollingRefreshRate : Z;
  carouselDuration : Z
}.

(** What a click does: the message sent on the socket, if any, and the
    alert shown with its type. *)
Record Effect (A : Type) : Type := mkEffect {
  sent : option A;
  alert : string;
  alertType : string
}.

Arguments mkEffect {A} sent alert alertType.
Arguments sent {A} e.
Arguments alert {A} e.
Arguments alertType {A} e.

(** [showAlert(text, type = 'error')] with nothing sent. *)
Definition showAlert {A : Type} (text : string) : Effect A :=
  {| sent := None; alert := text; alertType := "error" |}.

(** [saveSettings()]; [connected] tells whether [websocket && actionInfo]
    holds, without which [setSettings] sends nothing. *)
Definition saveSettings (connected : bool) (form : Form) : Effect InstanceSettings :=
  let avatarWebhookUrl := JsText.trim (avatarWebhookUrl_value form) in
  let rotatingWebhookUrl := JsText.trim (rotatingWebhookUrl_value form) in
  let pollingRefreshRate := JsText.num_or (JsText.parseInt (pollingRefreshRate_value form)) 30 in
  let carouselDuration := JsText.num_or (JsText.parseInt (carouselDuration_value form)) 5 in
  (* Basic validation *)
  if (String.eqb avatarWebhookUrl "" || String.eqb rotatingWebhookUrl "")%bool then
    showAlert "Both webhook URLs are required"
  else if (pollingRefreshRate <? 5) || (300 <? pollingRefreshRate) then
    showAlert "Polling refresh rate must be between 5 and 300 seconds"
  else if (carouselDuration <? 1) || (60 <? carouselDuration) then
    showAlert "Carousel duration must be between 1 and 60 seconds"
  else
    (* Save instance settings *)
    let instanceSettings :=
      {| avatarWebhookUrl := avatarWebhookUrl; rotatingWebhookUrl := rotatingWebhookUrl;
         pollingRefreshRate := pollingRefreshRate; carouselDuration := carouselDuration |} in
    {| sent := if connected then Some instanceSettings else None;
       alert := "Settings saved successfully!"; alertType := "success" |}.

(** [testConnection()]: the payload [{ event: 'testConnection', settings }]
    sent to the plugin carries the two URLs. *)
Definition testConnection (connected : bool) (form : Form) : Effect Settings :=
  let avatarWebhookUrl := JsText.trim (avatarWebhookUrl_value form) in
  let rotatingWebhookUrl := JsText.trim (rotatingWebhookUrl_value form) in
  if (String.eqb avatarWebhookUrl "" || String.eqb rotatingWebhookUrl "")%bool then
    showAlert "Please fill in all required fields first"
  else
    {| sent := if connected
               then Some (mkSettings (Some rotatingWebhookUrl) (Some avatarWebhookUrl)
                            None None false)
               else None;
       alert := "Testing connection..."; alertType := "info" |}.

End Inspector.

(** ** The life cycle of the single avatar *)

Module SingleLifecycle.
Import Async TeamsAvatar.

(** Modelled from the spec: [this.setSettings(settings)] belongs to the
    base class [Action], which is not among the sources; it is taken to
    replace the settings of the instance, as for the carousel. *)
Definition set_settings (v : Settings) (s : State) : State :=
  {| settings := v; avatarImage := avatarImage s; messages := messages s;
     unreadCount := unreadCount s; avatarCache := avatarCache s;
     lastDisplayedImageState := lastDisplayedImageState s; out := out s |}.

Section WithBuiltins.
Context `{Js.Builtins}.

(** [async startPolling (context)]: the initial fetch is awaited, then the
    poll timer is armed; the timer is not part of the state, its firings
    are polls. *)
Definition startPolling : Method unit := fetchData.

(** [onDidReceiveSettings (context, payload)], with [settings] for
    [payload.settings || {}]. *)
Definition onDidReceiveSettings (settings : Settings) : Method unit :=
  modify (set_settings settings) ;;;
  (* Clear cache when settings change *)
  modify (set_avatarCache ∅) ;;;
  (* Reset state tracking *)
  modify (set_lastDisplayedImageState None) ;;;
  (* Restart polling with new settings *)
  spawn startPolling.

End WithBuiltins.

(** Whether the three settings a poll needs are there. *)
Definition configured (settings : Settings) : bool :=
  (Js.truthy (userEmail settings) && Js.truthy (avatarWebhookUrl settings)
   && Js.truthy (messagesWebhookUrl settings))%bool.

End SingleLifecycle.

(** * Part II: properties *)

(** ** 32-bit arithmetic and the name hash *)

Section Int32.




Lemma to_int32_small z : - 2 ^ 31 <= z < 2 ^ 31 -> Js.to_int32 z = z.
Proof.
  intros Hz. unfold Js.to_int32. cbv zeta.
  destruct (Z.leb_spec (2 ^ 31) (z mod 2 ^ 32)) as [Hle | Hlt].
  - destruct (Z.neg_nonneg_cases z) as [Hn | Hp].
    + rewrite <- (Z.mod_add z 1 (2 ^ 32)) by lia.
      rewrite Z.mod_small; lia.
    + rewrite Z.mod_small in Hle; lia.
  - destruct (Z.neg_nonneg_cases z) as [Hn | Hp].
    + rewrite <- (Z.mod_add z 1 (2 ^ 32)) in Hlt by lia.
      rewrite Z.mod_small in Hlt; lia.
    + rewrite Z.mod_small; lia.
Qed.



End Int32.





(** ** Tokens and initials *)




Lemma nameTokens_nonempty displayName :
  Forall (fun t => t <> EmptyString) (Render.nameTokens displayName).
Proof.
  unfold Render.nameTokens. apply List.Forall_forall. intros t Ht.
  rewrite <- list_elem_of_In in Ht. apply list_elem_of_filter in Ht.
  destruct Ht as [Hlen _]. intros ->. simpl in Hlen. discriminate.
Qed.


(** On ASCII names: two tokens, more than two, surrounding spaces. *)
Example initials_examples :
  @Render.initialsOf asciiBuiltins "John Doe" None = "JD"
  /\ @Render.initialsOf asciiBuiltins "  jane   van smith " None = "JV"
  /\ @Render.initialsOf asciiBuiltins "ChatGPT" None = "C"
  /\ @Render.initialsOf asciiBuiltins "Workflows" None = "W"
  /\ @Render.initialsOf asciiBuiltins "Workflows" (Some "WF") = "WF"
  /\ Render.nameHash "John Doe" = -1367319387
  /\ Render.backgroundColor "John Doe" = Some "#FFDAB9".
Proof. repeat split; reflexivity. Qed.

(** ** The roster sort *)

Section SortFacts.
Context {A : Type} (key : A -> Z).

(** A comparator that orders by decreasing [key], as [compareCount] does. *)
Local Abbreviation compare := (fun a b : A => key b - key a).

Lemma insert_perm x l : Permutation (x :: l) (JsArray.insert compare x l).
Proof.
  induction l as [| y l IH]; simpl; [reflexivity |].
  destruct (compare x y <=? 0); [reflexivity |].
  rewrite perm_swap. now constructor.
Qed.

Lemma sort_perm l : Permutation l (JsArray.sort compare l).
Proof.
  induction l as [| x l IH]; simpl; [constructor |].
  rewrite <- insert_perm. now constructor.
Qed.

Lemma insert_sorted x l :
  StronglySorted (fun a b => key b <= key a) l ->
  StronglySorted (fun a b => key b <= key a) (JsArray.insert compare x l).
Proof.
  induction 1 as [| y l Hl IH Hy]; simpl.
  - constructor; constructor.
  - destruct (Z.leb_spec (compare x y) 0) as [Hle | Hgt]; cbv beta in *.
    + constructor; [constructor; assumption |].
      constructor; [lia |].
      eapply List.Forall_impl; [| exact Hy]. simpl. intros; lia.
    + constructor; [exact IH |].
      eapply Permutation_Forall; [apply insert_perm |].
      constructor; [lia | exact Hy].
Qed.

Lemma sort_sorted l : StronglySorted (fun a b => key b <= key a) (JsArray.sort compare l).
Proof.
  induction l as [| x l IH]; simpl; [constructor | now apply insert_sorted].
Qed.

(** Stability: the elements of one key keep the order they came in. *)
Lemma insert_stable c x l :
  filter (fun a => key a = c) (JsArray.insert compare x l)
  = filter (fun a => key a = c) (x :: l).
Proof.
  induction l as [| y l IH]; simpl; [reflexivity |].
  destruct (Z.leb_spec (compare x y) 0) as [Hle | Hgt]; [reflexivity |].
  cbv beta in Hgt.
  rewrite (filter_cons _ y), IH, !filter_cons.
  repeat case_decide; try reflexivity; lia.
Qed.

Lemma sort_stable c l :
  filter (fun a => key a = c) (JsArray.sort compare l) = filter (fun a => key a = c) l.
Proof.
  induction l as [| x l IH]; simpl; [reflexivity |].
  rewrite insert_stable, !filter_cons, IH. reflexivity.
Qed.

End SortFacts.

Lemma findIndex_Some {A : Type} (p : A -> bool) l i :
  JsArray.findIndex p l = Some i ->
  exists x, nth_error l i = Some x /\ p x = true
            /\ forall j y, (j < i)%nat -> nth_error l j = Some y -> p y = false.
Proof.
  revert i. induction l as [| a l IH]; intros i; simpl; [discriminate |].
  destruct (p a) eqn:Ea.
  - intros [= <-]. exists a. repeat split; [assumption | intros; lia].
  - destruct (JsArray.findIndex p l) as [i' |]; simpl; [| discriminate].
    intros [= <-]. destruct (IH i' eq_refl) as (x & Hx & Hp & Hfirst).
    exists x. repeat split; [assumption | assumption |].
    intros [| j] y Hj; simpl; [intros [= <-]; assumption |].
    apply Hfirst. lia.
Qed.

Lemma findIndex_None {A : Type} (p : A -> bool) l :
  JsArray.findIndex p l = None <-> (forall x, In x l -> p x = false).
Proof.
  induction l as [| a l IH]; simpl; [intuition |].
  destruct (p a) eqn:Ea.
  - split; [discriminate |]. intros Hall. rewrite (Hall a) in Ea by auto. discriminate.
  - destruct (JsArray.findIndex p l); simpl.
    + split; [discriminate |]. intros Hall.
      assert (Some n = None); [| discriminate]. apply IH. auto.
    + split; [| reflexivity]. intros _ x [<- | Hx]; [assumption |].
      now apply IH.
Qed.

(** ** Invariants of resumptions *)

Section InvFacts.
Import Async Inv.
Context {St : Type} (R : St -> Prop).

Lemma keeps_bindAct {A B : Type} (m : Act St A) (f : A -> Prog St B) :
  keeps R m -> (forall a, Keeps R (f a)) -> keeps R (bindAct m f).
Proof.
  revert B f.
  induction m as [A s a | A s e | A s url k IH | A s k IH | A c _ k IH];
    intros B f Hm Hf; simpl in *.
  - now apply Hf.
  - exact Hm.
  - destruct Hm as [Hs Hk]. split; [exact Hs |]. intros r s' Hs'. apply IH; auto.
  - destruct Hm as [Hs Hk]. split; [exact Hs |]. intros s' Hs'. apply IH; auto.
  - destruct Hm as [Hc Hk]. split; [exact Hc |]. intros s' Hs'. apply IH; auto.
Qed.

Lemma keeps_catchAct {A : Type} (m : Act St A) (h : string -> Prog St A) :
  keeps R m -> (forall e, Keeps R (h e)) -> keeps R (catchAct m h).
Proof.
  revert h.
  induction m as [A s a | A s e | A s url k IH | A s k IH | A c _ k IH];
    intros h Hm Hh; simpl in *.
  - exact Hm.
  - now apply Hh.
  - destruct Hm as [Hs Hk]. split; [exact Hs |]. intros r s' Hs'. apply IH; auto.
  - destruct Hm as [Hs Hk]. split; [exact Hs |]. intros s' Hs'. apply IH; auto.
  - destruct Hm as [Hc Hk]. split; [exact Hc |]. intros s' Hs'. apply IH; auto.
Qed.

Lemma keeps_finallyAct {A : Type} (m : Act St A) (f : St -> St) :
  keeps R m -> (forall s, R s -> R (f s)) -> keeps R (finallyAct m f).
Proof.
  intros Hm Hf.
  induction m as [A s a | A s e | A s url k IH | A s k IH | A c _ k IH]; simpl in *.
  - now apply Hf.
  - now apply Hf.
  - destruct Hm as [Hs Hk]. split; [exact Hs |]. intros r s' Hs'. apply IH; auto.
  - destruct Hm as [Hs Hk]. split; [exact Hs |]. intros s' Hs'. apply IH; auto.
  - destruct Hm as [Hc Hk]. split; [exact Hc |]. intros s' Hs'. apply IH; auto.
Qed.

Lemma Keeps_bind {A B : Type} (m : Prog St A) (f : A -> Prog St B) :
  Keeps R m -> (forall a, Keeps R (f a)) -> Keeps R (bind m f).
Proof. intros Hm Hf s Hs. apply keeps_bindAct; [now apply Hm | exact Hf]. Qed.

Lemma Keeps_try_catch {A : Type} (m : Prog St A) (h : string -> Prog St A) :
  Keeps R m -> (forall e, Keeps R (h e)) -> Keeps R (try_catch m h).
Proof. intros Hm Hh s Hs. apply keeps_catchAct; [now apply Hm | exact Hh]. Qed.

Lemma Keeps_try_finally {A : Type} (m : Prog St A) (f : St -> St) :
  Keeps R m -> (forall s, R s -> R (f s)) -> Keeps R (try_finally m f).
Proof. intros Hm Hf s Hs. apply keeps_finallyAct; [now apply Hm | exact Hf]. Qed.

Lemma Keeps_ret {A : Type} (a : A) : Keeps R (ret a).
Proof. intros s Hs. exact Hs. Qed.

Lemma Keeps_throw {A : Type} (e : string) : Keeps R (@throw St A e).
Proof. intros s Hs. exact Hs. Qed.

Lemma Keeps_get : Keeps R get.
Proof. intros s Hs. exact Hs. Qed.

Lemma Keeps_modify (f : St -> St) : (forall s, R s -> R (f s)) -> Keeps R (modify f).
Proof. intros Hf s Hs. now apply Hf. Qed.

Lemma Keeps_fetch (url : string) : Keeps R (fetch url).
Proof. intros s Hs. split; [exact Hs |]. intros [resp | e] s' Hs'; exact Hs'. Qed.

Lemma Keeps_await {A : Type} (v : option A) : Keeps R (await v).
Proof. intros s Hs. split; [exact Hs |]. intros s' Hs'. destruct v; exact Hs'. Qed.

Lemma Keeps_spawn (m : Prog St unit) : Keeps R m -> Keeps R (spawn m).
Proof. intros Hm s Hs. split; [now apply Hm |]. intros s' Hs'. exact Hs'. Qed.

(** What a method keeps holds when control comes back to the caller, and
    when the method has run to its end. *)
Lemma keeps_prefix {A : Type} (m : Act St A) : keeps R m -> R (final (prefix m)).
Proof.
  induction m as [A s a | A s e | A s url k IH | A s k IH | A c IHc k IH]; simpl; try tauto.
  intros [Hc Hk]. apply IH, Hk, IHc, Hc.
Qed.

Lemma keeps_run {A : Type} (net : string -> FetchResult) (m : Act St A) :
  keeps R m -> R (final (run net m)).
Proof.
  induction m as [A s a | A s e | A s url k IH | A s k IH | A c IHc k IH]; simpl; try tauto.
  - intros [Hs Hk]. apply IH, Hk, Hs.
  - intros [Hs Hk]. apply IH, Hk, Hs.
  - intros [Hc Hk]. apply IH, Hk. apply keeps_prefix, Hc.
Qed.

Lemma Keeps_after {A : Type} (m : Prog St A) s : Keeps R m -> R s -> R (after m s).
Proof. intros Hm Hs. apply keeps_prefix, Hm, Hs. Qed.

End InvFacts.

(** ** What the carousel methods leave alone *)

Lemma imagesWritten_log o message : imagesWritten (o ++ [Log message]) = imagesWritten o.
Proof. unfold imagesWritten. rewrite omap_app. simpl. apply app_nil_r. Qed.

Lemma imagesWritten_title o title : imagesWritten (o ++ [SetTitle title]) = imagesWritten o.
Proof. unfold imagesWritten. rewrite omap_app. simpl. apply app_nil_r. Qed.

Lemma imagesWritten_image o image : imagesWritten (o ++ [SetImage image]) = imagesWritten o ++ [image].
Proof. unfold imagesWritten. rewrite omap_app. reflexivity. Qed.

(** Side conditions: a state update preserves the frame. *)
Ltac frame_side :=
  cbv [Frame.sameRoster Frame.sameButNext TeamsRotating.set_image TeamsRotating.set_fetching
       TeamsRotating.emit];
  intros; repeat match goal with sl : TeamsRotating.Slot |- _ => destruct sl end; cbn;
  rewrite ?imagesWritten_log, ?imagesWritten_title; tauto.

(** Goals [Keeps R m] are solved along the syntax of [m]. *)
Ltac keeps_step :=
  lazymatch goal with
  | |- Inv.Keeps _ (Async.bind _ _) => apply Keeps_bind; [| intros ?]
  | |- Inv.Keeps _ (Async.try_finally _ _) => apply Keeps_try_finally
  | |- Inv.Keeps _ (Async.try_catch _ _) => apply Keeps_try_catch; [| intros ?]
  | |- Inv.Keeps _ Async.get => apply Keeps_get
  | |- Inv.Keeps _ (Async.ret _) => apply Keeps_ret
  | |- Inv.Keeps _ (Async.throw _) => apply Keeps_throw
  | |- Inv.Keeps _ (Async.fetch _) => apply Keeps_fetch
  | |- Inv.Keeps _ (Async.await _) => apply Keeps_await
  | |- Inv.Keeps _ (Async.spawn _) => apply Keeps_spawn
  | |- Inv.Keeps _ (Async.modify _) => apply Keeps_modify; frame_side
  | |- Inv.Keeps _ (if ?b then _ else _) => destruct b
  | |- Inv.Keeps _ (match ?x with _ => _ end) => destruct x
  | |- forall _, _ -> _ => frame_side
  end.

Ltac keeps_auto := repeat keeps_step.

Section RotatingFrames.
Import Async Inv TeamsRotating Frame.
Context `{Js.Builtins}.

Lemma resolveAvatar_sameRoster s0 slot user : Keeps (sameRoster s0) (resolveAvatar slot user).
Proof.
  unfold resolveAvatar, compositeAndCache, overlayCountOnImage, blobToDataUrl, log.
  keeps_auto.
Qed.

Lemma prefetchNextAvatar_sameRoster s0 : Keeps (sameRoster s0) prefetchNextAvatar.
Proof.
  unfold prefetchNextAvatar. keeps_auto; apply resolveAvatar_sameRoster.
Qed.

Lemma prefetchCurrentAvatar_sameRoster s0 : Keeps (sameRoster s0) prefetchCurrentAvatar.
Proof.
  unfold prefetchCurrentAvatar. keeps_auto; apply resolveAvatar_sameRoster.
Qed.

Lemma setImageIfChanged_sameRoster s0 image key : Keeps (sameRoster s0) (setImageIfChanged image key).
Proof. unfold setImageIfChanged, setImage. keeps_auto. Qed.

Lemma updateDisplay_sameRoster s0 : Keeps (sameRoster s0) updateDisplay.
Proof.
  unfold updateDisplay, setTitle.
  keeps_auto;
    first [apply setImageIfChanged_sameRoster | apply prefetchNextAvatar_sameRoster].
Qed.

Lemma resolveAvatar_sameButNext s0 user : Keeps (sameButNext s0) (resolveAvatar NextSlot user).
Proof.
  unfold resolveAvatar, compositeAndCache, overlayCountOnImage, blobToDataUrl, log.
  keeps_auto.
Qed.

Lemma prefetchNextAvatar_sameButNext s0 : Keeps (sameButNext s0) prefetchNextAvatar.
Proof.
  unfold prefetchNextAvatar. keeps_auto; apply resolveAvatar_sameButNext.
Qed.

Lemma sameButNext_refl s : sameButNext s s.
Proof. unfold sameButNext. tauto. Qed.

Lemma sameRoster_refl s : sameRoster s s.
Proof. unfold sameRoster. tauto. Qed.

End RotatingFrames.

(** ** The state a call leaves *)

Section AfterFacts.
Import Async.
Context {St : Type}.

Lemma prefix_bindAct {A B : Type} (m : Act St A) (f : A -> Prog St B) (a : A) :
  outcome (prefix m) = Returned a ->
  final (prefix (bindAct m f)) = final (prefix (f a (final (prefix m))))
  /\ outcome (prefix (bindAct m f)) = outcome (prefix (f a (final (prefix m)))).
Proof.
  revert B f a.
  induction m as [A s a' | A s e | A s url k IH | A s k IH | A c _ k IH];
    intros B f a; simpl; try discriminate.
  - intros [= ->]. split; reflexivity.
  - intros Hk. apply IH, Hk.
Qed.

(** Sequencing after a call that returns without suspending. *)
Lemma after_bind {A B : Type} (m : Prog St A) (f : A -> Prog St B) s a :
  outcome (prefix (m s)) = Returned a ->
  after (bind m f) s = after (f a) (after m s).
Proof. intros Hm. unfold after, bind. now apply prefix_bindAct. Qed.

Lemma returns_bind {A B : Type} (m : Prog St A) (f : A -> Prog St B) s a :
  outcome (prefix (m s)) = Returned a ->
  outcome (prefix (bind m f s)) = outcome (prefix (f a (after m s))).
Proof. intros Hm. unfold after, bind. now apply prefix_bindAct. Qed.

Lemma after_get {A : Type} (f : St -> Prog St A) s : after (bind get f) s = after (f s) s.
Proof. reflexivity. Qed.

Lemma after_modify {A : Type} (g : St -> St) (k : Prog St A) s :
  after (bind (modify g) (fun _ => k)) s = after k (g s).
Proof. reflexivity. Qed.

(** A forked method always hands control back: the caller goes on from the
    state the forked method has reached at its first [await]. *)
Lemma after_spawn {A : Type} (m : Prog St unit) (k : Prog St A) s :
  after (bind (spawn m) (fun _ => k)) s = after k (after m s).
Proof. reflexivity. Qed.

Lemma after_spawn_last (m : Prog St unit) s : after (spawn m) s = after m s.
Proof. reflexivity. Qed.

Lemma returns_spawn (m : Prog St unit) s : outcome (prefix (spawn m s)) = Returned tt.
Proof. reflexivity. Qed.

Lemma after_ret {A : Type} (a : A) (s : St) : after (ret a) s = s.
Proof. reflexivity. Qed.

Lemma after_ret_bind {A B : Type} (a : A) (f : A -> Prog St B) s :
  after (bind (ret a) f) s = after (f a) s.
Proof. reflexivity. Qed.

Lemma after_modify_last (g : St -> St) s : after (modify g) s = g s.
Proof. reflexivity. Qed.

End AfterFacts.

(** ** Display updates of the carousel *)

Section RotatingDisplay.
Import Async Inv TeamsRotating Frame.
Context `{Js.Builtins}.

Lemma setImageIfChanged_after s image key :
  after (setImageIfChanged image key) s
  = if bool_decide (lastDisplayedState s = Some key) then s
    else emit (SetImage image) (set_lastDisplayedState (Some key) s).
Proof. unfold after, setImageIfChanged. cbn. case_bool_decide; reflexivity. Qed.

Lemma setImageIfChanged_returns s image key :
  outcome (prefix (setImageIfChanged image key s))
  = Returned (negb (bool_decide (lastDisplayedState s = Some key))).
Proof. unfold setImageIfChanged. cbn. case_bool_decide; reflexivity. Qed.

(** The second of two updates with one key writes nothing. *)
Lemma setImageIfChanged_twice s image1 image2 key :
  after (setImageIfChanged image2 key) (after (setImageIfChanged image1 key) s)
  = after (setImageIfChanged image1 key) s.
Proof.
  rewrite (setImageIfChanged_after s). case_bool_decide as Hk.
  - rewrite setImageIfChanged_after. now rewrite bool_decide_eq_true_2.
  - rewrite setImageIfChanged_after. cbn. now rewrite bool_decide_eq_true_2.
Qed.

Lemma transitionTick_frame s frame :
  nth_error (transitionFrames s) (currentFrameIndex s) = Some frame ->
  after transitionTick s
  = set_currentFrameIndex (S (currentFrameIndex s)) (emit (SetImage frame) s).
Proof. intros Hf. unfold after, transitionTick. cbn. rewrite Hf. reflexivity. Qed.

(** C9.  Two consecutive display updates that carry the same state key,
    the first of which changes the key on display, make exactly one image
    write: the first writes its image and the second is skipped.  During
    the playback of a transition a tick of the frame timer writes the frame
    it is at whatever key is on display. *)
Theorem display_dedup (s : State) (image1 image2 : DataUrl) (key : string) :
  lastDisplayedState s <> Some key ->
  let s1 := after (setImageIfChanged image1 key) s in
  let s2 := after (setImageIfChanged image2 key) s1 in
  imagesWritten (out s1) = imagesWritten (out s) ++ [image1]
  /\ imagesWritten (out s2) = imagesWritten (out s) ++ [image1]
  /\ s2 = s1
  /\ forall (t : State) (frame : DataUrl),
       nth_error (transitionFrames t) (currentFrameIndex t) = Some frame ->
       imagesWritten (out (after transitionTick t)) = imagesWritten (out t) ++ [frame].
Proof.
  intros Hne s1 s2. subst s1 s2. rewrite setImageIfChanged_twice.
  rewrite setImageIfChanged_after, (bool_decide_eq_false_2 _ Hne). cbn.
  repeat split; try apply imagesWritten_image.
  intros t frame Hf. rewrite (transitionTick_frame _ _ Hf). cbn.
  apply imagesWritten_image.
Qed.

End RotatingDisplay.

(** ** The instant switch *)

Section RotatingSwitch.
Import Async Inv TeamsRotating Frame Display.
Context `{Js.Builtins}.

Lemma length_users_pos s : users s <> [] -> (length (users s) =? 0)%nat = false.
Proof. destruct (users s); [congruence | reflexivity]. Qed.

Lemma updateDisplay_returns s : outcome (prefix (updateDisplay s)) = Returned tt.
Proof.
  unfold updateDisplay, setImageIfChanged, setImage, setTitle. cbn.
  destruct (length (users s) =? 0)%nat; cbn.
  - case_bool_decide; cbn; destruct (useDisplayNameAsTitle (settings s)); reflexivity.
  - destruct (currentAvatarImage s); cbn.
    + case_bool_decide; cbn; destruct (useDisplayNameAsTitle (settings s)); reflexivity.
    + destruct (nextAvatarImage s); cbn.
      * case_bool_decide; cbn; destruct (useDisplayNameAsTitle (settings s)); reflexivity.
      * destruct (useDisplayNameAsTitle (settings s)); reflexivity.
Qed.

(** With a current image: that image goes through the deduplication guard,
    then the title is set. *)
Lemma updateDisplay_current s image :
  users s <> [] -> currentAvatarImage s = Some image ->
  after updateDisplay s
  = emit (SetTitle (titleOf s)) (after (setImageIfChanged image (stateKey s)) s).
Proof.
  intros Hu Hc. rewrite setImageIfChanged_after.
  unfold after, updateDisplay, setImageIfChanged, setImage, setTitle, titleOf. cbn.
  rewrite (length_users_pos _ Hu), Hc. cbn.
  case_bool_decide; cbn; destruct (useDisplayNameAsTitle (settings s)); reflexivity.
Qed.

(** With neither image: only the title is set. *)
Lemma updateDisplay_no_image s :
  users s <> [] -> currentAvatarImage s = None -> nextAvatarImage s = None ->
  after updateDisplay s = emit (SetTitle (titleOf s)) s.
Proof.
  intros Hu Hc Hn.
  unfold after, updateDisplay, setTitle, titleOf. cbn.
  rewrite (length_users_pos _ Hu), Hc, Hn. cbn.
  destruct (useDisplayNameAsTitle (settings s)); reflexivity.
Qed.


(** [showNextUser] on a non-empty roster: the swap, the start of the
    pre-fetch, the display update. *)
Lemma showNextUser_after s :
  users s <> [] ->
  after showNextUser s = after updateDisplay (after prefetchNextAvatar (swapped s)).
Proof.
  intros Hu. unfold showNextUser. rewrite after_get, (length_users_pos _ Hu).
  rewrite !after_modify, after_spawn. reflexivity.
Qed.


End RotatingSwitch.

(** ** Completing a transition *)

Section RotatingTransition.
Import Async Inv TeamsRotating Frame Display.
Context `{Js.Builtins}.

Lemma stateKey_not_transitioning s : lastDisplayedState s = Some "transitioning" ->
  lastDisplayedState s <> Some (stateKey s).
Proof. intros ->. unfold stateKey. simpl. intros [= Habs]. Qed.

Lemma forceCompleteTransition_after s :
  after forceCompleteTransition s
  = let s2 := after updateDisplay
                (set_transitionFrames [] (set_isTransitioning false (set_transitionInterval false s))) in
    if (0 <? length (users s2))%nat then after prefetchNextAvatar s2 else s2.
Proof.
  unfold forceCompleteTransition. rewrite !after_modify.
  rewrite (after_bind updateDisplay _ _ tt (updateDisplay_returns _)), after_get.
  cbv zeta. destruct (0 <? length (users _))%nat.
  - apply after_spawn_last.
  - apply after_ret.
Qed.

Lemma completeTransition_after s :
  after completeTransition s
  = let s2 := after updateDisplay
                (swapped (set_isTransitioning false
                           (set_transitionInterval false (set_safetyTimeout false s)))) in
    set_transitionFrames []
      (if (0 <? length (users s2))%nat then after prefetchNextAvatar s2 else s2).
Proof.
  unfold completeTransition. rewrite !after_modify.
  rewrite (after_bind updateDisplay _ _ tt (updateDisplay_returns _)), after_get.
  cbv zeta. unfold swapped. destruct (0 <? length (users _))%nat.
  - rewrite after_spawn. apply after_modify_last.
  - rewrite after_ret_bind. apply after_modify_last.
Qed.

Lemma safetyTimeoutFires_after s :
  isTransitioning s = true ->
  after safetyTimeoutFires s
  = after forceCompleteTransition
      (emit (Log "Transition safety timeout triggered") (set_safetyTimeout false s)).
Proof.
  intros Ht. unfold safetyTimeoutFires, log. rewrite after_modify, after_get.
  cbn [isTransitioning set_safetyTimeout]. rewrite Ht. now rewrite after_modify.
Qed.

(** After the display update that ends a transition, the start of the
    pre-fetch leaves everything but the next slot as it is. *)
Lemma then_prefetch_next (s2 : State) :
  sameButNext s2 (if (0 <? length (users s2))%nat then after prefetchNextAvatar s2 else s2).
Proof.
  destruct (0 <? length (users s2))%nat; [| apply sameButNext_refl].
  apply Keeps_after; [apply prefetchNextAvatar_sameButNext | apply sameButNext_refl].
Qed.

(** C1, as the code has it.  When the safety timer fires during a
    transition, the transition is abandoned: [isTransitioning] becomes
    false, the frame timer is cleared and the frames are dropped, while the
    roster and the position stay.  With a current image and a non-empty
    roster that image stays the current one, and as playback had put the
    key "transitioning" on display the image is written again: the display
    shows the current user.  It is the normal completion, after the last
    frame, that advances the position by one modulo the length of the
    roster and makes the next image the current one, which the display then
    shows. *)
Theorem safety_timeout_forces_completion (s : State) :
  isTransitioning s = true ->
  let s' := after safetyTimeoutFires s in
  isTransitioning s' = false
  /\ transitionFrames s' = []
  /\ transitionInterval s' = false
  /\ users s' = users s
  /\ currentUserIndex s' = currentUserIndex s
  /\ (forall c, users s <> [] -> currentAvatarImage s = Some c ->
      currentAvatarImage s' = Some c
      /\ (lastDisplayedState s = Some "transitioning" ->
          imagesWritten (out s') = imagesWritten (out s) ++ [c]
          /\ lastDisplayedState s' = Some (stateKey s)))
  /\ (forall t n, users t <> [] -> nextAvatarImage t = Some n ->
      let t' := after completeTransition t in
      isTransitioning t' = false
      /\ transitionFrames t' = []
      /\ currentUserIndex t' = Js.succ_mod (currentUserIndex t) (length (users t))
      /\ currentAvatarImage t' = Some n
      /\ (lastDisplayedState t = Some "transitioning" ->
          imagesWritten (out t') = imagesWritten (out t) ++ [n])).
Proof.
  intros Ht s'. subst s'. rewrite (safetyTimeoutFires_after _ Ht), forceCompleteTransition_after.
  set (s0 := set_transitionFrames [] _). cbv zeta.
  pose proof (Keeps_after _ _ _ (updateDisplay_sameRoster s0) (sameRoster_refl s0)) as Hupd.
  pose proof (then_prefetch_next (after updateDisplay s0)) as Hpre.
  set (s2 := after updateDisplay s0) in *.
  set (s3 := if (0 <? length (users s2))%nat then after prefetchNextAvatar s2 else s2) in *.
  unfold sameRoster in Hupd. unfold sameButNext in Hpre.
  destruct Hupd as (Hu2 & Hi2 & Ht2 & Hf2 & _ & Hti2 & _).
  destruct Hpre as (_ & Hu3 & Hi3 & Hc3 & _ & Ht3 & Hf3 & _ & Hl3 & Hti3 & _ & Hw3).
  split; [now rewrite Ht3, Ht2 |]. split; [now rewrite Hf3, Hf2 |].
  split; [now rewrite Hti3, Hti2 |]. split; [now rewrite Hu3, Hu2 |].
  split; [now rewrite Hi3, Hi2 |]. split.
  - intros c Hu Hc. rewrite Hc3, Hw3, Hl3. subst s2.
    assert (Hu0 : users s0 <> []) by exact Hu.
    assert (Hc0 : currentAvatarImage s0 = Some c) by exact Hc.
    rewrite (updateDisplay_current s0 c Hu0 Hc0), setImageIfChanged_after.
    split; [case_bool_decide; exact Hc0 |].
    intros Hl. assert (Hl0 : lastDisplayedState s0 = Some "transitioning") by exact Hl.
    rewrite (bool_decide_eq_false_2 _ (stateKey_not_transitioning s0 Hl0)). cbn.
    rewrite imagesWritten_title, imagesWritten_image, imagesWritten_log. split; reflexivity.
  - clear. intros t n Hu Hn. rewrite completeTransition_after. cbv zeta.
    set (t0 := swapped _).
    pose proof (Keeps_after _ _ _ (updateDisplay_sameRoster t0) (sameRoster_refl t0)) as Hupd.
    pose proof (then_prefetch_next (after updateDisplay t0)) as Hpre.
    set (t2 := after updateDisplay t0) in *.
    set (t3 := if (0 <? length (users t2))%nat then after prefetchNextAvatar t2 else t2) in *.
    unfold sameRoster in Hupd. unfold sameButNext in Hpre.
    destruct Hupd as (Hu2 & Hi2 & Ht2 & _).
    destruct Hpre as (_ & Hu3 & Hi3 & Hc3 & _ & Ht3 & _ & _ & Hl3 & _ & _ & Hw3).
    cbn [isTransitioning transitionFrames currentUserIndex currentAvatarImage out
         set_transitionFrames].
    split; [now rewrite Ht3, Ht2 |]. split; [reflexivity |].
    split; [now rewrite Hi3, Hi2 |].
    rewrite Hc3, Hw3. subst t2.
    assert (Hu0 : users t0 <> []) by exact Hu.
    assert (Hc0 : currentAvatarImage t0 = Some n) by exact Hn.
    rewrite (updateDisplay_current t0 n Hu0 Hc0), setImageIfChanged_after.
    split; [case_bool_decide; exact Hc0 |].
    intros Hl. assert (Hl0 : lastDisplayedState t0 = Some "transitioning") by exact Hl.
    rewrite (bool_decide_eq_false_2 _ (stateKey_not_transitioning t0 Hl0)). cbn.
    now rewrite imagesWritten_title, imagesWritten_image.
Qed.

End RotatingTransition.

(** ** The count overlay *)

Section Overlay.
Import Async.

(** Without a positive count the canvas holds one command, the base image
    drawn over the whole button. *)
Lemma overlayCanvas_no_badge img count :
  count <= 0 -> Render.overlayCanvas img count = [DrawImage img 1 0 0 Render.size Render.size].
Proof.
  intros Hc. unfold Render.overlayCanvas.
  destruct (Z.ltb_spec 0 count); [lia | reflexivity].
Qed.

(** C3, as the code has it.  With a count of 0 [overlayCountOnImage] draws
    no badge, in both actions: when the base image loads, the promise
    resolves to the PNG encoding of a canvas on which only the base image
    has been drawn, over the whole 144x144 button; when it does not load,
    the promise rejects.  The result is a new encoding, not the input. *)
Theorem overlay_zero_redraws (imageDataUrl : DataUrl) :
  Render.overlayCountResult imageDataUrl 0
  = (if loads imageDataUrl
     then Some (DataUrlOfCanvas [DrawImage imageDataUrl 1 0 0 Render.size Render.size])
     else None)
  /\ (forall net s,
        let r := run net (TeamsRotating.overlayCountOnImage imageDataUrl 0 s) in
        final r = s
        /\ outcome r = match Render.overlayCountResult imageDataUrl 0 with
                       | Some image => Returned image
                       | None => Rejected "undefined"
                       end)
  /\ (forall net s,
        let r := run net (TeamsAvatar.overlayCountOnImage imageDataUrl 0 s) in
        final r = s
        /\ outcome r = match Render.overlayCountResult imageDataUrl 0 with
                       | Some image => Returned image
                       | None => Rejected "undefined"
                       end)
  /\ match Render.overlayCountResult imageDataUrl 0 with
     | Some image => mediaType image = "image/png"
     | None => True
     end.
Proof.
  split; [reflexivity |].
  split; [| split].
  - intros net s. unfold TeamsRotating.overlayCountOnImage, await. simpl.
    destruct (Render.overlayCountResult imageDataUrl 0); split; reflexivity.
  - intros net s. unfold TeamsAvatar.overlayCountOnImage, await. simpl.
    destruct (Render.overlayCountResult imageDataUrl 0); split; reflexivity.
  - unfold Render.overlayCountResult. destruct (loads imageDataUrl); [reflexivity | exact I].
Qed.

End Overlay.

(** ** The crossfade *)

Section Crossfade.
Import Async TeamsRotating.

Lemma framesFrom_length c n start left : length (Render.framesFrom c n start left) = left.
Proof.
  revert start. induction left as [| left IH]; intros start; simpl; [reflexivity |].
  now rewrite IH.
Qed.

Lemma framesFrom_nth c n start left i :
  (i < left)%nat ->
  nth_error (Render.framesFrom c n start left) i = Some (Render.transitionFrame c n (start + i)).
Proof.
  revert start i. induction left as [| left IH]; intros start i Hi; [lia |].
  destruct i as [| i]; simpl.
  - now rewrite Nat.add_0_r.
  - rewrite IH by lia. do 2 f_equal. lia.
Qed.

Lemma generateTransitionFrames_run net s currentImg nextImg :
  currentAvatarImage s = Some currentImg -> nextAvatarImage s = Some nextImg ->
  loads currentImg = true -> loads nextImg = true ->
  let r := run net (generateTransitionFrames s) in
  outcome r = Returned tt
  /\ final r = set_transitionFrames (Render.framesFrom currentImg nextImg 0 25) s.
Proof.
  intros Hc Hn Hlc Hln. unfold generateTransitionFrames, loadImage, await.
  destruct s. cbn in *. subst. rewrite Hlc. cbn. rewrite Hln. cbn.
  split; reflexivity.
Qed.

(** C4.  With a current and a next image that both load, frame generation
    returns with exactly 25 frames, of indices 0 to 24.  Frame [i] is a
    canvas filled with black on which the current image is drawn at opacity
    [1 - i / 24] and then the next image at opacity [i / 24]; the two
    opacities sum to 1, frame 0 has the current image at 1 and the next at
    0, frame 24 the current at 0 and the next at 1. *)
Theorem crossfade_frames (net : string -> FetchResult) (s : State) (currentImg nextImg : DataUrl) :
  currentAvatarImage s = Some currentImg -> nextAvatarImage s = Some nextImg ->
  loads currentImg = true -> loads nextImg = true ->
  let r := run net (generateTransitionFrames s) in
  let frames := transitionFrames (final r) in
  outcome r = Returned tt
  /\ length frames = 25%nat
  /\ (forall i, (i < 25)%nat ->
      exists currentAlpha nextAlpha,
        nth_error frames i
        = Some (DataUrlOfCanvas
                  [ FillRect "#000000" 0 0 Render.size Render.size;
                    DrawImage currentImg currentAlpha 0 0 Render.size Render.size;
                    DrawImage nextImg nextAlpha 0 0 Render.size Render.size ]%Q)
        /\ (currentAlpha == 1 - inject_Z (Z.of_nat i) / 24)%Q
        /\ (nextAlpha == inject_Z (Z.of_nat i) / 24)%Q
        /\ (currentAlpha + nextAlpha == 1)%Q
        /\ (i = 0%nat -> (currentAlpha == 1)%Q /\ (nextAlpha == 0)%Q)
        /\ (i = 24%nat -> (currentAlpha == 0)%Q /\ (nextAlpha == 1)%Q))
  /\ nth_error frames 25 = None.
Proof.
  intros Hc Hn Hlc Hln r frames.
  destruct (generateTransitionFrames_run net s currentImg nextImg Hc Hn Hlc Hln) as [Ho Hf].
  subst frames r. rewrite Hf. cbn [transitionFrames set_transitionFrames].
  split; [exact Ho |]. split; [apply framesFrom_length |]. split.
  - intros i Hi. rewrite framesFrom_nth by exact Hi. simpl.
    eexists _, _. split; [reflexivity |].
    split; [reflexivity |]. split; [reflexivity |]. split; [ring |].
    split; intros ->; split; reflexivity.
  - apply nth_error_None. rewrite framesFrom_length. lia.
Qed.

End Crossfade.

(** ** The poll of the roster *)

Section RotatingPoll.
Import Async Inv TeamsRotating Frame.
Context `{Js.Builtins}.

(** A poll that the rotating webhook answers with an array installs the
    sorted array as the roster and the re-anchored position; what follows
    in the handler (the pre-fetches, the display update, the error path)
    changes neither. *)
Lemma fetchUsersData_polls net s url resp items :
  rotatingWebhookUrl (settings s) = Some url -> url <> "" ->
  net url = Responded resp -> resp_ok resp = true -> resp_json resp = Some (JsonArray items) ->
  let r := run net (fetchUsersData s) in
  let sortedUsers := JsArray.sort compareCount items in
  users (final r) = sortedUsers
  /\ currentUserIndex (final r)
     = Js.Idx (newIndex (Js.at_index (users s) (currentUserIndex s)) sortedUsers).
Proof.
  intros Hurl Hne Hnet Hok Hjson r sortedUsers. subst r sortedUsers.
  unfold fetchUsersData, try_catch.
  cbn -[prefetchCurrentAvatar prefetchNextAvatar updateDisplay JsArray.sort newIndex setImageIfChanged].
  rewrite Hurl. cbn [Js.truthy negb]. destruct (String.eqb_spec url ""); [contradiction |].
  cbn -[prefetchCurrentAvatar prefetchNextAvatar updateDisplay JsArray.sort newIndex setImageIfChanged].
  rewrite Hnet.
  cbn -[prefetchCurrentAvatar prefetchNextAvatar updateDisplay JsArray.sort newIndex setImageIfChanged].
  rewrite Hok.
  cbn -[prefetchCurrentAvatar prefetchNextAvatar updateDisplay JsArray.sort newIndex setImageIfChanged].
  rewrite Hjson.
  cbn -[prefetchCurrentAvatar prefetchNextAvatar updateDisplay JsArray.sort newIndex setImageIfChanged].
  set (s1 := set_currentUserIndex _ _).
  match goal with
  | |- context [final (run net ?m)] =>
      assert (Hk : sameRoster s1 (final (run net m)))
  end.
  { apply keeps_run, keeps_catchAct.
    - match goal with
      | |- keeps ?R (?m s1) => cut (Keeps R m); [intros HK; apply HK, sameRoster_refl |]
      end.
      keeps_auto;
        first [ apply prefetchCurrentAvatar_sameRoster
              | apply prefetchNextAvatar_sameRoster
              | apply updateDisplay_sameRoster ].
    - intros e. unfold log. keeps_auto. apply setImageIfChanged_sameRoster. }
  destruct Hk as (Hu & Hi & _). split; [exact Hu | exact Hi].
Qed.

(** C5.  The poll handler sorts the array it received with the comparator
    [(b.count || 0) - (a.count || 0)].  The result holds the same entries,
    is non-increasing by count with a missing count read as 0, and keeps
    the entries of equal count in the order the webhook gave them; it is
    the roster of the session after the poll. *)
Theorem roster_sorted_by_count (net : string -> FetchResult) (s : State)
    (url : string) (resp : Response) (items : list UserEntry) :
  rotatingWebhookUrl (settings s) = Some url -> url <> "" ->
  net url = Responded resp -> resp_ok resp = true -> resp_json resp = Some (JsonArray items) ->
  let sortedUsers := users (final (run net (fetchUsersData s))) in
  sortedUsers = JsArray.sort compareCount items
  /\ Permutation items sortedUsers
  /\ StronglySorted (fun a b => Js.num_or_0 (count b) <= Js.num_or_0 (count a)) sortedUsers
  /\ forall c, filter (fun u => Js.num_or_0 (count u) = c) sortedUsers
               = filter (fun u => Js.num_or_0 (count u) = c) items.
Proof.
  intros Hurl Hne Hnet Hok Hjson sortedUsers. subst sortedUsers.
  destruct (fetchUsersData_polls net s url resp items Hurl Hne Hnet Hok Hjson) as [-> _].
  split; [reflexivity |]. split; [| split].
  - apply (sort_perm (fun u => Js.num_or_0 (count u))).
  - apply (sort_sorted (fun u => Js.num_or_0 (count u))).
  - intros c. apply (sort_stable (fun u => Js.num_or_0 (count u))).
Qed.

(** C6.  After a poll that the rotating webhook answers with an array, the
    position is that of the previously current user in the new, sorted
    roster: if an entry of the new roster has the [userId] of the
    previously current user, the position is the index of the first such
    entry; if none has, or if there was no current user, the position
    is 0. *)
Theorem carousel_reanchored (net : string -> FetchResult) (s : State)
    (url : string) (resp : Response) (items : list UserEntry) :
  rotatingWebhookUrl (settings s) = Some url -> url <> "" ->
  net url = Responded resp -> resp_ok resp = true -> resp_json resp = Some (JsonArray items) ->
  let s' := final (run net (fetchUsersData s)) in
  users s' = JsArray.sort compareCount items
  /\ match Js.at_index (users s) (currentUserIndex s) with
     | Some currentUser =>
         ((exists u, In u (users s') /\ userId u = userId currentUser) ->
          exists i u, currentUserIndex s' = Js.Idx i
                      /\ nth_error (users s') i = Some u
                      /\ userId u = userId currentUser
                      /\ forall j v, (j < i)%nat -> nth_error (users s') j = Some v ->
                                     userId v <> userId currentUser)
         /\ ((forall u, In u (users s') -> userId u <> userId currentUser) ->
             currentUserIndex s' = Js.Idx 0)
     | None => currentUserIndex s' = Js.Idx 0
     end.
Proof.
  intros Hurl Hne Hnet Hok Hjson s'. subst s'.
  destruct (fetchUsersData_polls net s url resp items Hurl Hne Hnet Hok Hjson) as [Hu Hi].
  rewrite Hu, Hi. split; [reflexivity |].
  destruct (Js.at_index (users s) (currentUserIndex s)) as [currentUser |]; [| reflexivity].
  unfold newIndex.
  destruct (JsArray.findIndex _ _) as [i |] eqn:Hfind.
  - apply findIndex_Some in Hfind. destruct Hfind as (u & Hnth & Hp & Hfirst).
    apply bool_decide_eq_true_1 in Hp. split.
    + intros _. exists i, u. repeat split; try assumption.
      intros j v Hj Hv. specialize (Hfirst j v Hj Hv).
      now apply bool_decide_eq_false_1 in Hfirst.
    + intros Hnone. exfalso. apply (Hnone u); [| exact Hp].
      eapply nth_error_In; eassumption.
  - pose proof (proj1 (findIndex_None _ _) Hfind) as Hall. split; [| reflexivity].
    intros (u & Hin & Heq). specialize (Hall u Hin).
    apply bool_decide_eq_false_1 in Hall. contradiction.
Qed.

End RotatingPoll.

(** ** Resolving an avatar *)

Section RotatingResolve.
Import Async Inv TeamsRotating Frame Resolve.
Context `{Js.Builtins}.

(** Closes a branch of a resolution that has stored an image. *)
Ltac stored :=
  simpl;
  split; [reflexivity |]; split; [reflexivity |]; split;
  [ eexists; split; [apply lookup_insert_eq | reflexivity]
  | intros k image Hk; rewrite lookup_insert_ne; [exact Hk | intros <-; congruence] ].

(** Whatever the cache holds and the network answers, a resolution returns
    without an error, with the in-flight flag down, the image of its key in
    the cache and in its slot, and every earlier cache entry kept. *)
Lemma resolveAvatar_run net slot user s :
  let r := run net (resolveAvatar slot user s) in
  outcome r = Returned tt
  /\ fetchingOf slot (final r) = false
  /\ (exists image, avatarCache (final r) !! cacheKey user = Some image
                    /\ imageOf slot (final r) = Some image)
  /\ (forall k image, avatarCache s !! k = Some image -> avatarCache (final r) !! k = Some image).
Proof.
  intros r. subst r.
  unfold resolveAvatar, compositeAndCache, overlayCountOnImage, blobToDataUrl, log.
  destruct s as [cfg us idx cur nxt fn fc tr cache frames fi last ti st o].
  unfold bind, try_catch, try_finally, get, modify, ret, throw, fetch, await, spawn.
  destruct slot; simpl.
  all: destruct (cache !! cacheKey user) as [hit |] eqn:Hc; simpl;
    [ split; [reflexivity |]; split; [reflexivity |]; split;
      [eexists; split; [exact Hc | reflexivity] | auto] |].
  all: destruct (bool_decide (fromType user = Some "bot")) eqn:Hbot; simpl; [stored |].
  all: destruct (Js.truthy (avatarWebhookUrl cfg)); simpl; [| stored].
  all: match goal with
       | |- context [match ?x with Responded _ => _ | NetworkError _ => _ end] =>
           destruct x as [[ok blob json] | e]
       end;
    simpl; [| stored].
  all: destruct ok; simpl; [| stored].
  all: destruct blob as [b |]; simpl; [| stored].
  all: unfold Render.overlayCountResult; simpl; destruct (blob_isImage b); stored.
Qed.

(** On a hit the resolution is over before any [await]: nothing is
    requested, nothing is rendered, the cache is as it was and the slot
    holds the cached image. *)
Lemma resolveAvatar_hit net slot user s image :
  avatarCache s !! cacheKey user = Some image ->
  let r := run net (resolveAvatar slot user s) in
  fetched r = [] /\ awaited r = 0%nat
  /\ imageOf slot (final r) = Some image
  /\ avatarCache (final r) = avatarCache s.
Proof.
  intros Hc r. subst r. unfold resolveAvatar, log.
  destruct s as [cfg us idx cur nxt fn fc tr cache frames fi last ti st o].
  unfold bind, get, modify.
  simpl in Hc. destruct slot; simpl; rewrite Hc; simpl; repeat split.
Qed.

(** Whichever branch a resolution takes, what it stores under the key of
    the user and leaves in its slot is [resolution]: the cached entry on a
    hit, the composite of the fetched or synthesised avatar with the count
    on a miss. *)
Lemma resolveAvatar_stores net slot user s :
  let r := run net (resolveAvatar slot user s) in
  let image := resolution net user s in
  avatarCache (final r) = <[cacheKey user := image]> (avatarCache s)
  /\ imageOf slot (final r) = Some image.
Proof.
  intros r image. subst r image.
  unfold resolution, baseAvatar, resolveAvatar, compositeAndCache, overlayCountOnImage,
    blobToDataUrl, log.
  destruct s as [cfg us idx cur nxt fn fc tr cache frames fi last ti st o].
  unfold bind, try_catch, try_finally, get, modify, ret, throw, fetch, await, spawn.
  destruct slot; simpl.
  all: destruct (cache !! cacheKey user) as [hit |] eqn:Hc; simpl;
    [ split; [now rewrite insert_id | reflexivity] |].
  all: destruct (bool_decide (fromType user = Some "bot")) eqn:Hbot; simpl;
    [split; reflexivity |].
  all: destruct (Js.truthy (avatarWebhookUrl cfg)); simpl; [| split; reflexivity].
  all: match goal with
       | |- context [match ?x with Responded _ => _ | NetworkError _ => _ end] =>
           destruct x as [[ok blob json] | e]
       end;
    simpl; [| split; reflexivity].
  all: destruct ok; simpl; [| split; reflexivity].
  all: destruct blob as [b |]; simpl; [| split; reflexivity].
  all: unfold Render.overlayCountResult; simpl; destruct (blob_isImage b); split; reflexivity.
Qed.

(** The two methods are resolutions once their guards are passed. *)
Lemma prefetchCurrentAvatar_resolves s currentUser :
  isFetchingCurrent s = false ->
  Js.at_index (users s) (currentUserIndex s) = Some currentUser ->
  Js.truthy (userId currentUser) = true ->
  prefetchCurrentAvatar s = resolveAvatar CurrentSlot currentUser s.
Proof.
  intros Hf Hu Hid. unfold prefetchCurrentAvatar. cbn. rewrite Hf.
  destruct (users s) as [| u us] eqn:Hus.
  - destruct (currentUserIndex s) as [[| i] |]; discriminate.
  - cbn [length Nat.eqb]. rewrite Hu, Hid. reflexivity.
Qed.

Lemma prefetchNextAvatar_resolves s nextUser :
  isFetchingNext s = false ->
  Js.at_index (users s) (Js.succ_mod (currentUserIndex s) (length (users s))) = Some nextUser ->
  Js.truthy (userId nextUser) = true ->
  prefetchNextAvatar s = resolveAvatar NextSlot nextUser s.
Proof.
  intros Hf Hu Hid. unfold prefetchNextAvatar. cbn. rewrite Hf.
  destruct (users s) as [| u us] eqn:Hus.
  - destruct (currentUserIndex s); discriminate.
  - cbn [length Nat.eqb]. cbn [length] in Hu. rewrite Hu, Hid. reflexivity.
Qed.

Lemma resolveAll_hits image key reqs : forall s,
  avatarCache s !! key = Some image ->
  Forall (fun qr : Request * Run State unit =>
            cacheKey (req_user qr.1) = key ->
            fetched qr.2 = [] /\ awaited qr.2 = 0%nat
            /\ imageOf (req_slot qr.1) (final qr.2) = Some image
            /\ avatarCache (final qr.2) !! key = Some image)
         (resolveAll reqs s).
Proof.
  induction reqs as [| q rest IH]; intros s Hc; simpl; constructor.
  - simpl. intros Hkey. pose proof Hc as Hc'. rewrite <- Hkey in Hc.
    destruct (resolveAvatar_hit (req_net q) (req_slot q) (req_user q) s image Hc)
      as (Hf & Ha & Hi & Hsame).
    rewrite Hsame. auto.
  - apply IH.
    destruct (resolveAvatar_run (req_net q) (req_slot q) (req_user q) s) as (_ & _ & _ & Hkeep).
    now apply Hkeep.
Qed.

Lemma resolveAll_returns reqs : forall s,
  Forall (fun qr : Request * Run State unit => outcome qr.2 = Returned tt) (resolveAll reqs s).
Proof.
  induction reqs as [| q rest IH]; intros s; simpl; constructor.
  - exact (proj1 (resolveAvatar_run (req_net q) (req_slot q) (req_user q) s)).
  - apply IH.
Qed.

(** Two calls of [prefetchCurrentAvatar] in a row, for a current user with
    a [userId]: the second finds what the first has stored. *)
Lemma prefetchCurrentAvatar_twice net1 net2 s currentUser :
  isFetchingCurrent s = false ->
  Js.at_index (users s) (currentUserIndex s) = Some currentUser ->
  Js.truthy (userId currentUser) = true ->
  let r1 := run net1 (prefetchCurrentAvatar s) in
  let r2 := run net2 (prefetchCurrentAvatar (final r1)) in
  let image := resolution net1 currentUser s in
  fetched r2 = [] /\ awaited r2 = 0%nat
  /\ avatarCache (final r1) !! cacheKey currentUser = Some image
  /\ currentAvatarImage (final r1) = Some image
  /\ currentAvatarImage (final r2) = Some image.
Proof.
  intros Hf Hu Hid r1 r2 image. subst r1 r2 image.
  rewrite (prefetchCurrentAvatar_resolves s currentUser Hf Hu Hid).
  destruct (resolveAvatar_run net1 CurrentSlot currentUser s) as (_ & Hf1 & _ & _).
  destruct (resolveAvatar_stores net1 CurrentSlot currentUser s) as (Hca & Hi).
  set (image := resolution net1 currentUser s) in *.
  assert (Hc : avatarCache (final (run net1 (resolveAvatar CurrentSlot currentUser s)))
               !! cacheKey currentUser = Some image)
    by (rewrite Hca; apply lookup_insert_eq).
  clear Hca.
  pose proof (keeps_run _ net1 _
                (resolveAvatar_sameRoster s CurrentSlot currentUser s (sameRoster_refl s)))
    as (Hu1 & Hi1 & _).
  set (s1 := final (run net1 (resolveAvatar CurrentSlot currentUser s))) in *.
  assert (Hu' : Js.at_index (users s1) (currentUserIndex s1) = Some currentUser)
    by now rewrite Hu1, Hi1.
  rewrite (prefetchCurrentAvatar_resolves s1 currentUser Hf1 Hu' Hid).
  destruct (resolveAvatar_hit net2 CurrentSlot currentUser s1 image Hc) as (Hfe & Ha & Hi2 & _).
  split; [exact Hfe |]. split; [exact Ha |]. auto.
Qed.

(** The same for [prefetchNextAvatar] and the user after the current one. *)
Lemma prefetchNextAvatar_twice net1 net2 s nextUser :
  isFetchingNext s = false ->
  Js.at_index (users s) (Js.succ_mod (currentUserIndex s) (length (users s))) = Some nextUser ->
  Js.truthy (userId nextUser) = true ->
  let r1 := run net1 (prefetchNextAvatar s) in
  let r2 := run net2 (prefetchNextAvatar (final r1)) in
  let image := resolution net1 nextUser s in
  fetched r2 = [] /\ awaited r2 = 0%nat
  /\ avatarCache (final r1) !! cacheKey nextUser = Some image
  /\ nextAvatarImage (final r1) = Some image
  /\ nextAvatarImage (final r2) = Some image.
Proof.
  intros Hf Hu Hid r1 r2 image. subst r1 r2 image.
  rewrite (prefetchNextAvatar_resolves s nextUser Hf Hu Hid).
  destruct (resolveAvatar_run net1 NextSlot nextUser s) as (_ & Hf1 & _ & _).
  destruct (resolveAvatar_stores net1 NextSlot nextUser s) as (Hca & Hi).
  set (image := resolution net1 nextUser s) in *.
  assert (Hc : avatarCache (final (run net1 (resolveAvatar NextSlot nextUser s)))
               !! cacheKey nextUser = Some image)
    by (rewrite Hca; apply lookup_insert_eq).
  clear Hca.
  pose proof (keeps_run _ net1 _
                (resolveAvatar_sameRoster s NextSlot nextUser s (sameRoster_refl s)))
    as (Hu1 & Hi1 & _).
  set (s1 := final (run net1 (resolveAvatar NextSlot nextUser s))) in *.
  assert (Hu' : Js.at_index (users s1) (Js.succ_mod (currentUserIndex s1) (length (users s1)))
                = Some nextUser)
    by now rewrite Hu1, Hi1.
  rewrite (prefetchNextAvatar_resolves s1 nextUser Hf1 Hu' Hid).
  destruct (resolveAvatar_hit net2 NextSlot nextUser s1 image Hc) as (Hfe & Ha & Hi2 & _).
  split; [exact Hfe |]. split; [exact Ha |]. auto.
Qed.

(** C8.  Take any sequence of resolutions, for any slots and roster
    entries and under any answers of the network, each run to its end
    before the next starts.  The first one returns, whichever branch it
    took, with one image stored in the cache under its key
    ([userId_count]) and in its slot, the rest of the cache as it was.
    That image is the entry already cached when the cache had one for the
    key, and then nothing is requested and no [await] is gone through;
    otherwise it is the composite of the count with the avatar the webhook
    answered with, or with the initials image synthesised in its place.
    Every later resolution with the same key requests nothing from the
    network, goes through no [await] (so synthesises and composites
    nothing), leaves that same image in its slot and the entry of the
    cache as it is.  In particular the second of two calls of
    [prefetchCurrentAvatar], or of [prefetchNextAvatar], is served from the
    cache with the image the first has stored. *)
Theorem avatar_cache_invariant (first : Request) (rest : list Request) (s : State) :
  let r0 := run (req_net first) (resolveAvatar (req_slot first) (req_user first) s) in
  let key := cacheKey (req_user first) in
  let image := resolution (req_net first) (req_user first) s in
  outcome r0 = Returned tt
  /\ (avatarCache (final r0) = <[key := image]> (avatarCache s)
      /\ avatarCache (final r0) !! key = Some image
      /\ imageOf (req_slot first) (final r0) = Some image
      /\ (forall cached, avatarCache s !! key = Some cached ->
            image = cached /\ fetched r0 = [] /\ awaited r0 = 0%nat
            /\ avatarCache (final r0) = avatarCache s)
      /\ (avatarCache s !! key = None ->
            image = DataUrlOfCanvas
                      (Render.overlayCanvas (baseAvatar (req_net first) (req_user first) s)
                         (Js.num_or_0 (count (req_user first)))))
      /\ Forall (fun qr : Request * Run State unit =>
                    cacheKey (req_user qr.1) = key ->
                    outcome qr.2 = Returned tt
                    /\ fetched qr.2 = [] /\ awaited qr.2 = 0%nat
                    /\ imageOf (req_slot qr.1) (final qr.2) = Some image
                    /\ avatarCache (final qr.2) !! key = Some image)
                 (resolveAll rest (final r0)))
  /\ (forall net1 net2 t currentUser,
        isFetchingCurrent t = false ->
        Js.at_index (users t) (currentUserIndex t) = Some currentUser ->
        Js.truthy (userId currentUser) = true ->
        let r1 := run net1 (prefetchCurrentAvatar t) in
        let r2 := run net2 (prefetchCurrentAvatar (final r1)) in
        let image := resolution net1 currentUser t in
        fetched r2 = [] /\ awaited r2 = 0%nat
        /\ avatarCache (final r1) !! cacheKey currentUser = Some image
        /\ currentAvatarImage (final r1) = Some image
        /\ currentAvatarImage (final r2) = Some image)
  /\ (forall net1 net2 t nextUser,
        isFetchingNext t = false ->
        Js.at_index (users t) (Js.succ_mod (currentUserIndex t) (length (users t))) = Some nextUser ->
        Js.truthy (userId nextUser) = true ->
        let r1 := run net1 (prefetchNextAvatar t) in
        let r2 := run net2 (prefetchNextAvatar (final r1)) in
        let image := resolution net1 nextUser t in
        fetched r2 = [] /\ awaited r2 = 0%nat
        /\ avatarCache (final r1) !! cacheKey nextUser = Some image
        /\ nextAvatarImage (final r1) = Some image
        /\ nextAvatarImage (final r2) = Some image).
Proof.
  intros r0 key image. subst r0.
  destruct (resolveAvatar_run (req_net first) (req_slot first) (req_user first) s)
    as (Ho & _ & _ & _).
  destruct (resolveAvatar_stores (req_net first) (req_slot first) (req_user first) s)
    as (Hca & Hi).
  fold key image in Hca, Hi.
  assert (Hc : avatarCache (final (run (req_net first)
                                     (resolveAvatar (req_slot first) (req_user first) s)))
               !! key = Some image)
    by (rewrite Hca; apply lookup_insert_eq).
  split; [exact Ho |]. split; [| split].
  - split; [exact Hca |]. split; [exact Hc |]. split; [exact Hi |]. split; [| split].
    + intros cached Hhit.
      destruct (resolveAvatar_hit (req_net first) (req_slot first) (req_user first) s cached Hhit)
        as (Hf & Ha & _ & Hsame).
      split; [| auto]. subst image. unfold resolution. fold key. now rewrite Hhit.
    + intros Hmiss. subst image. unfold resolution. fold key. now rewrite Hmiss.
    + pose proof (resolveAll_hits image key rest _ Hc) as Hall.
      pose proof (resolveAll_returns rest
        (final (run (req_net first) (resolveAvatar (req_slot first) (req_user first) s)))) as Hret.
      rewrite List.Forall_forall in *. intros qr Hin Hkey.
      split; [now apply Hret |]. now apply Hall.
  - intros net1 net2 t currentUser. apply prefetchCurrentAvatar_twice.
  - intros net1 net2 t nextUser. apply prefetchNextAvatar_twice.
Qed.

End RotatingResolve.

(** ** When the avatar webhook fails *)

Section FetchFailure.
Import Async.
Context `{Js.Builtins}.

(** Carousel: a resolution whose request to the avatar webhook fails ends
    on the initials image. *)
Lemma resolveAvatar_fallback net slot user (s : TeamsRotating.State) :
  TeamsRotating.avatarCache s !! TeamsRotating.cacheKey user = None ->
  fromType user <> Some "bot" ->
  Js.truthy (avatarWebhookUrl (TeamsRotating.settings s)) = true ->
  let url := Js.show (avatarWebhookUrl (TeamsRotating.settings s)) +:+ "?userId="
             +:+ Js.encodeURIComponent (Js.show (userId user)) in
  match net url with
  | Responded response => resp_ok response = false
  | NetworkError _ => True
  end ->
  let r := run net (TeamsRotating.resolveAvatar slot user s) in
  outcome r = Returned tt
  /\ fetched r = [url]
  /\ Resolve.imageOf slot (final r) = Some (Resolve.fallbackImage user)
  /\ TeamsRotating.avatarCache (final r)
     = <[TeamsRotating.cacheKey user := Resolve.fallbackImage user]> (TeamsRotating.avatarCache s)
  /\ Resolve.fetchingOf slot (final r) = false
  /\ TeamsRotating.out (final r)
     = TeamsRotating.out s
       ++ match net url with
          | Responded _ => []
          | NetworkError message => [Log (TeamsRotating.errorLabel slot +:+ message)]
          end
       ++ [Log ("Cached new avatar for user " +:+ Js.show (userId user))].
Proof.
  intros Hc Hbot Hurl url Hnet r. subst r url.
  unfold TeamsRotating.resolveAvatar, TeamsRotating.compositeAndCache,
    TeamsRotating.overlayCountOnImage, TeamsRotating.blobToDataUrl, TeamsRotating.log,
    Resolve.fallbackImage.
  destruct s as [cfg us idx cur nxt fn fc tr cache frames fi last ti st o].
  unfold bind, try_catch, try_finally, get, modify, ret, throw, fetch, await, spawn.
  simpl in Hc, Hurl, Hnet.
  destruct slot; simpl; rewrite Hc; simpl;
    rewrite (bool_decide_eq_false_2 _ Hbot); simpl; rewrite Hurl; simpl;
    match goal with
    | |- context [match ?x with Responded _ => _ | NetworkError _ => _ end] =>
        destruct x as [[ok blob json] | e]
    end; simpl in *; subst; simpl; rewrite <- ?app_assoc; repeat split.
Qed.

(** Single avatar: a poll whose request to the avatar webhook fails returns
    without an error and leaves the avatar and its cache as they were; when
    the request threw, what it displays is the error image. *)
Lemma fetchData_avatar_failure net (s : TeamsAvatar.State) email avatarUrl messagesUrl :
  userEmail (TeamsAvatar.settings s) = Some email -> email <> "" ->
  avatarWebhookUrl (TeamsAvatar.settings s) = Some avatarUrl -> avatarUrl <> "" ->
  messagesWebhookUrl (TeamsAvatar.settings s) = Some messagesUrl -> messagesUrl <> "" ->
  TeamsAvatar.avatarCache s !! email = None ->
  let url := avatarUrl +:+ "?user=" +:+ Js.encodeURIComponent email in
  match net url with
  | Responded response => resp_ok response = false
  | NetworkError _ => True
  end ->
  let r := run net (TeamsAvatar.fetchData s) in
  outcome r = Returned tt
  /\ TeamsAvatar.avatarCache (final r) = TeamsAvatar.avatarCache s
  /\ TeamsAvatar.avatarImage (final r) = TeamsAvatar.avatarImage s
  /\ match net url with
     | Responded _ => True
     | NetworkError message =>
         fetched r = [url]
         /\ imagesWritten (TeamsAvatar.out (final r))
            = imagesWritten (TeamsAvatar.out s)
              ++ (if bool_decide (TeamsAvatar.lastDisplayedImageState s = Some "error")
                  then [] else [Render.generateErrorImage])
         /\ TeamsAvatar.out (final r)
            = TeamsAvatar.out s
              ++ Log ("Error fetching data: " +:+ message)
                 :: (if bool_decide (TeamsAvatar.lastDisplayedImageState s = Some "error")
                     then [] else [SetImage Render.generateErrorImage])
         /\ TeamsAvatar.lastDisplayedImageState (final r) = Some "error"
     end.
Proof.
  intros He Hne Ha Hna Hm Hnm Hc url Hnet r. subst r url.
  unfold TeamsAvatar.fetchData, TeamsAvatar.updateDisplay, TeamsAvatar.setImageIfChanged,
    TeamsAvatar.setImage, TeamsAvatar.overlayCountOnImage, TeamsAvatar.blobToDataUrl,
    TeamsAvatar.log.
  destruct s as [cfg img msgs n cache last o].
  unfold bind, try_catch, try_finally, get, modify, ret, throw, fetch, await, spawn.
  simpl in *. rewrite He, Ha, Hm. simpl.
  destruct (String.eqb_spec email ""); [contradiction |].
  destruct (String.eqb_spec avatarUrl ""); [contradiction |].
  destruct (String.eqb_spec messagesUrl ""); [contradiction |].
  simpl. rewrite Hc. simpl.
  destruct (net (avatarUrl +:+ _)) as [[ok blob json] | e]; simpl in *.
  - subst ok. simpl.
    destruct (net (messagesUrl +:+ _)) as [[ok' blob' json'] | e']; simpl.
    + destruct ok'; simpl.
      * destruct json' as [[items |] |]; simpl.
        all: try (case_bool_decide; repeat split; fail).
        all: destruct img as [image |]; simpl; try (repeat split; fail).
        all: unfold Render.overlayCountResult; destruct (loads image); simpl.
        all: try (case_bool_decide; repeat split; fail).
      * destruct img as [image |]; simpl; try (repeat split; fail).
        unfold Render.overlayCountResult; destruct (loads image); simpl.
        all: try (case_bool_decide; repeat split; fail).
    + case_bool_decide; repeat split.
  - unfold TeamsAvatar.emit. simpl.
    case_bool_decide; simpl; repeat split;
      rewrite ?imagesWritten_image, ?imagesWritten_log, ?app_nil_r, <- ?app_assoc;
      first [reflexivity | assumption].
Qed.

(** C2, as the code has it.  When the request to the avatar webhook is
    answered with a non-OK status or throws, no error leaves the handler, in
    either action.  In the carousel (query by [userId]) the resolution falls
    back to the initials image, composites the count, stores the result in
    the cache under [userId_count] and in its slot; what it adds to the log
    is the message of the error, when the request threw, and the line that
    tells the avatar is cached, and it calls the display not at all.  In the
    single-avatar action (query by [user], the email) there is no initials
    image: the avatar and the cache are left as they were, and after a
    request that threw the message of the error is logged and the error
    image is on display, written unless it was on display already. *)
Theorem avatar_fetch_failure :
  (forall net slot user (s : TeamsRotating.State),
     TeamsRotating.avatarCache s !! TeamsRotating.cacheKey user = None ->
     fromType user <> Some "bot" ->
     Js.truthy (avatarWebhookUrl (TeamsRotating.settings s)) = true ->
     let url := Js.show (avatarWebhookUrl (TeamsRotating.settings s)) +:+ "?userId="
                +:+ Js.encodeURIComponent (Js.show (userId user)) in
     match net url with
     | Responded response => resp_ok response = false
     | NetworkError _ => True
     end ->
     let r := run net (TeamsRotating.resolveAvatar slot user s) in
     outcome r = Returned tt
     /\ fetched r = [url]
     /\ Resolve.imageOf slot (final r) = Some (Resolve.fallbackImage user)
     /\ TeamsRotating.avatarCache (final r)
        = <[TeamsRotating.cacheKey user := Resolve.fallbackImage user]>
            (TeamsRotating.avatarCache s)
     /\ TeamsRotating.out (final r)
        = TeamsRotating.out s
          ++ match net url with
             | Responded _ => []
             | NetworkError message => [Log (TeamsRotating.errorLabel slot +:+ message)]
             end
          ++ [Log ("Cached new avatar for user " +:+ Js.show (userId user))])
  /\ (forall net (s : TeamsAvatar.State) email avatarUrl messagesUrl,
        userEmail (TeamsAvatar.settings s) = Some email -> email <> "" ->
        avatarWebhookUrl (TeamsAvatar.settings s) = Some avatarUrl -> avatarUrl <> "" ->
        messagesWebhookUrl (TeamsAvatar.settings s) = Some messagesUrl -> messagesUrl <> "" ->
        TeamsAvatar.avatarCache s !! email = None ->
        let url := avatarUrl +:+ "?user=" +:+ Js.encodeURIComponent email in
        match net url with
        | Responded response => resp_ok response = false
        | NetworkError _ => True
        end ->
        let r := run net (TeamsAvatar.fetchData s) in
        outcome r = Returned tt
        /\ TeamsAvatar.avatarCache (final r) = TeamsAvatar.avatarCache s
        /\ TeamsAvatar.avatarImage (final r) = TeamsAvatar.avatarImage s
        /\ match net url with
           | Responded _ => True
           | NetworkError message =>
               fetched r = [url]
               /\ imagesWritten (TeamsAvatar.out (final r))
                  = imagesWritten (TeamsAvatar.out s)
                    ++ (if bool_decide (TeamsAvatar.lastDisplayedImageState s = Some "error")
                        then [] else [Render.generateErrorImage])
               /\ TeamsAvatar.out (final r)
                  = TeamsAvatar.out s
                    ++ Log ("Error fetching data: " +:+ message)
                       :: (if bool_decide (TeamsAvatar.lastDisplayedImageState s = Some "error")
                           then [] else [SetImage Render.generateErrorImage])
               /\ TeamsAvatar.lastDisplayedImageState (final r) = Some "error"
           end).
Proof.
  split.
  - intros net slot user s Hc Hbot Hurl url Hnet r.
    destruct (resolveAvatar_fallback net slot user s Hc Hbot Hurl Hnet)
      as (Ho & Hf & Hi & Hca & _ & Hout).
    repeat split; assumption.
  - intros net s email avatarUrl messagesUrl He Hne Ha Hna Hm Hnm Hc url Hnet r.
    destruct (fetchData_avatar_failure net s email avatarUrl messagesUrl
                He Hne Ha Hna Hm Hnm Hc Hnet) as (Ho & Hca & Hi & Hd).
    split; [exact Ho |]. split; [exact Hca |]. split; [exact Hi |].
    subst url. destruct (net _); [exact I | apply Hd].
Qed.

End FetchFailure.

(** ** The example session *)

Section Session.
Import Async TeamsRotating Example.

Example roster_sort_example :
  map userId (JsArray.sort compareCount fourEntries) = [Some "b"; Some "d"; Some "a"; Some "c"].
Proof. reflexivity. Qed.

Example first_poll :
  map userId (users ready) = [Some "u1"; Some "b1"]
  /\ currentUserIndex ready = Js.Idx 0
  /\ fetched firstPoll
     = ["https://hooks.example/roster"; "https://hooks.example/avatar?userId=u1"]
  /\ map fst (map_to_list (avatarCache ready)) = ["u1_5"; "b1_3"]
  /\ currentAvatarImage ready
     = Some (@Resolve.fallbackImage asciiBuiltins (mkUser (Some "u1") (Some "Ann Lee") (Some 5) None))
  /\ nextAvatarImage ready
     = Some (DataUrlOfCanvas
               (Render.overlayCanvas
                  (@Render.generateInitialsImage asciiBuiltins "Workflows" (Some "WF")) 3)).
Proof. vm_compute. repeat split. Qed.

(** The transition stalls: no frame is played, the safety timer fires.  The
    position is not advanced, the current image is not replaced by the next
    one, and the image written to the display is the one of the current
    user. *)
Lemma safety_timeout_counterexample :
  let s := playing in
  let s' := after (@safetyTimeoutFires asciiBuiltins) s in
  isTransitioning s = true
  /\ length (transitionFrames s) = 25%nat
  /\ isTransitioning s' = false
  /\ currentUserIndex s = Js.Idx 0
  /\ Js.succ_mod (currentUserIndex s) (length (users s)) = Js.Idx 1
  /\ currentUserIndex s' <> Js.succ_mod (currentUserIndex s) (length (users s))
  /\ currentAvatarImage s' <> nextAvatarImage s
  /\ nextAvatarImage s' <> None
  /\ last (imagesWritten (out s')) = currentAvatarImage s
  /\ last (imagesWritten (out s')) <> nextAvatarImage s.
Proof. vm_compute. repeat split; discriminate. Qed.

Lemma safety_timeout_witness :
  isTransitioning playing = true
  /\ isTransitioning (after (@safetyTimeoutFires asciiBuiltins) playing) = false
  /\ currentUserIndex (after (@safetyTimeoutFires asciiBuiltins) playing) = currentUserIndex playing.
Proof.
  assert (Hp : isTransitioning playing = true) by (vm_compute; reflexivity).
  split; [exact Hp |].
  destruct (@safety_timeout_forces_completion asciiBuiltins playing Hp) as (H1 & _ & _ & _ & H5 & _).
  split; [exact H1 | exact H5].
Defined.

(** The avatar webhook answers 404 to the single-avatar action: two
    requests are made, nothing is cached, no avatar is set and no image is
    written. *)
Lemma single_avatar_counterexample :
  let r := run net404 (@TeamsAvatar.fetchData asciiBuiltins (TeamsAvatar.initial config)) in
  fetched r = [ "https://hooks.example/avatar?user=ann%40example.org";
                "https://hooks.example/messages?user=ann%40example.org" ]
  /\ outcome r = Returned tt
  /\ TeamsAvatar.avatarCache (final r) !! "ann@example.org" = None
  /\ map_to_list (TeamsAvatar.avatarCache (final r)) = []
  /\ TeamsAvatar.avatarImage (final r) = None
  /\ imagesWritten (TeamsAvatar.out (final r)) = []
  /\ TeamsAvatar.unreadCount (final r) = 2.
Proof. vm_compute. repeat split. Qed.

Lemma avatar_fetch_failure_witness :
  let user := mkUser (Some "u1") (Some "Ann Lee") (Some 5) None in
  let r := run net404 (@resolveAvatar asciiBuiltins CurrentSlot user (initial config)) in
  outcome r = Returned tt
  /\ currentAvatarImage (final r) = Some (@Resolve.fallbackImage asciiBuiltins user).
Proof.
  intros user r.
  destruct (proj1 (@avatar_fetch_failure asciiBuiltins) net404 CurrentSlot user (initial config))
    as (Ho & _ & Hi & _).
  - vm_compute; reflexivity.
  - discriminate.
  - vm_compute; reflexivity.
  - vm_compute; reflexivity.
  - split; [exact Ho | exact Hi].
Defined.

(** A JPEG portrait overlaid with the count 0 comes back as another data
    URL: a PNG. *)
Lemma overlay_zero_counterexample :
  let avatar := DataUrlOfBlob portrait in
  Render.overlayCountResult avatar 0 <> Some avatar
  /\ exists image,
       outcome (run net404 (TeamsRotating.overlayCountOnImage avatar 0 (initial config)))
       = Returned image
       /\ outcome (run net404 (TeamsAvatar.overlayCountOnImage avatar 0 (TeamsAvatar.initial config)))
          = Returned image
       /\ image <> avatar
       /\ mediaType image = "image/png"
       /\ mediaType avatar = "image/jpeg".
Proof.
  split; [discriminate |].
  eexists. split; [reflexivity |]. split; [reflexivity |].
  split; [discriminate |]. split; reflexivity.
Qed.

Lemma crossfade_frames_witness :
  currentAvatarImage ready = Some readyCurrent
  /\ nextAvatarImage ready = Some readyNext
  /\ length (transitionFrames (final (run net404 (generateTransitionFrames ready)))) = 25%nat.
Proof.
  assert (Hc : currentAvatarImage ready = Some readyCurrent) by (vm_compute; reflexivity).
  assert (Hn : nextAvatarImage ready = Some readyNext) by (vm_compute; reflexivity).
  split; [exact Hc |]. split; [exact Hn |].
  refine (proj1 (proj2 (crossfade_frames net404 ready readyCurrent readyNext Hc Hn _ _)));
    vm_compute; reflexivity.
Defined.

Lemma roster_sorted_by_count_witness :
  rotatingWebhookUrl (settings (initial config)) = Some "https://hooks.example/roster"
  /\ users (final (run net404 (@fetchUsersData asciiBuiltins (initial config))))
     = JsArray.sort compareCount roster.
Proof.
  split; [reflexivity |].
  refine (proj1 (@roster_sorted_by_count asciiBuiltins net404 (initial config)
                   "https://hooks.example/roster" rosterResponse roster _ _ _ _ _));
    first [reflexivity | discriminate].
Defined.

Lemma carousel_reanchored_witness :
  rotatingWebhookUrl (settings switched) = Some "https://hooks.example/roster"
  /\ currentUserIndex switched = Js.Idx 1
  /\ users (final (run net404 (@fetchUsersData asciiBuiltins switched)))
     = JsArray.sort compareCount roster.
Proof.
  split; [vm_compute; reflexivity |]. split; [vm_compute; reflexivity |].
  refine (proj1 (@carousel_reanchored asciiBuiltins net404 switched
                   "https://hooks.example/roster" rosterResponse roster _ _ _ _ _));
    first [discriminate | vm_compute; reflexivity].
Defined.

(** After the manual switch the bot is the current user, at position 1; the
    next poll finds it at position 1 of the sorted roster and stays there. *)
Example reanchored_example :
  currentUserIndex (final (run net404 (@fetchUsersData asciiBuiltins switched))) = Js.Idx 1.
Proof. vm_compute. reflexivity. Qed.

Lemma display_dedup_witness :
  lastDisplayedState (initial config) <> Some "noUsers"
  /\ imagesWritten
       (out (after (setImageIfChanged Render.generateNoUsersImage "noUsers")
               (after (setImageIfChanged Render.generateNoUsersImage "noUsers") (initial config))))
     = [Render.generateNoUsersImage].
Proof.
  assert (Hne : lastDisplayedState (initial config) <> Some "noUsers") by discriminate.
  split; [exact Hne |].
  exact (proj1 (proj2 (@display_dedup asciiBuiltins (initial config)
                         Render.generateNoUsersImage Render.generateNoUsersImage "noUsers" Hne))).
Defined.


(** No next image and its pre-fetch in flight: the position moves on to the
    bot, both images are null and nothing is written to the display. *)
Example waiting_example :
  let s' := after (@showNextUser asciiBuiltins) waiting in
  currentUserIndex s' = Js.Idx 1
  /\ currentAvatarImage s' = None /\ nextAvatarImage s' = None
  /\ imagesWritten (out s') = imagesWritten (out waiting)
  /\ lastDisplayedState s' = Some "avatar:u1_5_0".
Proof. vm_compute. repeat split. Qed.

End Session.

(** * Part II, continued: further properties of the code *)

(** ** Handlers that never reject *)

Section SafeFacts.
Import Async Safe.
Context {St : Type}.

Lemma neverThrows_bindAct {A B : Type} (m : Act St A) (f : A -> Prog St B) :
  neverThrows m -> (forall a s, neverThrows (f a s)) -> neverThrows (bindAct m f).
Proof.
  revert B f.
  induction m as [A s a | A s e | A s url k IH | A s k IH | A c _ k IH];
    intros B f Hm Hf; simpl in *; auto; contradiction.
Qed.

(** A [try] whose handler never throws never throws, whatever its body. *)
Lemma neverThrows_catchAct {A : Type} (m : Act St A) (h : string -> Prog St A) :
  (forall e s, neverThrows (h e s)) -> neverThrows (catchAct m h).
Proof.
  intros Hh.
  induction m as [A s a | A s e | A s url k IH | A s k IH | A c _ k IH]; simpl; auto.
Qed.

Lemma neverThrows_run {A : Type} (net : string -> FetchResult) (m : Act St A) :
  neverThrows m -> exists a, outcome (run net m) = Returned a.
Proof.
  induction m as [A s a | A s e | A s url k IH | A s k IH | A c _ k IH]; simpl; intros Hm.
  - now exists a.
  - contradiction.
  - apply IH, Hm.
  - apply IH, Hm.
  - apply IH, Hm.
Qed.

End SafeFacts.

Section HandlersReturn.
Import Async Safe.
Context `{Js.Builtins}.

(** X1.  The two poll handlers never reject: whatever the state of the
    session and whatever the network answers (a thrown request, a non-OK
    status, a body that cannot be read or parsed), [fetchUsersData] of the
    carousel and [fetchData] of the single avatar run to their end and
    return. *)
Theorem poll_handlers_never_reject (net : string -> FetchResult) :
  (forall s, outcome (run net (TeamsRotating.fetchUsersData s)) = Returned tt)
  /\ (forall s, outcome (run net (TeamsAvatar.fetchData s)) = Returned tt).
Proof.
  split; intros s.
  - destruct (neverThrows_run net (TeamsRotating.fetchUsersData s)) as [[] Ho]; [| exact Ho].
    unfold TeamsRotating.fetchUsersData, try_catch. apply neverThrows_catchAct.
    intros e s'. unfold TeamsRotating.log, TeamsRotating.setImageIfChanged, TeamsRotating.setImage.
    unfold bind, get, modify, ret. simpl. case_bool_decide; exact I.
  - destruct (neverThrows_run net (TeamsAvatar.fetchData s)) as [[] Ho]; [| exact Ho].
    unfold TeamsAvatar.fetchData, try_catch. apply neverThrows_catchAct.
    intros e s'. unfold TeamsAvatar.log, TeamsAvatar.setImageIfChanged, TeamsAvatar.setImage.
    unfold bind, get, modify, ret. simpl. case_bool_decide; exact I.
Qed.

End HandlersReturn.

Section FailedPoll.
Import Async TeamsRotating.
Context `{Js.Builtins}.

(** X2.  A poll that fails, for want of a webhook URL, by a thrown request,
    a non-OK status, a body that is not JSON or JSON that is not an array,
    leaves the carousel as it was: roster, position, both images, cache and
    transition flag.  It puts the key of the matching static state on
    display and writes its image unless that key was on display already;
    without a URL it requests nothing, otherwise it makes the one request to
    the roster webhook. *)
Theorem failed_poll_keeps_carousel (net : string -> FetchResult) (s : State)
    (key : string) (image : DataUrl) :
  Poll.failure net s = Some (key, image) ->
  let r := run net (fetchUsersData s) in
  users (final r) = users s
  /\ currentUserIndex (final r) = currentUserIndex s
  /\ currentAvatarImage (final r) = currentAvatarImage s
  /\ nextAvatarImage (final r) = nextAvatarImage s
  /\ avatarCache (final r) = avatarCache s
  /\ isTransitioning (final r) = isTransitioning s
  /\ lastDisplayedState (final r) = Some key
  /\ imagesWritten (out (final r))
     = imagesWritten (out s)
       ++ (if bool_decide (lastDisplayedState s = Some key) then [] else [image])
  /\ fetched r = (if Js.truthy (rotatingWebhookUrl (settings s))
                  then [Js.show (rotatingWebhookUrl (settings s))] else []).
Proof.
  intros Hfail r. subst r. unfold Poll.failure in Hfail.
  unfold fetchUsersData, setImageIfChanged, setImage, log, emit.
  destruct s as [cfg us idx cur nxt fn fc tr cache frames fi last ti st o].
  unfold bind, try_catch, try_finally, get, modify, ret, throw, fetch, await, spawn.
  simpl in *.
  destruct (Js.truthy (rotatingWebhookUrl cfg)); simpl in *.
  - destruct (net _) as [[ok blob json] | e]; simpl in *.
    + destruct ok; simpl in *.
      * destruct json as [[items |] |]; simpl in *; try discriminate;
          injection Hfail as <- <-; case_bool_decide; simpl;
          rewrite ?imagesWritten_image, ?imagesWritten_log, ?app_nil_r; subst; repeat split.
      * injection Hfail as <- <-; case_bool_decide; simpl;
          rewrite ?imagesWritten_image, ?imagesWritten_log, ?app_nil_r; subst; repeat split.
    + injection Hfail as <- <-; case_bool_decide; simpl;
          rewrite ?imagesWritten_image, ?imagesWritten_log, ?app_nil_r; subst; repeat split.
  - injection Hfail as <- <-; case_bool_decide; simpl;
          rewrite ?imagesWritten_image, ?imagesWritten_log, ?app_nil_r; subst; repeat split.
Qed.
End FailedPoll.

(** ** What a pre-fetch does and does not do *)

Ltac frame_side2 :=
  cbv [Frame2.sameButCurrent TeamsRotating.set_image TeamsRotating.set_fetching
       TeamsRotating.emit];
  intros; cbn; rewrite ?imagesWritten_log, ?imagesWritten_title; tauto.

Ltac keeps_step2 :=
  lazymatch goal with
  | |- Inv.Keeps _ (Async.bind _ _) => apply Keeps_bind; [| intros ?]
  | |- Inv.Keeps _ (Async.try_finally _ _) => apply Keeps_try_finally
  | |- Inv.Keeps _ (Async.try_catch _ _) => apply Keeps_try_catch; [| intros ?]
  | |- Inv.Keeps _ Async.get => apply Keeps_get
  | |- Inv.Keeps _ (Async.ret _) => apply Keeps_ret
  | |- Inv.Keeps _ (Async.throw _) => apply Keeps_throw
  | |- Inv.Keeps _ (Async.fetch _) => apply Keeps_fetch
  | |- Inv.Keeps _ (Async.await _) => apply Keeps_await
  | |- Inv.Keeps _ (Async.spawn _) => apply Keeps_spawn
  | |- Inv.Keeps _ (Async.modify _) => apply Keeps_modify; frame_side2
  | |- Inv.Keeps _ (if ?b then _ else _) => destruct b
  | |- Inv.Keeps _ (match ?x with _ => _ end) => destruct x
  | |- forall _, _ -> _ => frame_side2
  end.

(** A field other than [out] is assigned, or a line is logged. *)
Ltac logs_side :=
  let s := fresh "s" in
  let lines := fresh "lines" in
  let Hl := fresh "Hl" in
  intros s [lines Hl];
  first
    [ exists lines; exact Hl
    | match goal with
      | |- Frame2.logsOnly _ (TeamsRotating.emit (Log ?message) _) =>
          exists (lines ++ [message]); cbn; rewrite Hl, map_app, <- app_assoc; reflexivity
      end ].

Ltac logs_step :=
  lazymatch goal with
  | |- Inv.Keeps _ (Async.bind _ _) => apply Keeps_bind; [| intros ?]
  | |- Inv.Keeps _ (Async.try_finally _ _) => apply Keeps_try_finally
  | |- Inv.Keeps _ (Async.try_catch _ _) => apply Keeps_try_catch; [| intros ?]
  | |- Inv.Keeps _ Async.get => apply Keeps_get
  | |- Inv.Keeps _ (Async.ret _) => apply Keeps_ret
  | |- Inv.Keeps _ (Async.throw _) => apply Keeps_throw
  | |- Inv.Keeps _ (Async.fetch _) => apply Keeps_fetch
  | |- Inv.Keeps _ (Async.await _) => apply Keeps_await
  | |- Inv.Keeps _ (Async.spawn _) => apply Keeps_spawn
  | |- Inv.Keeps _ (Async.modify _) => apply Keeps_modify; logs_side
  | |- Inv.Keeps _ (if ?b then _ else _) => destruct b
  | |- Inv.Keeps _ (match ?x with _ => _ end) => destruct x
  | |- forall _, _ -> _ => logs_side
  end.

Section PrefetchFacts.
Import Async Inv TeamsRotating Frame Frame2 Resolve.
Context `{Js.Builtins}.

(** A resolution calls the display not at all: it only logs. *)
Lemma resolveAvatar_logsOnly s0 slot user : Keeps (logsOnly s0) (resolveAvatar slot user).
Proof.
  unfold resolveAvatar, compositeAndCache, overlayCountOnImage, blobToDataUrl, log.
  destruct slot; repeat logs_step.
Qed.

Lemma logsOnly_refl s : logsOnly s s.
Proof. exists []. cbn. now rewrite app_nil_r. Qed.

Lemma resolveAvatar_sameButCurrent s0 user : Keeps (sameButCurrent s0) (resolveAvatar CurrentSlot user).
Proof.
  unfold resolveAvatar, compositeAndCache, overlayCountOnImage, blobToDataUrl, log.
  repeat keeps_step2.
Qed.

Lemma sameButCurrent_refl s : sameButCurrent s s.
Proof. unfold sameButCurrent. tauto. Qed.

(** Either a guard stops the method at once, or it is a resolution. *)
Lemma prefetchNextAvatar_cases s :
  prefetchNextAvatar s = Ret s tt
  \/ exists nextUser,
       isFetchingNext s = false
       /\ Js.at_index (users s) (Js.succ_mod (currentUserIndex s) (length (users s))) = Some nextUser
       /\ Js.truthy (userId nextUser) = true
       /\ prefetchNextAvatar s = resolveAvatar NextSlot nextUser s.
Proof.
  unfold prefetchNextAvatar, bind, get, ret. simpl.
  destruct (isFetchingNext s) eqn:Hf; [now left |].
  destruct (length (users s) =? 0)%nat; [now left |].
  destruct (Js.at_index _ _) as [u |] eqn:Hu; [| now left].
  destruct (Js.truthy (userId u)) eqn:Hid; [| now left].
  right. exists u. auto.
Qed.

Lemma prefetchCurrentAvatar_cases s :
  prefetchCurrentAvatar s = Ret s tt
  \/ exists currentUser,
       isFetchingCurrent s = false
       /\ Js.at_index (users s) (currentUserIndex s) = Some currentUser
       /\ Js.truthy (userId currentUser) = true
       /\ prefetchCurrentAvatar s = resolveAvatar CurrentSlot currentUser s.
Proof.
  unfold prefetchCurrentAvatar, bind, get, ret. simpl.
  destruct (isFetchingCurrent s) eqn:Hf; [now left |].
  destruct (length (users s) =? 0)%nat; [now left |].
  destruct (Js.at_index _ _) as [u |] eqn:Hu; [| now left].
  destruct (Js.truthy (userId u)) eqn:Hid; [| now left].
  right. exists u. auto.
Qed.

(** A resolution makes at most one request, to the avatar webhook with the
    [userId] of its entry. *)
Lemma resolveAvatar_requests net slot user s :
  let r := run net (resolveAvatar slot user s) in
  fetched r = [] \/ fetched r = [avatarRequest s user].
Proof.
  intros r. subst r.
  unfold resolveAvatar, compositeAndCache, overlayCountOnImage, blobToDataUrl, log, avatarRequest.
  destruct s as [cfg us idx cur nxt fn fc tr cache frames fi last ti st o].
  unfold bind, try_catch, try_finally, get, modify, ret, throw, fetch, await, spawn.
  destruct slot; simpl.
  all: destruct (cache !! cacheKey user) as [hit |]; simpl; [now left |].
  all: destruct (bool_decide (fromType user = Some "bot")); simpl; [now left |].
  all: destruct (Js.truthy (avatarWebhookUrl cfg)); simpl; [| now left].
  all: match goal with
       | |- context [match ?x with Responded _ => _ | NetworkError _ => _ end] =>
           destruct x as [[ok blob json] | e]
       end;
    simpl; [| now right].
  all: destruct ok; simpl; [| now right].
  all: destruct blob as [b |]; simpl; [| now right].
  all: unfold Render.overlayCountResult; simpl; destruct (blob_isImage b); now right.
Qed.

(** X3.  Whatever the network answers, [prefetchNextAvatar] returns, makes
    at most one request (to the avatar webhook, for the user after the
    current one) and touches nothing but the next image, its in-flight
    flag, the cache and the log: all it adds to the record of calls is
    lines of the log, so it writes no image and no title, and it leaves the
    roster, the position, the current image and the transition state
    alone.  [prefetchCurrentAvatar] does the same for the current user and
    the current image. *)
Theorem prefetch_touches_its_slot_only (net : string -> FetchResult) (s : State) :
  (let r := run net (prefetchNextAvatar s) in
   outcome r = Returned tt
   /\ sameButNext s (final r)
   /\ logsOnly s (final r)
   /\ (fetched r = []
       \/ exists nextUser,
            Js.at_index (users s) (Js.succ_mod (currentUserIndex s) (length (users s)))
            = Some nextUser
            /\ fetched r = [avatarRequest s nextUser]))
  /\ (let r := run net (prefetchCurrentAvatar s) in
      outcome r = Returned tt
      /\ sameButCurrent s (final r)
      /\ logsOnly s (final r)
      /\ (fetched r = []
          \/ exists currentUser,
               Js.at_index (users s) (currentUserIndex s) = Some currentUser
               /\ fetched r = [avatarRequest s currentUser])).
Proof.
  split; cbv zeta.
  - destruct (prefetchNextAvatar_cases s) as [-> | (u & Hf & Hu & Hid & ->)].
    + simpl. split; [reflexivity |]. split; [apply sameButNext_refl |].
      split; [apply logsOnly_refl | now left].
    + split; [exact (proj1 (resolveAvatar_run net NextSlot u s)) |].
      split; [apply keeps_run, resolveAvatar_sameButNext, sameButNext_refl |].
      split; [apply keeps_run, resolveAvatar_logsOnly, logsOnly_refl |].
      destruct (resolveAvatar_requests net NextSlot u s) as [-> | ->]; [now left |].
      right. exists u. auto.
  - destruct (prefetchCurrentAvatar_cases s) as [-> | (u & Hf & Hu & Hid & ->)].
    + simpl. split; [reflexivity |]. split; [apply sameButCurrent_refl |].
      split; [apply logsOnly_refl | now left].
    + split; [exact (proj1 (resolveAvatar_run net CurrentSlot u s)) |].
      split; [apply keeps_run, resolveAvatar_sameButCurrent, sameButCurrent_refl |].
      split; [apply keeps_run, resolveAvatar_logsOnly, logsOnly_refl |].
      destruct (resolveAvatar_requests net CurrentSlot u s) as [-> | ->]; [now left |].
      right. exists u. auto.
Qed.

(** X4.  The avatar cache only grows while pre-fetches run one after the
    other: an entry that is in the cache before [prefetchNextAvatar] or
    [prefetchCurrentAvatar] runs is there, with the same image, when it has
    run, whatever the network answers. *)
Theorem prefetch_keeps_cache_entries (net : string -> FetchResult) (s : State)
    (key : string) (image : DataUrl) :
  avatarCache s !! key = Some image ->
  avatarCache (final (run net (prefetchNextAvatar s))) !! key = Some image
  /\ avatarCache (final (run net (prefetchCurrentAvatar s))) !! key = Some image.
Proof.
  intros Hk. split.
  - destruct (prefetchNextAvatar_cases s) as [-> | (u & _ & _ & _ & ->)]; [exact Hk |].
    now apply (resolveAvatar_run net NextSlot u s).
  - destruct (prefetchCurrentAvatar_cases s) as [-> | (u & _ & _ & _ & ->)]; [exact Hk |].
    now apply (resolveAvatar_run net CurrentSlot u s).
Qed.

End PrefetchFacts.

(** ** Starting and playing a transition *)

Section SyncFacts.
Import Async.
Context {St : Type}.

Lemma prefix_awaited {A : Type} (m : Act St A) : awaited (prefix m) = 0%nat.
Proof. destruct m; reflexivity. Qed.

(** A method that does not suspend runs the same with and without the
    event loop. *)
Lemma run_sync {A : Type} (net : string -> FetchResult) (m : Act St A) :
  outcome (prefix m) <> Suspended -> run net m = prefix m.
Proof.
  induction m as [A s a | A s e | A s url k IH | A s k IH | A c _ k IH]; simpl; intros Hm;
    try reflexivity; try congruence.
  rewrite (IH _ Hm), prefix_awaited. reflexivity.
Qed.

End SyncFacts.

Section TransitionFacts.
Import Async Inv TeamsRotating Frame Display Playback.
Context `{Js.Builtins}.

Lemma showNextUser_returns s : outcome (prefix (showNextUser s)) = Returned tt.
Proof.
  unfold showNextUser, bind, get. simpl.
  destruct (length (users s) =? 0)%nat.
  - unfold setImageIfChanged, setImage, bind, get, modify, ret. simpl.
    case_bool_decide; reflexivity.
  - unfold modify, spawn. simpl. apply updateDisplay_returns.
Qed.

Lemma showNextUser_run net s : run net (showNextUser s) = prefix (showNextUser s).
Proof. apply run_sync. rewrite showNextUser_returns. discriminate. Qed.

(** [showNextUser] on a non-empty roster leaves the roster and the
    transition state of the state it has built for the pre-fetch. *)
Lemma showNextUser_sameRoster s :
  users s <> [] -> sameRoster (swapped s) (after showNextUser s).
Proof.
  intros Hu. rewrite (showNextUser_after _ Hu).
  apply Keeps_after; [apply updateDisplay_sameRoster |].
  apply Keeps_after; [apply prefetchNextAvatar_sameRoster | apply sameRoster_refl].
Qed.

(** With two images that load, the method ends with playback started. *)
Lemma showNextUserWithTransition_starts net s currentImg nextImg :
  users s <> [] -> isTransitioning s = false ->
  currentAvatarImage s = Some currentImg -> nextAvatarImage s = Some nextImg ->
  loads currentImg = true -> loads nextImg = true ->
  run net (showNextUserWithTransition s)
  = mkRun
      (set_transitionInterval true
         (set_safetyTimeout true
            (set_lastDisplayedState (Some "transitioning")
               (set_currentFrameIndex 0
                  (set_transitionFrames (Render.framesFrom currentImg nextImg 0 25)
                     (set_isTransitioning true s))))))
      (Returned tt) [] 2 [].
Proof.
  intros Hu Ht Hc Hn Hlc Hln.
  unfold showNextUserWithTransition, generateTransitionFrames, playTransition, loadImage.
  unfold bind, try_catch, get, modify, ret, throw, await.
  destruct s as [cfg us idx cur nxt fn fc tr cache frames fi last ti st o].
  simpl in *. subst. destruct us as [| u us]; [congruence |]. simpl.
  rewrite Hlc. simpl. rewrite Hln. reflexivity.
Qed.

(** With two images one of which does not load, the method logs the failure
    and ends as [showNextUser] does, from a state without frames. *)
Lemma showNextUserWithTransition_load_failure net s currentImg nextImg :
  users s <> [] -> isTransitioning s = false ->
  currentAvatarImage s = Some currentImg -> nextAvatarImage s = Some nextImg ->
  loads currentImg && loads nextImg = false ->
  run net (showNextUserWithTransition s)
  = let r := prefix (showNextUser
                       (emit (Log "Transition frame generation failed: Failed to generate transition frames: undefined")
                          (set_transitionFrames [] s))) in
    mkRun (final r) (outcome r) (fetched r) (if loads currentImg then 2 else 1) (detached r).
Proof.
  intros Hu Ht Hc Hn Hl.
  unfold showNextUserWithTransition, generateTransitionFrames, playTransition, loadImage, log.
  pose proof (showNextUser_run net) as Hrun.
  set (next := showNextUser) in *. clearbody next.
  unfold bind, try_catch, get, modify, ret, throw, await.
  destruct s as [cfg us idx cur nxt fn fc tr cache frames fi last ti st o].
  simpl in *. subst. destruct us as [| u us]; [congruence |]. simpl.
  destruct (loads currentImg); simpl in *.
  - rewrite Hl. simpl. rewrite Hrun, prefix_awaited. reflexivity.
  - rewrite Hrun, prefix_awaited. reflexivity.
Qed.

(** X5.  [showNextUserWithTransition] always returns, and:
    on an empty roster or while a transition is playing it does nothing;
    with a current and a next image that both load it starts a crossfade,
    which leaves the carousel where it is, stores the 25 frames, sets the
    frame index to 0, puts the key "transitioning" on display, arms the
    frame timer and the safety timer, and writes no image yet;
    in every other case (an image missing, or one that does not load) it
    switches at once as [showNextUser] does: the position advances by one
    modulo the length of the roster, no transition is left in progress and
    no timer is armed by the call. *)
Theorem transition_started_or_instant (net : string -> FetchResult) (s : State) :
  let r := run net (showNextUserWithTransition s) in
  outcome r = Returned tt
  /\ (users s = [] \/ isTransitioning s = true -> final r = s)
  /\ (users s <> [] -> isTransitioning s = false ->
      if canCrossfade s then
        isTransitioning (final r) = true
        /\ users (final r) = users s
        /\ currentUserIndex (final r) = currentUserIndex s
        /\ currentAvatarImage (final r) = currentAvatarImage s
        /\ nextAvatarImage (final r) = nextAvatarImage s
        /\ length (transitionFrames (final r)) = 25%nat
        /\ currentFrameIndex (final r) = 0%nat
        /\ lastDisplayedState (final r) = Some "transitioning"
        /\ transitionInterval (final r) = true
        /\ safetyTimeout (final r) = true
        /\ out (final r) = out s
      else
        isTransitioning (final r) = false
        /\ users (final r) = users s
        /\ currentUserIndex (final r) = Js.succ_mod (currentUserIndex s) (length (users s))
        /\ transitionInterval (final r) = transitionInterval s
        /\ safetyTimeout (final r) = safetyTimeout s).
Proof.
  cbv zeta.
  destruct (users s) as [| u us] eqn:Hus.
  { unfold showNextUserWithTransition, bind, get, ret. simpl. rewrite Hus. simpl.
    split; [reflexivity |]. split; [reflexivity | congruence]. }
  destruct (isTransitioning s) eqn:Ht.
  { unfold showNextUserWithTransition, bind, get, ret. simpl. rewrite Hus, Ht. simpl.
    split; [reflexivity |]. split; [reflexivity | congruence]. }
  assert (Hu : users s <> []) by congruence.
  assert (Hinstant : forall s0 : State,
             users s0 = users s -> currentUserIndex s0 = currentUserIndex s ->
             isTransitioning s0 = false -> transitionInterval s0 = transitionInterval s ->
             safetyTimeout s0 = safetyTimeout s ->
             let s' := final (prefix (showNextUser s0)) in
             isTransitioning s' = false /\ users s' = u :: us
             /\ currentUserIndex s' = Js.succ_mod (currentUserIndex s) (length (u :: us))
             /\ transitionInterval s' = transitionInterval s
             /\ safetyTimeout s' = safetyTimeout s).
  { intros s0 Hu0 Hi0 Ht0 Hti0 Hst0 s'. subst s'.
    assert (Hne : users s0 <> []) by congruence.
    destruct (showNextUser_sameRoster s0 Hne) as (E1 & E2 & E3 & _ & _ & E6 & E7).
    unfold after in *. rewrite E1, E2, E3, E6, E7. simpl.
    rewrite Hu0, Hi0, Ht0, Hti0, Hst0, Hus. repeat split. }
  unfold canCrossfade.
  destruct (currentAvatarImage s) as [c |] eqn:Hc; [destruct (nextAvatarImage s) as [n |] eqn:Hn |].
  - destruct (loads c && loads n)%bool eqn:Hl.
    + apply andb_true_iff in Hl as [Hlc Hln].
      rewrite (showNextUserWithTransition_starts net s c n Hu Ht Hc Hn Hlc Hln). simpl.
      split; [reflexivity |]. split; [intros [? | ?]; congruence |]. intros _ _.
      rewrite Hus, Hc, Hn. repeat split.
    + rewrite (showNextUserWithTransition_load_failure net s c n Hu Ht Hc Hn Hl). simpl.
      split; [apply showNextUser_returns |]. split; [intros [? | ?]; congruence |]. intros _ _.
      apply Hinstant; simpl; auto.
  - assert (E : showNextUserWithTransition s = showNextUser s).
    { unfold showNextUserWithTransition, bind, get. simpl. now rewrite Hus, Ht, Hc, Hn. }
    rewrite E, showNextUser_run.
    split; [apply showNextUser_returns |]. split; [intros [? | ?]; congruence |]. intros _ _.
    apply Hinstant; auto.
  - assert (E : showNextUserWithTransition s = showNextUser s).
    { unfold showNextUserWithTransition, bind, get. simpl. now rewrite Hus, Ht, Hc. }
    rewrite E, showNextUser_run.
    split; [apply showNextUser_returns |]. split; [intros [? | ?]; congruence |]. intros _ _.
    apply Hinstant; auto.
Qed.

End TransitionFacts.

Section PlaybackFacts.
Import Async Inv TeamsRotating Frame Display Playback.
Context `{Js.Builtins}.

(** While frames are left, [k] ticks write the next [k] frames, in order,
    and move the frame index by [k]; nothing else changes. *)
Lemma ticks_frames k : forall s,
  (currentFrameIndex s + k <= length (transitionFrames s))%nat ->
  ticks k s
  = set_currentFrameIndex (currentFrameIndex s + k)
      (set_out (out s ++ map SetImage (take k (drop (currentFrameIndex s) (transitionFrames s)))) s).
Proof.
  induction k as [| k IH]; intros s Hk.
  - destruct s. simpl. rewrite Nat.add_0_r, app_nil_r. reflexivity.
  - simpl ticks.
    destruct (nth_error (transitionFrames s) (currentFrameIndex s)) as [frame |] eqn:Hf.
    2:{ apply nth_error_None in Hf. lia. }
    rewrite (transitionTick_frame s frame Hf).
    rewrite IH by (simpl; lia).
    assert (Hd : drop (currentFrameIndex s) (transitionFrames s)
                 = frame :: drop (S (currentFrameIndex s)) (transitionFrames s)).
    { clear - Hf. revert Hf. generalize (currentFrameIndex s) as i.
      induction (transitionFrames s) as [| x l IHl]; intros [| i] Hf; simpl in *; try discriminate.
      - now injection Hf as ->.
      - now apply IHl. }
    rewrite Hd. destruct s. simpl. unfold set_currentFrameIndex, set_out, emit. simpl.
    rewrite <- app_assoc. simpl. do 2 f_equal. lia.
Qed.

Lemma transitionTick_done s :
  nth_error (transitionFrames s) (currentFrameIndex s) = None ->
  after transitionTick s = after completeTransition s.
Proof. intros Hf. unfold after, transitionTick, bind, get. cbn [bindAct]. now rewrite Hf. Qed.

Lemma ticks_succ k : forall s, ticks (S k) s = after transitionTick (ticks k s).
Proof. induction k as [| k IH]; intros s; [reflexivity |]. exact (IH (after transitionTick s)). Qed.

Lemma imagesWritten_app o1 o2 : imagesWritten (o1 ++ o2) = imagesWritten o1 ++ imagesWritten o2.
Proof. unfold imagesWritten. apply omap_app. Qed.

Lemma imagesWritten_frames l : imagesWritten (map SetImage l) = l.
Proof. induction l as [| x l IH]; simpl; [reflexivity |]. unfold imagesWritten in *. simpl. now rewrite IH. Qed.

Lemma stateKey_ext s t :
  users s = users t -> currentUserIndex s = currentUserIndex t -> stateKey s = stateKey t.
Proof. intros Hu Hi. unfold stateKey. now rewrite Hu, Hi. Qed.

(** The tick after the last frame: the carousel moves on. *)
Lemma completeTransition_moves_on t nextImg :
  users t <> [] -> nextAvatarImage t = Some nextImg ->
  lastDisplayedState t = Some "transitioning" ->
  let t' := after completeTransition t in
  isTransitioning t' = false
  /\ users t' = users t
  /\ currentUserIndex t' = Js.succ_mod (currentUserIndex t) (length (users t))
  /\ currentAvatarImage t' = Some nextImg
  /\ transitionFrames t' = []
  /\ transitionInterval t' = false
  /\ safetyTimeout t' = false
  /\ lastDisplayedState t' = Some (stateKey t')
  /\ imagesWritten (out t') = imagesWritten (out t) ++ [nextImg].
Proof.
  intros Hu Hn Hl. rewrite completeTransition_after. cbv zeta.
  set (t0 := swapped _).
  pose proof (Keeps_after _ _ _ (updateDisplay_sameRoster t0) (sameRoster_refl t0)) as Hupd.
  pose proof (then_prefetch_next (after updateDisplay t0)) as Hpre.
  assert (Hu0 : users t0 <> []) by exact Hu.
  assert (Hc0 : currentAvatarImage t0 = Some nextImg) by exact Hn.
  assert (Hl0 : lastDisplayedState t0 = Some "transitioning") by exact Hl.
  pose proof (updateDisplay_current t0 nextImg Hu0 Hc0) as Hdisp.
  rewrite setImageIfChanged_after,
    (bool_decide_eq_false_2 _ (stateKey_not_transitioning t0 Hl0)) in Hdisp.
  set (t2 := after updateDisplay t0) in *.
  set (t3 := if (0 <? length (users t2))%nat then after prefetchNextAvatar t2 else t2) in *.
  unfold sameRoster in Hupd. unfold sameButNext in Hpre.
  destruct Hupd as (Hu2 & Hi2 & Ht2 & _ & _ & Hti2 & Hst2).
  destruct Hpre as (_ & Hu3 & Hi3 & Hc3 & _ & Ht3 & _ & _ & Hl3 & Hti3 & Hst3 & Hw3).
  assert (Hkey : stateKey (set_transitionFrames [] t3) = stateKey t0).
  { apply stateKey_ext; simpl; [now rewrite Hu3 | now rewrite Hi3]. }
  rewrite Hkey.
  cbn [isTransitioning users transitionFrames currentUserIndex currentAvatarImage out
       transitionInterval safetyTimeout lastDisplayedState set_transitionFrames].
  rewrite Ht3, Ht2, Hu3, Hu2, Hi3, Hi2, Hc3, Hti3, Hti2, Hst3, Hst2, Hl3, Hw3, Hdisp.
  cbn. rewrite imagesWritten_title, imagesWritten_image. repeat split. exact Hn.
Qed.

(** X6.  A crossfade played to its end.  From a session with a non-empty
    roster, no transition in progress and a current and a next image that
    both load, [showNextUserWithTransition] followed by firings of the frame
    timer writes the 25 frames in order, one per firing, with the carousel
    still on the current user; the 26th firing completes the transition:
    it writes the next image, which becomes the current one, advances the
    position by one modulo the length of the roster, puts the key of the
    new current user on display, drops the frames and leaves both timers
    disarmed. *)
Theorem crossfade_played_to_its_end (net : string -> FetchResult) (s : State)
    (currentImg nextImg : DataUrl) :
  users s <> [] -> isTransitioning s = false ->
  currentAvatarImage s = Some currentImg -> nextAvatarImage s = Some nextImg ->
  loads currentImg = true -> loads nextImg = true ->
  let frames := Render.framesFrom currentImg nextImg 0 25 in
  let s1 := final (run net (showNextUserWithTransition s)) in
  (forall k, (k <= 25)%nat ->
     imagesWritten (out (ticks k s1)) = imagesWritten (out s) ++ take k frames
     /\ isTransitioning (ticks k s1) = true
     /\ currentUserIndex (ticks k s1) = currentUserIndex s
     /\ currentAvatarImage (ticks k s1) = Some currentImg)
  /\ (let s2 := ticks 26 s1 in
      imagesWritten (out s2) = imagesWritten (out s) ++ frames ++ [nextImg]
      /\ isTransitioning s2 = false
      /\ users s2 = users s
      /\ currentUserIndex s2 = Js.succ_mod (currentUserIndex s) (length (users s))
      /\ currentAvatarImage s2 = Some nextImg
      /\ lastDisplayedState s2 = Some (stateKey s2)
      /\ transitionFrames s2 = []
      /\ transitionInterval s2 = false
      /\ safetyTimeout s2 = false).
Proof.
  intros Hu Ht Hc Hn Hlc Hln frames s1. subst s1.
  rewrite (showNextUserWithTransition_starts net s currentImg nextImg Hu Ht Hc Hn Hlc Hln).
  cbn [final]. fold frames.
  assert (Hlen : length frames = 25%nat) by apply framesFrom_length.
  clearbody frames.
  set (s1 := set_transitionInterval true _).
  assert (Hticks : forall k, (k <= 25)%nat ->
            ticks k s1 = set_currentFrameIndex k (set_out (out s ++ map SetImage (take k frames)) s1)).
  { intros k Hk. rewrite ticks_frames; [reflexivity |]. subst s1. simpl. lia. }
  split.
  - intros k Hk. rewrite (Hticks k Hk). subst s1. simpl.
    rewrite imagesWritten_app, imagesWritten_frames. repeat split; assumption.
  - cbv zeta.
    rewrite (ticks_succ 25 s1), (Hticks 25%nat) by lia.
    set (t := set_currentFrameIndex 25 _).
    assert (Htick : after transitionTick t = after completeTransition t).
    { apply transitionTick_done. change (nth_error frames 25 = None). apply nth_error_None. lia. }
    rewrite Htick.
    destruct (completeTransition_moves_on t nextImg) as (H1 & H2 & H3 & H4 & H5 & H6 & H7 & H8 & H9);
      [exact Hu | exact Hn | reflexivity |].
    rewrite H8, H1, H2, H3, H4, H5, H6, H7, H9. subst t s1. simpl.
    rewrite imagesWritten_app, imagesWritten_frames, firstn_all2 by lia.
    rewrite <- app_assoc. repeat split.
Qed.

End PlaybackFacts.

(** ** Display updates settle *)

Section DisplaySettles.
Import Async Inv TeamsRotating Frame Display.
Context `{Js.Builtins}.

(** On an empty roster: the "No Users" image through the guard, and the
    title cleared when titles are shown. *)
Lemma updateDisplay_empty s :
  users s = [] ->
  after updateDisplay s
  = let s1 := after (setImageIfChanged Render.generateNoUsersImage "noUsers") s in
    if useDisplayNameAsTitle (settings s) then emit (SetTitle "") s1 else s1.
Proof.
  intros Hu. rewrite setImageIfChanged_after.
  unfold after, updateDisplay, setImageIfChanged, setImage, setTitle.
  unfold bind, get, modify, ret. simpl. rewrite Hu. simpl.
  case_bool_decide; simpl; destruct (useDisplayNameAsTitle (settings s)); reflexivity.
Qed.

(** Without a current image but with a next one: the next image is shown
    and becomes the current one, and a pre-fetch is started. *)
Lemma updateDisplay_fallback s image :
  users s <> [] -> currentAvatarImage s = None -> nextAvatarImage s = Some image ->
  after updateDisplay s
  = emit (SetTitle (titleOf s))
      (after prefetchNextAvatar
         (set_nextAvatarImage None
            (set_currentAvatarImage (Some image)
               (after (setImageIfChanged image (stateKey s)) s)))).
Proof.
  intros Hu Hc Hn. rewrite setImageIfChanged_after.
  unfold after, updateDisplay, setImageIfChanged, setImage, setTitle, titleOf.
  set (pre := prefetchNextAvatar). clearbody pre.
  unfold bind, get, modify, ret, spawn. simpl.
  rewrite (length_users_pos _ Hu), Hc, Hn. simpl.
  case_bool_decide; simpl; destruct (useDisplayNameAsTitle (settings s)); reflexivity.
Qed.

(** What a display update leaves on a non-empty roster when there is an
    image to show: that image as the current one, under the key of the
    current user. *)
Lemma updateDisplay_shows s image :
  users s <> [] ->
  currentAvatarImage s = Some image
  \/ (currentAvatarImage s = None /\ nextAvatarImage s = Some image) ->
  let s1 := after updateDisplay s in
  users s1 = users s /\ currentUserIndex s1 = currentUserIndex s
  /\ currentAvatarImage s1 = Some image
  /\ lastDisplayedState s1 = Some (stateKey s)
  /\ imagesWritten (out s1)
     = imagesWritten (out s)
       ++ (if bool_decide (lastDisplayedState s = Some (stateKey s)) then [] else [image]).
Proof.
  intros Hu [Hc | [Hc Hn]] s1; subst s1.
  - rewrite (updateDisplay_current s image Hu Hc), setImageIfChanged_after.
    case_bool_decide as Hk; simpl; rewrite ?imagesWritten_title, ?imagesWritten_image, ?app_nil_r;
      repeat split; assumption.
  - rewrite (updateDisplay_fallback s image Hu Hc Hn), setImageIfChanged_after.
    set (s0 := set_nextAvatarImage None _).
    pose proof (Keeps_after _ _ _ (prefetchNextAvatar_sameButNext s0) (sameButNext_refl s0)) as Hpre.
    unfold sameButNext in Hpre.
    destruct Hpre as (_ & Hu1 & Hi1 & Hc1 & _ & _ & _ & _ & Hl1 & _ & _ & Hw1).
    cbn [users currentUserIndex currentAvatarImage lastDisplayedState out emit set_out].
    rewrite imagesWritten_title, Hu1, Hi1, Hc1, Hl1, Hw1. subst s0.
    case_bool_decide as Hk; simpl; rewrite ?imagesWritten_image, ?app_nil_r;
      repeat split; assumption.
Qed.

(** X7.  A display update settles: a second [updateDisplay] right after a
    first one writes no image, whatever the session held, and changes
    neither the key on display nor the current image.  The first one puts
    on display the image it finds, the current one or else the next one,
    which it makes the current image, under the key of the current user,
    or the "No Users" image on an empty roster; it writes that image unless
    its key is on display already. *)
Theorem updateDisplay_settles (s : State) :
  let s1 := after updateDisplay s in
  let s2 := after updateDisplay s1 in
  imagesWritten (out s2) = imagesWritten (out s1)
  /\ lastDisplayedState s2 = lastDisplayedState s1
  /\ currentAvatarImage s2 = currentAvatarImage s1
  /\ (users s = [] ->
      lastDisplayedState s1 = Some "noUsers"
      /\ imagesWritten (out s1)
         = imagesWritten (out s)
           ++ (if bool_decide (lastDisplayedState s = Some "noUsers") then []
               else [Render.generateNoUsersImage]))
  /\ (forall image, users s <> [] ->
      currentAvatarImage s = Some image
      \/ (currentAvatarImage s = None /\ nextAvatarImage s = Some image) ->
      currentAvatarImage s1 = Some image
      /\ lastDisplayedState s1 = Some (stateKey s)
      /\ imagesWritten (out s1)
         = imagesWritten (out s)
           ++ (if bool_decide (lastDisplayedState s = Some (stateKey s)) then [] else [image])).
Proof.
  cbv zeta.
  assert (Hsettled : forall t image, users t <> [] -> currentAvatarImage t = Some image ->
            lastDisplayedState t = Some (stateKey t) ->
            imagesWritten (out (after updateDisplay t)) = imagesWritten (out t)
            /\ lastDisplayedState (after updateDisplay t) = lastDisplayedState t
            /\ currentAvatarImage (after updateDisplay t) = currentAvatarImage t).
  { intros t image Hu Hc Hl.
    destruct (updateDisplay_shows t image Hu (or_introl Hc)) as (_ & _ & E3 & E4 & E5).
    rewrite E3, E4, E5, (bool_decide_eq_true_2 _ Hl), app_nil_r, Hc, Hl. repeat split. }
  destruct (users s) as [| u us] eqn:Hus.
  - assert (E1 : after updateDisplay s
                 = let s1 := after (setImageIfChanged Render.generateNoUsersImage "noUsers") s in
                   if useDisplayNameAsTitle (settings s) then emit (SetTitle "") s1 else s1)
      by (apply updateDisplay_empty; exact Hus).
    cbv zeta in E1. rewrite setImageIfChanged_after in E1.
    set (s1 := after updateDisplay s) in *.
    assert (Hu1 : users s1 = []).
    { rewrite E1. destruct (useDisplayNameAsTitle (settings s)); case_bool_decide; exact Hus. }
    assert (Hl1 : lastDisplayedState s1 = Some "noUsers").
    { rewrite E1. destruct (useDisplayNameAsTitle (settings s)); case_bool_decide; simpl; auto. }
    rewrite (updateDisplay_empty s1 Hu1). cbv zeta.
    rewrite setImageIfChanged_after, (bool_decide_eq_true_2 _ Hl1).
    split; [destruct (useDisplayNameAsTitle (settings s1)); simpl;
            rewrite ?imagesWritten_title; reflexivity |].
    split; [destruct (useDisplayNameAsTitle (settings s1)); reflexivity |].
    split; [destruct (useDisplayNameAsTitle (settings s1)); reflexivity |].
    split; [| intros image Habs; congruence].
    intros _. split; [exact Hl1 |]. rewrite E1.
    destruct (useDisplayNameAsTitle (settings s)); case_bool_decide; simpl;
      rewrite ?imagesWritten_title, ?imagesWritten_image, ?app_nil_r; reflexivity.
  - assert (Hu : users s <> []) by congruence.
    assert (Hshow : forall image,
              currentAvatarImage s = Some image
              \/ (currentAvatarImage s = None /\ nextAvatarImage s = Some image) ->
              let s1 := after updateDisplay s in
              users s1 = users s /\ currentUserIndex s1 = currentUserIndex s
              /\ currentAvatarImage s1 = Some image
              /\ lastDisplayedState s1 = Some (stateKey s)
              /\ imagesWritten (out s1)
                 = imagesWritten (out s)
                   ++ (if bool_decide (lastDisplayedState s = Some (stateKey s)) then [] else [image]))
      by (intros image; apply updateDisplay_shows; exact Hu).
    cbv zeta in Hshow.
    assert (Hsecond : forall image,
              currentAvatarImage s = Some image
              \/ (currentAvatarImage s = None /\ nextAvatarImage s = Some image) ->
              imagesWritten (out (after updateDisplay (after updateDisplay s)))
              = imagesWritten (out (after updateDisplay s))
              /\ lastDisplayedState (after updateDisplay (after updateDisplay s))
                 = lastDisplayedState (after updateDisplay s)
              /\ currentAvatarImage (after updateDisplay (after updateDisplay s))
                 = currentAvatarImage (after updateDisplay s)).
    { intros image Himg. destruct (Hshow image Himg) as (E1 & E2 & E3 & E4 & _).
      apply (Hsettled _ image); [rewrite E1; exact Hu | exact E3 |].
      rewrite E4. f_equal. apply stateKey_ext; [now rewrite E1 | now rewrite E2]. }
    destruct (currentAvatarImage s) as [c |] eqn:Hc;
      [| destruct (nextAvatarImage s) as [n |] eqn:Hn].
    + destruct (Hsecond c (or_introl eq_refl)) as (A1 & A2 & A3).
      split; [exact A1 |]. split; [exact A2 |]. split; [exact A3 |].
      split; [intros Habs; congruence |].
      intros image _ Himg. destruct (Hshow image Himg) as (_ & _ & E3 & E4 & E5). auto.
    + destruct (Hsecond n (or_intror (conj eq_refl eq_refl))) as (A1 & A2 & A3).
      split; [exact A1 |]. split; [exact A2 |]. split; [exact A3 |].
      split; [intros Habs; congruence |].
      intros image _ Himg. destruct (Hshow image Himg) as (_ & _ & E3 & E4 & E5). auto.
    + rewrite (updateDisplay_no_image s Hu Hc Hn).
      assert (Hu1 : users (emit (SetTitle (titleOf s)) s) <> []) by exact Hu.
      rewrite (updateDisplay_no_image _ Hu1 Hc Hn). simpl.
      rewrite !imagesWritten_title.
      split; [reflexivity |]. split; [reflexivity |]. split; [reflexivity |].
      split; [intros Habs; congruence |].
      intros image _ [Habs | [_ Habs]]; congruence.
Qed.

End DisplaySettles.

(** ** The carousel goes round *)

Section RoundRobin.
Import Async Inv TeamsRotating Frame Display Carousel.
Context `{Js.Builtins}.

Lemma showNextUser_position s i :
  users s <> [] -> currentUserIndex s = Js.Idx i ->
  users (after showNextUser s) = users s
  /\ currentUserIndex (after showNextUser s) = Js.Idx ((i + 1) mod length (users s)).
Proof.
  intros Hu Hi. destruct (showNextUser_sameRoster s Hu) as (E1 & E2 & _).
  rewrite E1, E2. simpl. rewrite Hi. destruct (users s); [congruence |]. split; reflexivity.
Qed.

Lemma switches_position k : forall s i,
  users s <> [] -> currentUserIndex s = Js.Idx i -> (i < length (users s))%nat ->
  users (switches k s) = users s
  /\ currentUserIndex (switches k s) = Js.Idx ((i + k) mod length (users s)).
Proof.
  induction k as [| k IH]; intros s i Hu Hi Hlt; simpl.
  - rewrite Nat.add_0_r, Nat.mod_small by exact Hlt. auto.
  - destruct (showNextUser_position s i Hu Hi) as [E1 E2].
    assert (Hn : length (users s) <> 0%nat) by (destruct (users s); [congruence | discriminate]).
    destruct (IH (after showNextUser s) ((i + 1) mod length (users s))%nat) as [F1 F2].
    + now rewrite E1.
    + exact E2.
    + rewrite E1. now apply Nat.mod_upper_bound.
    + rewrite F1, F2, E1. split; [reflexivity |].
      rewrite Nat.Div0.add_mod_idemp_l. do 2 f_equal. lia.
Qed.

(** X8.  Instant switches go round the roster.  On a non-empty roster of
    [n] users with the position [i] in range, [k] calls of [showNextUser]
    leave the roster as it is and the position at [(i + k) mod n]: one call
    moves to the following user, wrapping from the last to the first, [n]
    calls come back to the user they started from, and every user of the
    roster is reached within [n - 1] calls. *)
Theorem carousel_round_robin (s : State) (i : nat) :
  users s <> [] -> currentUserIndex s = Js.Idx i -> (i < length (users s))%nat ->
  let n := length (users s) in
  (forall k, users (switches k s) = users s
             /\ currentUserIndex (switches k s) = Js.Idx ((i + k) mod n))
  /\ currentUserIndex (switches n s) = Js.Idx i
  /\ (forall j, (j < n)%nat ->
        exists k, (k < n)%nat /\ currentUserIndex (switches k s) = Js.Idx j
                  /\ Js.at_index (users (switches k s)) (currentUserIndex (switches k s))
                     = nth_error (users s) j).
Proof.
  intros Hu Hi Hlt n.
  assert (Hn : n <> 0%nat) by (subst n; lia).
  split; [intros k; apply switches_position; assumption |]. split.
  - rewrite (proj2 (switches_position n s i Hu Hi Hlt)). fold n. f_equal.
    rewrite <- Nat.Div0.add_mod_idemp_r, Nat.Div0.mod_same, Nat.add_0_r.
    now apply Nat.mod_small.
  - intros j Hj. exists ((j + n - i) mod n)%nat.
    split; [now apply Nat.mod_upper_bound |].
    destruct (switches_position ((j + n - i) mod n)%nat s i Hu Hi Hlt) as [E1 E2].
    fold n in E2.
    assert (E : ((i + (j + n - i) mod n) mod n = j)%nat).
    { rewrite Nat.Div0.add_mod_idemp_r. replace (i + (j + n - i))%nat with (j + 1 * n)%nat by lia.
      rewrite Nat.Div0.mod_add. now apply Nat.mod_small. }
    rewrite E in E2. rewrite E1, E2. split; reflexivity.
Qed.

End RoundRobin.

(** ** The single avatar: a poll that succeeds *)

(** A leaf of the case analysis of a poll: the three parts of
    [Single.consistent] at the state the poll has left. *)
Ltac single_leaf :=
  repeat case_bool_decide; simpl;
  (split; [| split]);
  first [reflexivity | assumption | discriminate ].

Section SinglePoll.
Import Async TeamsAvatar.
Context `{Js.Builtins}.

(** X9.  A poll of the single-avatar action with complete settings, an
    avatar at hand (in the cache under the email, or else sent by the
    avatar webhook) and a messages webhook that answers with an array.
    The avatar webhook is requested only when the cache has no entry for
    the email, the messages webhook always; the avatar is stored under the
    email as the webhook sent it; the count becomes the number of messages.
    If the avatar loads, the image put on display is the avatar with that
    count drawn over it, under the key made of the email and the count, and
    it is written unless that key is on display already.  If it does not
    load (the webhook sent something that is no image) the poll ends on the
    error image, with the avatar cached all the same. *)
Theorem single_avatar_poll (net : string -> FetchResult) (s : State)
    (email avatarUrl messagesUrl : string) (avatar : DataUrl)
    (messagesResponse : Response) (items : list UserEntry) :
  userEmail (settings s) = Some email -> email <> "" ->
  avatarWebhookUrl (settings s) = Some avatarUrl -> avatarUrl <> "" ->
  messagesWebhookUrl (settings s) = Some messagesUrl -> messagesUrl <> "" ->
  let avatarRequest := avatarUrl +:+ "?user=" +:+ Js.encodeURIComponent email in
  let messagesRequest := messagesUrl +:+ "?user=" +:+ Js.encodeURIComponent email in
  match avatarCache s !! email with
  | Some image => avatar = image
  | None => exists response blob,
      net avatarRequest = Responded response /\ resp_ok response = true
      /\ resp_blob response = Some blob /\ avatar = DataUrlOfBlob blob
  end ->
  net messagesRequest = Responded messagesResponse ->
  resp_ok messagesResponse = true -> resp_json messagesResponse = Some (JsonArray items) ->
  let r := run net (fetchData s) in
  let count := Z.of_nat (length items) in
  let key := "avatar:" +:+ email +:+ "_" +:+ pretty count in
  outcome r = Returned tt
  /\ fetched r = match avatarCache s !! email with
                 | Some _ => [messagesRequest]
                 | None => [avatarRequest; messagesRequest]
                 end
  /\ avatarImage (final r) = Some avatar
  /\ avatarCache (final r) = <[email := avatar]> (avatarCache s)
  /\ messages (final r) = items
  /\ unreadCount (final r) = count
  /\ (if loads avatar then
        lastDisplayedImageState (final r) = Some key
        /\ imagesWritten (out (final r))
           = imagesWritten (out s)
             ++ (if bool_decide (lastDisplayedImageState s = Some key) then []
                 else [DataUrlOfCanvas (Render.overlayCanvas avatar count)])
      else
        lastDisplayedImageState (final r) = Some "error"
        /\ imagesWritten (out (final r))
           = imagesWritten (out s)
             ++ (if bool_decide (lastDisplayedImageState s = Some "error") then []
                 else [Render.generateErrorImage])).
Proof.
  intros He Hne Ha Hna Hm Hnm avatarRequest messagesRequest Hav Hnet Hok Hjson r count key.
  subst r count key avatarRequest messagesRequest.
  unfold fetchData, updateDisplay, setImageIfChanged, setImage, overlayCountOnImage,
    blobToDataUrl, log, emit.
  destruct s as [[ru au mu ue ut] img msgs n cache last o].
  unfold bind, try_catch, try_finally, get, modify, ret, throw, fetch, await, spawn.
  simpl in *. subst ue au mu. simpl.
  destruct (String.eqb_spec email ""); [contradiction |].
  destruct (String.eqb_spec avatarUrl ""); [contradiction |].
  destruct (String.eqb_spec messagesUrl ""); [contradiction |].
  simpl.
  destruct messagesResponse as [ok' blob' json']. simpl in Hok, Hjson. subst ok' json'.
  destruct (cache !! email) as [hit |] eqn:Hc; simpl.
  - subst hit. rewrite Hnet. simpl. rewrite insert_id by exact Hc.
    unfold Render.overlayCountResult. destruct (loads avatar); simpl.
    all: case_bool_decide; simpl;
      rewrite ?imagesWritten_image, ?imagesWritten_log, ?app_nil_r; repeat split; assumption.
  - destruct Hav as (response & blob & Hnav & Hoka & Hblob & ->).
    rewrite Hnav. destruct response as [ok blob0 json]. simpl in Hoka, Hblob. subst ok blob0.
    simpl. rewrite Hnet. simpl.
    unfold Render.overlayCountResult. simpl. destruct (blob_isImage blob); simpl.
    all: case_bool_decide; simpl;
      rewrite ?imagesWritten_image, ?imagesWritten_log, ?app_nil_r; repeat split; assumption.
Qed.

(** X10.  What every poll of the single-avatar action keeps: in the state
    the constructor leaves, and after every poll that starts from such a
    state, whatever the network answers, the count is the number of
    messages held, and the avatar and every cache entry are data URLs of
    blobs, base avatars without a count drawn on them. *)
Theorem single_avatar_consistent (net : string -> FetchResult) :
  (forall config, Single.consistent (initial config))
  /\ (forall s, Single.consistent s -> Single.consistent (final (run net (fetchData s)))).
Proof.
  split.
  - intros config. unfold Single.consistent, initial. simpl.
    split; [reflexivity |]. split; [discriminate |].
    intros key image Habs. rewrite lookup_empty in Habs. discriminate.
  - intros s (Hn & Himg & Hcache).
    unfold fetchData, updateDisplay, setImageIfChanged, setImage, overlayCountOnImage,
      blobToDataUrl, log, emit.
    destruct s as [cfg img msgs n cache last o].
    unfold bind, try_catch, try_finally, get, modify, ret, throw, fetch, await, spawn.
    unfold Single.consistent in *. simpl in *.
    assert (Hins : forall blob key image,
              <[Js.show (userEmail cfg) := DataUrlOfBlob blob]> cache !! key = Some image ->
              exists blob', image = DataUrlOfBlob blob').
    { intros blob key image.
      destruct (decide (Js.show (userEmail cfg) = key)) as [<- | Hk].
      - rewrite lookup_insert_eq. intros [= <-]. now exists blob.
      - rewrite lookup_insert_ne by exact Hk. apply Hcache. }
    assert (Hhit : forall hit, cache !! Js.show (userEmail cfg) = Some hit ->
              forall image, Some hit = Some image -> exists blob, image = DataUrlOfBlob blob).
    { intros hit Hc image [= <-]. exact (Hcache _ _ Hc). }
    assert (Hnew : forall blob image, Some (DataUrlOfBlob blob) = Some image ->
              exists blob', image = DataUrlOfBlob blob').
    { intros blob image [= <-]. now exists blob. }
    assert (Hold : forall image, img = Some image -> exists blob, image = DataUrlOfBlob blob)
      by exact Himg.
    clear Himg.
    destruct (Js.truthy (userEmail cfg)); simpl; [| single_leaf].
    destruct (Js.truthy (avatarWebhookUrl cfg)); simpl; [| single_leaf].
    destruct (Js.truthy (messagesWebhookUrl cfg)); simpl; [| single_leaf].
    destruct (cache !! Js.show (userEmail cfg)) as [hit |] eqn:Hc; simpl.
    + specialize (Hhit hit eq_refl).
      destruct (net _) as [[ok blob json] | e]; simpl; [| single_leaf].
      destruct ok; simpl.
      * destruct json as [[items |] |]; simpl.
        all: unfold Render.overlayCountResult; destruct (loads hit); simpl.
        all: single_leaf.
      * unfold Render.overlayCountResult; destruct (loads hit); simpl.
        all: single_leaf.
    + destruct (net (Js.show (avatarWebhookUrl cfg) +:+ _)) as [[ok blob json] | e]; simpl;
        [| single_leaf].
      destruct ok; simpl.
      * destruct blob as [blob |]; simpl; [| single_leaf].
        specialize (Hins blob). specialize (Hnew blob).
        destruct (net (Js.show (messagesWebhookUrl cfg) +:+ _)) as [[ok' blob' json'] | e']; simpl;
          [| single_leaf].
        destruct ok'; simpl.
        -- destruct json' as [[items |] |]; simpl.
           all: unfold Render.overlayCountResult; simpl; destruct (blob_isImage blob); simpl.
           all: single_leaf.
        -- unfold Render.overlayCountResult; simpl; destruct (blob_isImage blob); simpl.
           all: single_leaf.
      * destruct (net (Js.show (messagesWebhookUrl cfg) +:+ _)) as [[ok' blob' json'] | e']; simpl;
          [| single_leaf].
        destruct ok'; simpl.
        -- destruct json' as [[items |] |]; simpl.
           all: destruct img as [image |]; simpl; [| single_leaf].
           all: unfold Render.overlayCountResult; destruct (loads image); simpl.
           all: single_leaf.
        -- destruct img as [image |]; simpl; [| single_leaf].
           all: unfold Render.overlayCountResult; destruct (loads image); simpl.
           all: single_leaf.
Qed.

End SinglePoll.

(** ** Invariants with a condition on the value returned *)

Section PostFacts.
Import Async Post.
Context {St : Type} (R : St -> Prop).

Lemma ensures_bindAct {A B : Type} (Q : A -> Prop) (Q' : B -> Prop)
    (m : Act St A) (f : A -> Prog St B) :
  ensures R Q m -> (forall a, Q a -> Ensures R Q' (f a)) -> ensures R Q' (bindAct m f).
Proof.
  revert B Q' f.
  induction m as [A s a | A s e | A s url k IH | A s k IH | A c _ k IH];
    intros B Q' f Hm Hf; simpl in *.
  - destruct Hm as [Hs Ha]. now apply Hf.
  - exact Hm.
  - destruct Hm as [Hs Hk]. split; [exact Hs |]. intros r s' Hs'. apply (IH r s' Q); auto.
  - destruct Hm as [Hs Hk]. split; [exact Hs |]. intros s' Hs'. apply (IH s' Q); auto.
  - destruct Hm as [Hc Hk]. split; [exact Hc |]. intros s' Hs'. apply (IH s' Q); auto.
Qed.

Lemma ensures_catchAct {A : Type} (Q : A -> Prop) (m : Act St A) (h : string -> Prog St A) :
  ensures R Q m -> (forall e, Ensures R Q (h e)) -> ensures R Q (catchAct m h).
Proof.
  revert h.
  induction m as [A s a | A s e | A s url k IH | A s k IH | A c _ k IH];
    intros h Hm Hh; simpl in *.
  - exact Hm.
  - now apply Hh.
  - destruct Hm as [Hs Hk]. split; [exact Hs |]. intros r s' Hs'. apply IH; auto.
  - destruct Hm as [Hs Hk]. split; [exact Hs |]. intros s' Hs'. apply IH; auto.
  - destruct Hm as [Hc Hk]. split; [exact Hc |]. intros s' Hs'. apply IH; auto.
Qed.

Lemma ensures_finallyAct {A : Type} (Q : A -> Prop) (m : Act St A) (f : St -> St) :
  ensures R Q m -> (forall s, R s -> R (f s)) -> ensures R Q (finallyAct m f).
Proof.
  intros Hm Hf.
  induction m as [A s a | A s e | A s url k IH | A s k IH | A c _ k IH]; simpl in *.
  - destruct Hm as [Hs Ha]. split; [now apply Hf | exact Ha].
  - now apply Hf.
  - destruct Hm as [Hs Hk]. split; [exact Hs |]. intros r s' Hs'. apply IH; auto.
  - destruct Hm as [Hs Hk]. split; [exact Hs |]. intros s' Hs'. apply IH; auto.
  - destruct Hm as [Hc Hk]. split; [exact Hc |]. intros s' Hs'. apply IH; auto.
Qed.

Lemma Ensures_bind {A B : Type} (Q : A -> Prop) (Q' : B -> Prop)
    (m : Prog St A) (f : A -> Prog St B) :
  Ensures R Q m -> (forall a, Q a -> Ensures R Q' (f a)) -> Ensures R Q' (bind m f).
Proof. intros Hm Hf s Hs. apply (ensures_bindAct Q); [now apply Hm | exact Hf]. Qed.

(** What [get] returns is a state that satisfies the invariant. *)
Lemma Ensures_bind_get {B : Type} (Q' : B -> Prop) (f : St -> Prog St B) :
  (forall s0, R s0 -> Ensures R Q' (f s0)) -> Ensures R Q' (bind get f).
Proof. intros Hf s Hs. unfold bind, get. simpl. now apply Hf. Qed.

Lemma Ensures_try_catch {A : Type} (Q : A -> Prop) (m : Prog St A) (h : string -> Prog St A) :
  Ensures R Q m -> (forall e, Ensures R Q (h e)) -> Ensures R Q (try_catch m h).
Proof. intros Hm Hh s Hs. apply ensures_catchAct; [now apply Hm | exact Hh]. Qed.

Lemma Ensures_try_finally {A : Type} (Q : A -> Prop) (m : Prog St A) (f : St -> St) :
  Ensures R Q m -> (forall s, R s -> R (f s)) -> Ensures R Q (try_finally m f).
Proof. intros Hm Hf s Hs. apply ensures_finallyAct; [now apply Hm | exact Hf]. Qed.

Lemma Ensures_ret {A : Type} (Q : A -> Prop) (a : A) : Q a -> Ensures R Q (ret a).
Proof. intros Ha s Hs. split; assumption. Qed.

Lemma Ensures_throw {A : Type} (Q : A -> Prop) (e : string) : Ensures R Q (@throw St A e).
Proof. intros s Hs. exact Hs. Qed.

Lemma Ensures_modify (f : St -> St) :
  (forall s, R s -> R (f s)) -> Ensures R (fun _ => True) (modify f).
Proof. intros Hf s Hs. split; [now apply Hf | exact I]. Qed.

Lemma Ensures_fetch (url : string) : Ensures R (fun _ => True) (fetch url).
Proof.
  intros s Hs. split; [exact Hs |]. intros [resp | e] s' Hs'; simpl; [split |]; auto.
Qed.

Lemma Ensures_await {A : Type} (Q : A -> Prop) (v : option A) :
  (forall a, v = Some a -> Q a) -> Ensures R Q (await v).
Proof.
  intros Hv s Hs. split; [exact Hs |]. intros s' Hs'. destruct v as [a |]; simpl; [split |]; auto.
Qed.

Lemma Ensures_spawn (m : Prog St unit) :
  Ensures R (fun _ => True) m -> Ensures R (fun _ => True) (spawn m).
Proof. intros Hm s Hs. split; [now apply Hm |]. intros s' Hs'. split; [exact Hs' | exact I]. Qed.

(** The invariant holds when control comes back to the caller, when the
    method has run to its end, and when a method left suspended is resumed
    and run to its end. *)
Lemma ensures_prefix {A : Type} (Q : A -> Prop) (m : Act St A) :
  ensures R Q m -> R (final (prefix m)).
Proof.
  revert Q.
  induction m as [A s a | A s e | A s url k IH | A s k IH | A c IHc k IH]; intros Q; simpl;
    try tauto.
  intros [Hc Hk]. eapply IH, Hk, IHc, Hc.
Qed.

Lemma ensures_run {A : Type} (Q : A -> Prop) (net : string -> FetchResult) (m : Act St A) :
  ensures R Q m -> R (final (run net m)).
Proof.
  revert Q.
  induction m as [A s a | A s e | A s url k IH | A s k IH | A c IHc k IH]; intros Q; simpl;
    try tauto.
  - intros [Hs Hk]. eapply IH, Hk, Hs.
  - intros [Hs Hk]. eapply IH, Hk, Hs.
  - intros [Hc Hk]. eapply IH, Hk. eapply ensures_prefix, Hc.
Qed.

Lemma ensures_resume {A : Type} (Q : A -> Prop) (net : string -> FetchResult) (m : Act St A) s :
  ensures R Q m -> R s -> ensures R Q (resume net m s).
Proof.
  destruct m as [s0 a | s0 e | s0 url k | s0 k | c k]; simpl; intros Hm Hs;
    first [exact Hm | apply Hm; exact Hs].
Qed.

Lemma ensures_detached_prefix {A : Type} (Q : A -> Prop) (m : Act St A) :
  ensures R Q m ->
  List.Forall (fun task => ensures R (fun _ => True) task /\ outcome (prefix task) = Suspended)
    (detached (prefix m)).
Proof.
  revert Q.
  induction m as [A s a | A s e | A s url k IH | A s k IH | A c IHc k IH]; intros Q; simpl;
    try (intros; constructor).
  intros [Hc Hk]. rewrite !List.Forall_app. split; [eapply IHc, Hc |]. split.
  - destruct (outcome (prefix c)) eqn:Ho; constructor; auto.
  - eapply IH, Hk. eapply ensures_prefix, Hc.
Qed.

Lemma ensures_detached {A : Type} (Q : A -> Prop) (net : string -> FetchResult) (m : Act St A) :
  ensures R Q m ->
  List.Forall (fun task => ensures R (fun _ => True) task /\ outcome (prefix task) = Suspended)
    (detached (run net m)).
Proof.
  revert Q.
  induction m as [A s a | A s e | A s url k IH | A s k IH | A c IHc k IH]; intros Q; simpl;
    try (intros; constructor).
  - intros [Hs Hk]. eapply IH, Hk, Hs.
  - intros [Hs Hk]. eapply IH, Hk, Hs.
  - intros [Hc Hk]. rewrite !List.Forall_app. split; [eapply ensures_detached_prefix, Hc |]. split.
    + destruct (outcome (prefix c)) eqn:Ho; constructor; auto.
    + eapply IH, Hk. eapply ensures_prefix, Hc.
Qed.

End PostFacts.

(** ** Every image the carousel holds can be loaded *)

(** Side conditions: a state update keeps the images loadable. *)
Ltac loadable_side :=
  cbv [Images.loadable TeamsRotating.set_image TeamsRotating.set_fetching TeamsRotating.emit] in *;
  intros;
  repeat match goal with
         | sl : TeamsRotating.Slot |- _ => destruct sl
         | Hl : _ /\ _ |- _ => destruct Hl
         end;
  cbn;
  repeat match goal with |- _ /\ _ => split end;
  intros;
  repeat match goal with
         | Hi : <[_ := _]> _ !! _ = Some _ |- _ =>
             apply lookup_insert_Some in Hi; destruct Hi as [[_ <-] | [_ Hi]]
         | Hi : Some _ = Some _ |- _ => injection Hi as <-
         end;
  first [assumption | discriminate | (rewrite lookup_empty in *; discriminate) | eauto].

Section OverlayLoads.
Import Async Post TeamsRotating.

Lemma overlayCountOnImage_loads (R : State -> Prop) imageDataUrl count :
  Ensures R (fun image => loads image = true) (overlayCountOnImage imageDataUrl count).
Proof.
  unfold overlayCountOnImage. apply Ensures_await.
  unfold Render.overlayCountResult. intros image. destruct (loads imageDataUrl); [| discriminate].
  now intros [= <-].
Qed.

End OverlayLoads.

(** Goals [Ensures R _ m] are solved along the syntax of [m], the side
    conditions on state updates by [side]. *)
Ltac ensures_step_by side :=
  lazymatch goal with
  | |- Post.Ensures _ _ (Async.bind Async.get _) =>
      apply Ensures_bind_get; intros ? ?
  | |- Post.Ensures _ _ (Async.bind (TeamsRotating.overlayCountOnImage _ _) _) =>
      apply (Ensures_bind _ (fun image => loads image = true));
      [apply overlayCountOnImage_loads | intros ? ?]
  | |- Post.Ensures _ _ (Async.bind _ _) =>
      apply (Ensures_bind _ (fun _ => True)); [| intros ? _]
  | |- Post.Ensures _ _ (Async.try_finally _ _) => apply Ensures_try_finally
  | |- Post.Ensures _ _ (Async.try_catch _ _) => apply Ensures_try_catch; [| intros ?]
  | |- Post.Ensures _ _ (Async.ret _) => apply Ensures_ret; exact I
  | |- Post.Ensures _ _ (Async.throw _) => apply Ensures_throw
  | |- Post.Ensures _ _ (Async.fetch _) => apply Ensures_fetch
  | |- Post.Ensures _ _ (Async.await _) => apply Ensures_await; intros; exact I
  | |- Post.Ensures _ _ (Async.spawn _) => apply Ensures_spawn
  | |- Post.Ensures _ _ (Async.modify _) => apply Ensures_modify; side
  | |- Post.Ensures _ _ (if ?b then _ else _) => destruct b
  | |- Post.Ensures _ _ (match ?x with _ => _ end) => destruct x eqn:?
  | |- forall _, _ -> _ => side
  end.

Ltac ensures_step := ensures_step_by ltac:(loadable_side).

Section LoadableFacts.
Import Async Post TeamsRotating Images Playback.
Context `{Js.Builtins}.


Lemma resolveAvatar_loadable slot user :
  Ensures loadable (fun _ => True) (resolveAvatar slot user).
Proof.
  unfold resolveAvatar, compositeAndCache, blobToDataUrl, log.
  repeat ensures_step.
Qed.

Lemma prefetchNextAvatar_loadable : Ensures loadable (fun _ => True) prefetchNextAvatar.
Proof.
  unfold prefetchNextAvatar. repeat first [apply resolveAvatar_loadable | ensures_step].
Qed.

Lemma prefetchCurrentAvatar_loadable : Ensures loadable (fun _ => True) prefetchCurrentAvatar.
Proof.
  unfold prefetchCurrentAvatar. repeat first [apply resolveAvatar_loadable | ensures_step].
Qed.

Lemma setImageIfChanged_loadable image key :
  Ensures loadable (fun _ => True) (setImageIfChanged image key).
Proof. unfold setImageIfChanged, setImage. repeat ensures_step. Qed.

Lemma updateDisplay_loadable : Ensures loadable (fun _ => True) updateDisplay.
Proof.
  unfold updateDisplay, setTitle.
  repeat first [apply setImageIfChanged_loadable | apply prefetchNextAvatar_loadable | ensures_step].
Qed.

Lemma showNextUser_loadable : Ensures loadable (fun _ => True) showNextUser.
Proof.
  unfold showNextUser.
  repeat first [apply setImageIfChanged_loadable | apply prefetchNextAvatar_loadable
               | apply updateDisplay_loadable | ensures_step].
Qed.

Lemma forceCompleteTransition_loadable : Ensures loadable (fun _ => True) forceCompleteTransition.
Proof.
  unfold forceCompleteTransition.
  repeat first [apply prefetchNextAvatar_loadable | apply updateDisplay_loadable | ensures_step].
Qed.

Lemma completeTransition_loadable : Ensures loadable (fun _ => True) completeTransition.
Proof.
  unfold completeTransition.
  repeat first [apply prefetchNextAvatar_loadable | apply updateDisplay_loadable | ensures_step].
Qed.

Lemma safetyTimeoutFires_loadable : Ensures loadable (fun _ => True) safetyTimeoutFires.
Proof.
  unfold safetyTimeoutFires, log.
  repeat first [apply forceCompleteTransition_loadable | ensures_step].
Qed.

Lemma transitionTick_loadable : Ensures loadable (fun _ => True) transitionTick.
Proof.
  unfold transitionTick, setImage.
  repeat first [apply completeTransition_loadable | ensures_step].
Qed.

Lemma showNextUserWithTransition_loadable :
  Ensures loadable (fun _ => True) showNextUserWithTransition.
Proof.
  unfold showNextUserWithTransition, generateTransitionFrames, playTransition, loadImage, log.
  repeat first [apply showNextUser_loadable | ensures_step].
Qed.

Lemma fetchUsersData_loadable : Ensures loadable (fun _ => True) fetchUsersData.
Proof.
  unfold fetchUsersData, log.
  repeat first [apply setImageIfChanged_loadable | apply prefetchNextAvatar_loadable
               | apply prefetchCurrentAvatar_loadable | apply updateDisplay_loadable
               | ensures_step].
Qed.

(** The methods already dealt with, recognised by name. *)
Ltac known_loadable :=
  lazymatch goal with
  | |- Ensures _ _ fetchUsersData => apply fetchUsersData_loadable
  | |- Ensures _ _ showNextUser => apply showNextUser_loadable
  | |- Ensures _ _ showNextUserWithTransition => apply showNextUserWithTransition_loadable
  end.

Lemma handler_loadable e : Ensures loadable (fun _ => True) (Session.handler e).
Proof.
  destruct e as [| settings | | | disableAnimation | |]; simpl.
  - unfold Lifecycle.onWillAppear, Lifecycle.startPolling, Lifecycle.startCarousel,
      Lifecycle.stopCarousel, setImage.
    repeat first [known_loadable | ensures_step].
  - unfold Lifecycle.onDidReceiveSettings, Lifecycle.startPolling, Lifecycle.startCarousel,
      Lifecycle.stopCarousel.
    repeat first [known_loadable | ensures_step].
  - apply showNextUser_loadable.
  - apply fetchUsersData_loadable.
  - unfold Lifecycle.carouselTick.
    repeat first [known_loadable | ensures_step].
  - apply transitionTick_loadable.
  - apply safetyTimeoutFires_loadable.
Qed.

End LoadableFacts.

(** ** Moves of the state between two awaits *)

Section MovesFacts.
Import Async Moves.
Context {St : Type} (P : St -> St -> Prop).
Hypothesis P_refl : forall s, P s s.
Hypothesis P_trans : forall s1 s2 s3, P s1 s2 -> P s2 s3 -> P s1 s3.

Lemma follows_from {A : Type} (m : Act St A) s0 s1 :
  P s0 s1 -> follows P s1 m -> follows P s0 m.
Proof.
  intros H01.
  induction m as [A s a | A s e | A s url k IH | A s k IH | A c IHc k IH]; simpl.
  - now apply P_trans.
  - now apply P_trans.
  - intros [Hs Hk]. split; [now apply (P_trans _ s1) | exact Hk].
  - intros [Hs Hk]. split; [now apply (P_trans _ s1) | exact Hk].
  - intros [Hc Hk]. split; [now apply IHc | exact Hk].
Qed.

Lemma follows_bindAct {A B : Type} (m : Act St A) (f : A -> Prog St B) s0 :
  follows P s0 m -> (forall a, Follows P (f a)) -> follows P s0 (bindAct m f).
Proof.
  revert B f s0.
  induction m as [A s a | A s e | A s url k IH | A s k IH | A c _ k IH];
    intros B f s0 Hm Hf; simpl in *.
  - apply (follows_from _ s0 s); [exact Hm | apply Hf].
  - exact Hm.
  - destruct Hm as [Hs Hk]. split; [exact Hs |]. intros r s'. apply IH; auto.
  - destruct Hm as [Hs Hk]. split; [exact Hs |]. intros s'. apply IH; auto.
  - destruct Hm as [Hc Hk]. split; [exact Hc |]. intros s'. apply IH; auto.
Qed.

Lemma follows_catchAct {A : Type} (m : Act St A) (h : string -> Prog St A) s0 :
  follows P s0 m -> (forall e, Follows P (h e)) -> follows P s0 (catchAct m h).
Proof.
  revert h s0.
  induction m as [A s a | A s e | A s url k IH | A s k IH | A c _ k IH];
    intros h s0 Hm Hh; simpl in *.
  - exact Hm.
  - apply (follows_from _ s0 s); [exact Hm | apply Hh].
  - destruct Hm as [Hs Hk]. split; [exact Hs |]. intros r s'. apply IH; auto.
  - destruct Hm as [Hs Hk]. split; [exact Hs |]. intros s'. apply IH; auto.
  - destruct Hm as [Hc Hk]. split; [exact Hc |]. intros s'. apply IH; auto.
Qed.

Lemma follows_finallyAct {A : Type} (m : Act St A) (f : St -> St) s0 :
  follows P s0 m -> (forall s, P s (f s)) -> follows P s0 (finallyAct m f).
Proof.
  intros Hm Hf. revert s0 Hm.
  induction m as [A s a | A s e | A s url k IH | A s k IH | A c _ k IH]; intros s0 Hm; simpl in *.
  - apply (P_trans _ s); [exact Hm | apply Hf].
  - apply (P_trans _ s); [exact Hm | apply Hf].
  - destruct Hm as [Hs Hk]. split; [exact Hs |]. intros r s'. apply IH; auto.
  - destruct Hm as [Hs Hk]. split; [exact Hs |]. intros s'. apply IH; auto.
  - destruct Hm as [Hc Hk]. split; [exact Hc |]. intros s'. apply IH; auto.
Qed.

Lemma Follows_bind {A B : Type} (m : Prog St A) (f : A -> Prog St B) :
  Follows P m -> (forall a, Follows P (f a)) -> Follows P (bind m f).
Proof. intros Hm Hf s. apply follows_bindAct; [apply Hm | exact Hf]. Qed.

Lemma Follows_try_catch {A : Type} (m : Prog St A) (h : string -> Prog St A) :
  Follows P m -> (forall e, Follows P (h e)) -> Follows P (try_catch m h).
Proof. intros Hm Hh s. apply follows_catchAct; [apply Hm | exact Hh]. Qed.

Lemma Follows_try_finally {A : Type} (m : Prog St A) (f : St -> St) :
  Follows P m -> (forall s, P s (f s)) -> Follows P (try_finally m f).
Proof. intros Hm Hf s. apply follows_finallyAct; [apply Hm | exact Hf]. Qed.

Lemma Follows_ret {A : Type} (a : A) : Follows P (ret a).
Proof. intros s. apply P_refl. Qed.

Lemma Follows_throw {A : Type} (e : string) : Follows P (@throw St A e).
Proof. intros s. apply P_refl. Qed.

Lemma Follows_get : Follows P get.
Proof. intros s. apply P_refl. Qed.

Lemma Follows_modify (f : St -> St) : (forall s, P s (f s)) -> Follows P (modify f).
Proof. intros Hf s. apply Hf. Qed.

Lemma Follows_fetch (url : string) : Follows P (fetch url).
Proof. intros s. split; [apply P_refl |]. intros [resp | e] s'; apply P_refl. Qed.

Lemma Follows_await {A : Type} (v : option A) : Follows P (await v).
Proof. intros s. split; [apply P_refl |]. intros s'. destruct v; apply P_refl. Qed.

Lemma Follows_spawn (m : Prog St unit) : Follows P m -> Follows P (spawn m).
Proof. intros Hm s. split; [apply Hm |]. intros s'. apply P_refl. Qed.

Lemma follows_prefix {A : Type} (m : Act St A) s0 : follows P s0 m -> P s0 (final (prefix m)).
Proof.
  revert s0.
  induction m as [A s a | A s e | A s url k IH | A s k IH | A c IHc k IH]; intros s0; simpl;
    try tauto.
  intros [Hc Hk]. apply (P_trans _ (final (prefix c))); [now apply IHc | apply IH, Hk].
Qed.

Lemma follows_run {A : Type} (net : string -> FetchResult) (m : Act St A) s0 :
  follows P s0 m -> P s0 (final (run net m)).
Proof.
  revert s0.
  induction m as [A s a | A s e | A s url k IH | A s k IH | A c IHc k IH]; intros s0; simpl;
    try tauto.
  - intros [Hs Hk]. apply (P_trans _ s); [exact Hs | apply IH, Hk].
  - intros [Hs Hk]. apply (P_trans _ s); [exact Hs | apply IH, Hk].
  - intros [Hc Hk]. apply (P_trans _ (final (prefix c))); [now apply follows_prefix | apply IH, Hk].
Qed.

(** What a method leaves suspended moves the state along [P] when it is
    resumed. *)
Lemma follows_residual {A : Type} (m : Act St A) s0 :
  follows P s0 m ->
  forall t, Session.residual m = Some t -> forall net s, follows P s (resume net t s).
Proof.
  revert s0.
  induction m as [A s a | A s e | A s url k IH | A s k IH | A c _ k IH]; intros s0 Hm t; simpl;
    try discriminate.
  - intros [= <-] net s1. simpl. apply Hm.
  - intros [= <-] net s1. simpl. apply Hm.
  - destruct Hm as [Hc Hk]. apply (IH _ _ (Hk _)).
Qed.

Lemma follows_detached {A : Type} (m : Act St A) s0 :
  follows P s0 m -> List.Forall (fun c => exists s1, follows P s1 c) (detached (prefix m)).
Proof.
  revert s0.
  induction m as [A s a | A s e | A s url k IH | A s k IH | A c IHc k IH]; intros s0; simpl;
    try (intros; constructor).
  intros [Hc Hk]. rewrite !List.Forall_app. split; [eapply IHc, Hc |]. split.
  - destruct (outcome (prefix c)); constructor; eauto.
  - eapply IH, Hk.
Qed.

End MovesFacts.

(** ** The cache only grows *)

Lemma cacheGrows_refl s : Images.cacheGrows s s.
Proof. intros key Hk. exact Hk. Qed.

Lemma cacheGrows_trans s1 s2 s3 :
  Images.cacheGrows s1 s2 -> Images.cacheGrows s2 s3 -> Images.cacheGrows s1 s3.
Proof. intros H12 H23 key Hk. apply H23, H12, Hk. Qed.

(** Side conditions: a state update keeps the entries of the cache. *)
Ltac cacheGrows_side :=
  cbv [Images.cacheGrows TeamsRotating.set_image TeamsRotating.set_fetching TeamsRotating.emit];
  intros;
  repeat match goal with sl : TeamsRotating.Slot |- _ => destruct sl end;
  cbn;
  first [assumption | apply lookup_insert_is_Some'; right; assumption].

(** Goals [Follows cacheGrows m] are solved along the syntax of [m]. *)
Ltac cacheGrows_step :=
  lazymatch goal with
  | |- Moves.Follows _ (Async.bind _ _) =>
      apply (Follows_bind _ cacheGrows_trans); [| intros ?]
  | |- Moves.Follows _ (Async.try_finally _ _) => apply (Follows_try_finally _ cacheGrows_trans)
  | |- Moves.Follows _ (Async.try_catch _ _) =>
      apply (Follows_try_catch _ cacheGrows_trans); [| intros ?]
  | |- Moves.Follows _ Async.get => apply (Follows_get _ cacheGrows_refl)
  | |- Moves.Follows _ (Async.ret _) => apply (Follows_ret _ cacheGrows_refl)
  | |- Moves.Follows _ (Async.throw _) => apply (Follows_throw _ cacheGrows_refl)
  | |- Moves.Follows _ (Async.fetch _) => apply (Follows_fetch _ cacheGrows_refl)
  | |- Moves.Follows _ (Async.await _) => apply (Follows_await _ cacheGrows_refl)
  | |- Moves.Follows _ (Async.spawn _) => apply (Follows_spawn _ cacheGrows_refl)
  | |- Moves.Follows _ (Async.modify _) => apply Follows_modify; cacheGrows_side
  | |- Moves.Follows _ (if ?b then _ else _) => destruct b
  | |- Moves.Follows _ (match ?x with _ => _ end) => destruct x
  | |- forall _, _ => cacheGrows_side
  end.

Section CacheGrows.
Import Async Moves TeamsRotating Images Session.
Context `{Js.Builtins}.

Lemma resolveAvatar_cacheGrows slot user : Follows cacheGrows (resolveAvatar slot user).
Proof.
  unfold resolveAvatar, compositeAndCache, overlayCountOnImage, blobToDataUrl, log.
  repeat cacheGrows_step.
Qed.

Lemma prefetchNextAvatar_cacheGrows : Follows cacheGrows prefetchNextAvatar.
Proof.
  pose proof resolveAvatar_cacheGrows.
  unfold prefetchNextAvatar. repeat first [cacheGrows_step | solve [auto]].
Qed.

Lemma prefetchCurrentAvatar_cacheGrows : Follows cacheGrows prefetchCurrentAvatar.
Proof.
  pose proof resolveAvatar_cacheGrows.
  unfold prefetchCurrentAvatar. repeat first [cacheGrows_step | solve [auto]].
Qed.

Lemma setImageIfChanged_cacheGrows image key : Follows cacheGrows (setImageIfChanged image key).
Proof. unfold setImageIfChanged, setImage. repeat cacheGrows_step. Qed.

Lemma updateDisplay_cacheGrows : Follows cacheGrows updateDisplay.
Proof.
  pose proof setImageIfChanged_cacheGrows. pose proof prefetchNextAvatar_cacheGrows.
  unfold updateDisplay, setTitle. repeat first [cacheGrows_step | solve [auto]].
Qed.

Lemma showNextUser_cacheGrows : Follows cacheGrows showNextUser.
Proof.
  pose proof setImageIfChanged_cacheGrows. pose proof prefetchNextAvatar_cacheGrows.
  pose proof updateDisplay_cacheGrows.
  unfold showNextUser. repeat first [cacheGrows_step | solve [auto]].
Qed.

Lemma forceCompleteTransition_cacheGrows : Follows cacheGrows forceCompleteTransition.
Proof.
  pose proof prefetchNextAvatar_cacheGrows. pose proof updateDisplay_cacheGrows.
  unfold forceCompleteTransition. repeat first [cacheGrows_step | solve [auto]].
Qed.

Lemma completeTransition_cacheGrows : Follows cacheGrows completeTransition.
Proof.
  pose proof prefetchNextAvatar_cacheGrows. pose proof updateDisplay_cacheGrows.
  unfold completeTransition. repeat first [cacheGrows_step | solve [auto]].
Qed.

Lemma safetyTimeoutFires_cacheGrows : Follows cacheGrows safetyTimeoutFires.
Proof.
  pose proof forceCompleteTransition_cacheGrows.
  unfold safetyTimeoutFires, log. repeat first [cacheGrows_step | solve [auto]].
Qed.

Lemma transitionTick_cacheGrows : Follows cacheGrows transitionTick.
Proof.
  pose proof completeTransition_cacheGrows.
  unfold transitionTick, setImage. repeat first [cacheGrows_step | solve [auto]].
Qed.

Lemma showNextUserWithTransition_cacheGrows : Follows cacheGrows showNextUserWithTransition.
Proof.
  pose proof showNextUser_cacheGrows.
  unfold showNextUserWithTransition, generateTransitionFrames, playTransition, loadImage, log.
  repeat first [cacheGrows_step | solve [auto]].
Qed.

Lemma fetchUsersData_cacheGrows : Follows cacheGrows fetchUsersData.
Proof.
  pose proof setImageIfChanged_cacheGrows. pose proof prefetchNextAvatar_cacheGrows.
  pose proof prefetchCurrentAvatar_cacheGrows. pose proof updateDisplay_cacheGrows.
  unfold fetchUsersData, log. repeat first [cacheGrows_step | solve [auto]].
Qed.

(** Every callback but the one of a settings change keeps the entries of
    the cache. *)
Lemma handler_cacheGrows e :
  (forall settings, e <> DidReceiveSettings settings) -> Follows cacheGrows (handler e).
Proof.
  pose proof fetchUsersData_cacheGrows. pose proof showNextUser_cacheGrows.
  pose proof showNextUserWithTransition_cacheGrows.
  intros He. destruct e as [| settings | | | disableAnimation | |]; simpl.
  - unfold Lifecycle.onWillAppear, Lifecycle.startPolling, Lifecycle.startCarousel,
      Lifecycle.stopCarousel, setImage.
    repeat first [cacheGrows_step | solve [auto]].
  - now destruct (He settings).
  - assumption.
  - assumption.
  - unfold Lifecycle.carouselTick. repeat first [cacheGrows_step | solve [auto]].
  - apply transitionTick_cacheGrows.
  - apply safetyTimeoutFires_cacheGrows.
Qed.

End CacheGrows.

(** ** Invariants of sessions *)

Section SessionFacts.
Import Async Post Moves TeamsRotating Images Session.
Context `{Js.Builtins}.

Lemma ensures_residual {St A : Type} (R : St -> Prop) (Q : A -> Prop) (m : Act St A) :
  ensures R Q m -> forall t, residual m = Some t -> ensures R Q t.
Proof.
  revert Q.
  induction m as [A s a | A s e | A s url k IH | A s k IH | A c _ k IH]; intros Q Hm t; simpl;
    try discriminate.
  - now intros [= <-].
  - now intros [= <-].
  - destruct Hm as [Hc Hk]. apply IH, Hk. eapply ensures_prefix, Hc.
Qed.

Lemma bind_modify {St B : Type} (g : St -> St) (k : Prog St B) s :
  bind (modify g) (fun _ => k) s = k (g s).
Proof. reflexivity. Qed.

Lemma Forall_omap_residual {St : Type} (Q : Act St unit -> Prop) (l : list (Act St unit)) :
  List.Forall (fun c => forall t, residual c = Some t -> Q t) l ->
  List.Forall Q (omap residual l).
Proof.
  induction 1 as [| c l Hc _ IH]; simpl; [constructor |].
  destruct (residual c) as [t |]; [constructor; auto | exact IH].
Qed.

Lemma suspended_ensures (R : State -> Prop) (m : Act State unit) :
  ensures R (fun _ => True) m -> List.Forall (ensures R (fun _ => True)) (suspended m).
Proof.
  intros Hm. unfold suspended. apply List.Forall_app. split.
  - apply Forall_omap_residual.
    eapply List.Forall_impl; [| eapply ensures_detached_prefix, Hm].
    intros c [Hc _] t Ht. eapply ensures_residual; eassumption.
  - destruct (residual m) as [t |] eqn:Hr; constructor; [| constructor].
    eapply ensures_residual; eassumption.
Qed.

Lemma suspended_resumes (P : State -> State -> Prop) (m : Act State unit) s0 :
  follows P s0 m -> List.Forall (resumes P) (suspended m).
Proof.
  intros Hm. unfold suspended. apply List.Forall_app. split.
  - apply Forall_omap_residual.
    eapply List.Forall_impl; [| eapply follows_detached, Hm].
    intros c [s1 Hc] t Ht net s. eapply follows_residual; eassumption.
  - destruct (residual m) as [t |] eqn:Hr; constructor; [| constructor].
    intros net s. eapply follows_residual; eassumption.
Qed.

Lemma suspended_Follows (P : State -> State -> Prop) (m : Method unit) s :
  Follows P m -> List.Forall (resumes P) (suspended (m s)).
Proof. intros Hm. apply (suspended_resumes P _ s), Hm. Qed.

Lemma settle_good (R : State -> Prop) (m : Act State unit) others :
  ensures R (fun _ => True) m -> List.Forall (ensures R (fun _ => True)) others ->
  good R (settle m others).
Proof.
  intros Hm Ho. split; simpl.
  - eapply ensures_prefix, Hm.
  - apply List.Forall_app. split; [exact Ho | now apply suspended_ensures].
Qed.

Lemma step_good (R : State -> Prop) (c c' : Config) (l : Label) :
  (forall e, l = Delivered e -> Ensures R (fun _ => True) (handler e)) ->
  step c l c' -> good R c -> good R c'.
Proof.
  intros Hh Hstep Hc. destruct Hstep as [c e | c net before task rest Hpool].
  - destruct Hc as [Hs Hp]. apply settle_good; [| exact Hp]. now apply (Hh e).
  - destruct Hc as [Hs Hp]. rewrite Hpool in Hp.
    apply List.Forall_app in Hp as [Hb Hp]. apply List.Forall_cons_iff in Hp as [Ht Hr].
    apply settle_good; [now apply ensures_resume | apply List.Forall_app; now split].
Qed.

Lemma reachable_loadable c : reachable c -> good loadable c.
Proof.
  induction 1 as [settings | c c' l _ IH Hstep].
  - split; [| constructor]. unfold loadable, initial. simpl.
    split; [discriminate |]. split; [discriminate |].
    intros key image Habs. rewrite lookup_empty in Habs. discriminate.
  - eapply step_good; [| exact Hstep | exact IH]. intros e _. apply handler_loadable.
Qed.

(** X11.  Every image the carousel holds can be loaded.  In every session
    an instance can reach from its constructor, by events delivered in any
    order and suspended methods resumed in any order with any answer of the
    network, the current image, the next image and every entry of the avatar
    cache load.  So a carousel tick that finds, in such a session, a
    non-empty roster, no transition in progress and both images, and that
    runs to its end with no other event delivered in between, generates its
    25 frames and starts the crossfade on the current user.  (This is about
    the uninterrupted tick only: a settings change delivered while the tick
    is suspended takes the images away, and frame generation then fails;
    see [settings_change_interrupts_crossfade].) *)
Theorem images_always_load (c : Config) :
  reachable c ->
  loadable (state c)
  /\ forall net currentImg nextImg,
       users (state c) <> [] -> isTransitioning (state c) = false ->
       currentAvatarImage (state c) = Some currentImg ->
       nextAvatarImage (state c) = Some nextImg ->
       let r := run net (Lifecycle.carouselTick false (state c)) in
       outcome r = Returned tt
       /\ isTransitioning (final r) = true
       /\ transitionFrames (final r) = Render.framesFrom currentImg nextImg 0 25
       /\ currentUserIndex (final r) = currentUserIndex (state c).
Proof.
  intros Hreach. destruct (reachable_loadable c Hreach) as [Hload _].
  split; [exact Hload |].
  intros net currentImg nextImg Hu Ht Hc Hn r. subst r.
  destruct Hload as (Hlc & Hln & _).
  assert (E : Lifecycle.carouselTick false (state c) = showNextUserWithTransition (state c)).
  { unfold Lifecycle.carouselTick, bind, get. simpl. now rewrite Ht. }
  rewrite E, (showNextUserWithTransition_starts net (state c) currentImg nextImg Hu Ht Hc Hn
                (Hlc _ Hc) (Hln _ Hn)).
  simpl. repeat split.
Qed.

(** Whatever the event, what its callback leaves suspended keeps the
    entries of the cache when it is resumed: a settings change empties the
    cache before it starts the poll, not after. *)
Lemma handler_suspended_cacheGrows e s :
  List.Forall (resumes cacheGrows) (suspended (handler e s)).
Proof.
  destruct e as [| settings | | | disableAnimation | |].
  2:{ pose proof fetchUsersData_cacheGrows as Hpoll.
      unfold handler, Lifecycle.onDidReceiveSettings, Lifecycle.stopCarousel.
      rewrite !bind_modify.
      apply suspended_Follows.
      unfold Lifecycle.startPolling, Lifecycle.startCarousel, Lifecycle.stopCarousel.
      repeat first [cacheGrows_step | solve [auto]]. }
  all: apply suspended_Follows, handler_cacheGrows; discriminate.
Qed.

Lemma reachable_resumes c : reachable c -> List.Forall (resumes cacheGrows) (pending c).
Proof.
  induction 1 as [settings | c c' l _ IH Hstep]; [constructor |].
  destruct Hstep as [c e | c net before task rest Hpool]; simpl.
  - apply List.Forall_app. split; [exact IH | apply handler_suspended_cacheGrows].
  - rewrite Hpool in IH.
    apply List.Forall_app in IH as [Hb Hp]. apply List.Forall_cons_iff in Hp as [Ht Hr].
    apply List.Forall_app. split; [apply List.Forall_app; now split |].
    apply (suspended_resumes cacheGrows _ (state c)), Ht.
Qed.

(** X12.  The avatar cache never loses an entry, except when the settings
    change.  In every session an instance can reach, a turn of the event
    loop that is not the delivery of a settings change (any other event, or
    the resumption of any suspended method with any answer of the network)
    leaves in the cache an entry for every key that had one. *)
Theorem cache_never_evicts (c c' : Config) (l : Label) (key : string) :
  reachable c -> step c l c' ->
  (forall settings, l <> Delivered (DidReceiveSettings settings)) ->
  is_Some (avatarCache (state c) !! key) ->
  is_Some (avatarCache (state c') !! key).
Proof.
  intros Hreach Hstep Hl. pose proof (reachable_resumes c Hreach) as Hpool.
  revert key. change (cacheGrows (state c) (state c')).
  destruct Hstep as [c e | c net before task rest Hin]; simpl.
  - apply (follows_prefix _ cacheGrows_trans), handler_cacheGrows.
    intros settings ->. now apply (Hl settings).
  - rewrite Hin in Hpool.
    apply List.Forall_app in Hpool as [_ Hp]. apply List.Forall_cons_iff in Hp as [Ht _].
    apply (follows_prefix _ cacheGrows_trans), Ht.
Qed.

End SessionFacts.

(** ** The position stays within the roster *)

Section PositionedFacts.
Import Async Post TeamsRotating Roster.

Lemma positioned_succ s :
  positioned s ->
  positioned (set_currentUserIndex (Js.succ_mod (currentUserIndex s) (length (users s))) s).
Proof.
  intros [Hu | (i & Hi & Hlt)]; [left; exact Hu | right].
  cbn [currentUserIndex users set_currentUserIndex]. rewrite Hi.
  destruct (users s) as [| u us]; cbn [length] in *; [lia |].
  exists ((i + 1) mod S (length us))%nat. split; [reflexivity |].
  apply Nat.mod_upper_bound. lia.
Qed.

Lemma newIndex_lt currentUser sortedUsers :
  sortedUsers <> [] -> (newIndex currentUser sortedUsers < length sortedUsers)%nat.
Proof.
  intros Hne. unfold newIndex.
  assert (H0 : (0 < length sortedUsers)%nat) by (destruct sortedUsers; [congruence | simpl; lia]).
  destruct currentUser as [u |]; [| exact H0].
  destruct (JsArray.findIndex _ sortedUsers) as [i |] eqn:Hf; [| exact H0].
  destruct (findIndex_Some _ _ _ Hf) as (x & Hx & _).
  apply nth_error_Some. congruence.
Qed.

Lemma positioned_poll currentUser sortedUsers s :
  positioned (set_currentUserIndex (Js.Idx (newIndex currentUser sortedUsers))
                (set_users sortedUsers s)).
Proof.
  destruct sortedUsers as [| u us] eqn:E; [left; reflexivity | right]. rewrite <- E.
  eexists. split; [reflexivity |]. simpl. apply newIndex_lt. congruence.
Qed.

(** Two updates in a row, of which only the second restores [R]. *)
Lemma Ensures_modify2 {St B : Type} (R : St -> Prop) (Q : B -> Prop)
    (f g : St -> St) (k : Prog St B) :
  (forall s, R (g (f s))) -> Ensures R Q k ->
  Ensures R Q (bind (modify f) (fun _ => bind (modify g) (fun _ => k))).
Proof. intros Hfg Hk s _. unfold bind, modify. simpl. apply Hk, Hfg. Qed.

End PositionedFacts.

(** Side conditions: a state update keeps the position in the roster. *)
Ltac positioned_side :=
  cbv [TeamsRotating.set_image TeamsRotating.set_fetching TeamsRotating.emit];
  intros;
  repeat match goal with sl : TeamsRotating.Slot |- _ => destruct sl end;
  first [ assumption
        | apply positioned_succ; assumption
        | left; reflexivity
        | match goal with
          | Hp : Roster.positioned ?s |- Roster.positioned _ =>
              destruct Hp as [Hp | Hp]; [left | right]; exact Hp
          end ].

Ltac positioned_step :=
  lazymatch goal with
  | |- Post.Ensures _ _ (Async.bind (Async.modify (TeamsRotating.set_users _)) _) =>
      apply Ensures_modify2; [intros; apply positioned_poll |]
  | _ => ensures_step_by ltac:(positioned_side)
  end.

Section PositionedMethods.
Import Async Post TeamsRotating Roster Session.
Context `{Js.Builtins}.

Lemma resolveAvatar_positioned slot user : Ensures positioned (fun _ => True) (resolveAvatar slot user).
Proof.
  unfold resolveAvatar, compositeAndCache, blobToDataUrl, log.
  repeat positioned_step.
Qed.

Lemma prefetchNextAvatar_positioned : Ensures positioned (fun _ => True) prefetchNextAvatar.
Proof.
  pose proof resolveAvatar_positioned.
  unfold prefetchNextAvatar. repeat first [positioned_step | solve [auto]].
Qed.

Lemma prefetchCurrentAvatar_positioned : Ensures positioned (fun _ => True) prefetchCurrentAvatar.
Proof.
  pose proof resolveAvatar_positioned.
  unfold prefetchCurrentAvatar. repeat first [positioned_step | solve [auto]].
Qed.

Lemma setImageIfChanged_positioned image key :
  Ensures positioned (fun _ => True) (setImageIfChanged image key).
Proof. unfold setImageIfChanged, setImage. repeat positioned_step. Qed.

Lemma updateDisplay_positioned : Ensures positioned (fun _ => True) updateDisplay.
Proof.
  pose proof setImageIfChanged_positioned. pose proof prefetchNextAvatar_positioned.
  unfold updateDisplay, setTitle. repeat first [positioned_step | solve [auto]].
Qed.

Lemma showNextUser_positioned : Ensures positioned (fun _ => True) showNextUser.
Proof.
  pose proof setImageIfChanged_positioned. pose proof prefetchNextAvatar_positioned.
  pose proof updateDisplay_positioned.
  unfold showNextUser. repeat first [positioned_step | solve [auto]].
Qed.

Lemma forceCompleteTransition_positioned : Ensures positioned (fun _ => True) forceCompleteTransition.
Proof.
  pose proof prefetchNextAvatar_positioned. pose proof updateDisplay_positioned.
  unfold forceCompleteTransition. repeat first [positioned_step | solve [auto]].
Qed.

Lemma completeTransition_positioned : Ensures positioned (fun _ => True) completeTransition.
Proof.
  pose proof prefetchNextAvatar_positioned. pose proof updateDisplay_positioned.
  unfold completeTransition. repeat first [positioned_step | solve [auto]].
Qed.

Lemma safetyTimeoutFires_positioned : Ensures positioned (fun _ => True) safetyTimeoutFires.
Proof.
  pose proof forceCompleteTransition_positioned.
  unfold safetyTimeoutFires, log. repeat first [positioned_step | solve [auto]].
Qed.

Lemma transitionTick_positioned : Ensures positioned (fun _ => True) transitionTick.
Proof.
  pose proof completeTransition_positioned.
  unfold transitionTick, setImage. repeat first [positioned_step | solve [auto]].
Qed.

Lemma showNextUserWithTransition_positioned :
  Ensures positioned (fun _ => True) showNextUserWithTransition.
Proof.
  pose proof showNextUser_positioned.
  unfold showNextUserWithTransition, generateTransitionFrames, playTransition, loadImage, log.
  repeat first [positioned_step | solve [auto]].
Qed.

Lemma fetchUsersData_positioned : Ensures positioned (fun _ => True) fetchUsersData.
Proof.
  pose proof setImageIfChanged_positioned. pose proof prefetchNextAvatar_positioned.
  pose proof prefetchCurrentAvatar_positioned. pose proof updateDisplay_positioned.
  unfold fetchUsersData, log. repeat first [positioned_step | solve [auto]].
Qed.

Lemma handler_positioned e : Ensures positioned (fun _ => True) (handler e).
Proof.
  pose proof fetchUsersData_positioned. pose proof showNextUser_positioned.
  pose proof showNextUserWithTransition_positioned.
  destruct e as [| settings | | | disableAnimation | |]; simpl.
  - unfold Lifecycle.onWillAppear, Lifecycle.startPolling, Lifecycle.startCarousel,
      Lifecycle.stopCarousel, setImage.
    repeat first [positioned_step | solve [auto]].
  - unfold Lifecycle.onDidReceiveSettings, Lifecycle.startPolling, Lifecycle.startCarousel,
      Lifecycle.stopCarousel.
    apply (Ensures_bind _ (fun _ => True)); [repeat positioned_step | intros ? _].
    apply (Ensures_bind _ (fun _ => True)); [repeat positioned_step | intros ? _].
    apply Ensures_modify2; [intros; left; reflexivity |].
    repeat first [positioned_step | solve [auto]].
  - assumption.
  - assumption.
  - unfold Lifecycle.carouselTick. repeat first [positioned_step | solve [auto]].
  - apply transitionTick_positioned.
  - apply safetyTimeoutFires_positioned.
Qed.

End PositionedMethods.

Section PositionedSessions.
Import Async Post TeamsRotating Roster Session.
Context `{Js.Builtins}.

Lemma reachable_positioned c : reachable c -> good positioned c.
Proof.
  induction 1 as [settings | c c' l _ IH Hstep].
  - split; [left; reflexivity | constructor].
  - eapply step_good; [| exact Hstep | exact IH]. intros e _. apply handler_positioned.
Qed.

(** X13.  The position stays within the roster.  In every session an
    instance can reach from its constructor, by events delivered in any
    order and suspended methods resumed in any order with any answer of the
    network, either the roster is empty or the position is an index of the
    roster; so with a non-empty roster the position is never [NaN] and
    there is a current user, the one the display update reads its key and
    its title from. *)
Theorem position_in_roster (c : Config) :
  reachable c ->
  positioned (state c)
  /\ (users (state c) <> [] ->
      currentUserIndex (state c) <> Js.NaN
      /\ exists currentUser,
           Js.at_index (users (state c)) (currentUserIndex (state c)) = Some currentUser
           /\ In currentUser (users (state c))).
Proof.
  intros Hreach. destruct (reachable_positioned c Hreach) as [Hpos _].
  split; [exact Hpos |]. intros Hu.
  destruct Hpos as [Habs | (i & Hi & Hlt)]; [contradiction |].
  rewrite Hi. split; [discriminate |]. simpl.
  destruct (nth_error (users (state c)) i) as [u |] eqn:Hn.
  - exists u. split; [reflexivity |]. eapply nth_error_In, Hn.
  - apply nth_error_None in Hn. lia.
Qed.

End PositionedSessions.

(** ** The connection test *)

Section ConnectionTest.
Import Async TeamsRotating Display.
Context `{Js.Builtins}.

(** The run of a connection test of the carousel. *)
Lemma testConnection_run (net : string -> FetchResult) (s : State) (settings : Settings) :
  run net (Connection.Rotating.testConnection settings s)
  = mkRun (emit (SetTitle (Connection.Rotating.verdict net settings)) s)
      (Returned tt)
      (if (Js.truthy (avatarWebhookUrl settings)
           && Js.truthy (rotatingWebhookUrl settings))%bool
       then [Js.show (rotatingWebhookUrl settings)] else [])
      (if (Js.truthy (avatarWebhookUrl settings)
           && Js.truthy (rotatingWebhookUrl settings))%bool
       then 1%nat else 0%nat) [].
Proof.
  unfold Connection.Rotating.testConnection, Connection.Rotating.verdict, setTitle.
  unfold bind, try_catch, get, modify, ret, throw, fetch. simpl.
  destruct (Js.truthy (avatarWebhookUrl settings)); simpl; [| reflexivity].
  destruct (Js.truthy (rotatingWebhookUrl settings)); simpl; [| reflexivity].
  destruct (net _) as [[ok blob json] | e]; simpl; [destruct ok |]; reflexivity.
Qed.

(** X14.  The connection test of the carousel touches nothing but the
    title.  Whatever the session holds and whatever the network answers,
    [testConnection] returns, leaves every field of the instance as it was
    and writes no image; it makes one call to the display, a title, which
    is "URLs Required" on two lines when a URL of the payload is missing,
    "Test Error" when the request throws, "Test OK" when the rotating
    webhook answers with an OK status and "Test Fail" otherwise; it
    requests the rotating URL of the payload once, and nothing when a URL
    is missing.  When the timer of the test then fires on a session that
    shows its current user, the title of that user is set again and no
    image is written. *)
Theorem carousel_test_touches_title_only (net : string -> FetchResult) (s : State)
    (settings : Settings) :
  let r := run net (Connection.Rotating.testConnection settings s) in
  outcome r = Returned tt
  /\ final r = emit (SetTitle (Connection.Rotating.verdict net settings)) s
  /\ imagesWritten (out (final r)) = imagesWritten (out s)
  /\ fetched r = (if (Js.truthy (avatarWebhookUrl settings)
                      && Js.truthy (rotatingWebhookUrl settings))%bool
                  then [Js.show (rotatingWebhookUrl settings)] else [])
  /\ (forall image, users s <> [] -> currentAvatarImage s = Some image ->
      lastDisplayedState s = Some (stateKey s) ->
      let s' := after Connection.Rotating.revert (final r) in
      last (out s') = Some (SetTitle (titleOf s)) /\ imagesWritten (out s') = imagesWritten (out s)).
Proof.
  cbv zeta. rewrite testConnection_run. cbn [final outcome fetched].
  split; [reflexivity |]. split; [reflexivity |].
  split; [cbn; apply imagesWritten_title |]. split; [reflexivity |].
  intros image Hu Hc Hl. unfold Connection.Rotating.revert.
  set (s1 := emit _ s).
  assert (Hu1 : users s1 <> []) by exact Hu.
  assert (Hc1 : currentAvatarImage s1 = Some image) by exact Hc.
  rewrite (updateDisplay_current s1 image Hu1 Hc1), setImageIfChanged_after.
  assert (Hl1 : lastDisplayedState s1 = Some (stateKey s1)) by exact Hl.
  rewrite (bool_decide_eq_true_2 _ Hl1). subst s1. cbn.
  rewrite !imagesWritten_title. split; [| reflexivity].
  rewrite last_snoc. reflexivity.
Qed.

End ConnectionTest.

Section SingleConnectionTest.
Import Async TeamsAvatar.
Context `{Js.Builtins}.

(** X15.  The connection test of the single avatar.  Whatever the session
    holds and whatever the network answers, [testConnection] returns after
    requesting the avatar webhook and then the messages webhook of the
    payload, for the email of the payload; it writes one image (the
    "Test OK" image when both answer with an OK status, "Test Fail" when
    both answer and one status is not OK, "Test Error" when a request
    throws) and records its key; the avatar, the messages, the count, the
    cache and the settings of the instance stay as they were.  When the
    timer of the test then fires, an avatar that loads is written again
    with the count drawn over it, under the key of the email and the count;
    without an avatar nothing is written, so the image of the test stays on
    display, and no key is recorded. *)
Theorem single_avatar_test (net : string -> FetchResult) (s : State) (settings : Settings) :
  let r := run net (Connection.Single.testConnection settings s) in
  let query := "?user=" +:+ Js.encodeURIComponent (Js.show (userEmail settings)) in
  let verdict := Connection.Single.verdict _ net settings in
  outcome r = Returned tt
  /\ fetched r = [ Js.show (avatarWebhookUrl settings) +:+ query;
                   Js.show (messagesWebhookUrl settings) +:+ query ]
  /\ final r = set_lastDisplayedImageState (Some (snd verdict)) (emit (SetImage (fst verdict)) s)
  /\ imagesWritten (out (final r)) = imagesWritten (out s) ++ [fst verdict]
  /\ (let r' := run net (Connection.Single.revert (final r)) in
      match avatarImage s with
      | Some image =>
          if loads image then
            outcome r' = Returned tt
            /\ imagesWritten (out (final r'))
               = imagesWritten (out s)
                 ++ [fst verdict; DataUrlOfCanvas (Render.overlayCanvas image (unreadCount s))]
            /\ lastDisplayedImageState (final r') = Some (Single.stateKey s)
          else
            outcome r' = Rejected "undefined"
            /\ imagesWritten (out (final r')) = imagesWritten (out s) ++ [fst verdict]
      | None =>
          outcome r' = Returned tt
          /\ imagesWritten (out (final r')) = imagesWritten (out s) ++ [fst verdict]
          /\ lastDisplayedImageState (final r') = None
      end).
Proof.
  cbv zeta.
  assert (Hrun : run net (Connection.Single.testConnection settings s)
                 = mkRun (set_lastDisplayedImageState (Some (snd (Connection.Single.verdict _ net settings)))
                            (emit (SetImage (fst (Connection.Single.verdict _ net settings))) s))
                     (Returned tt)
                     [ Js.show (avatarWebhookUrl settings) +:+ "?user="
                       +:+ Js.encodeURIComponent (Js.show (userEmail settings));
                       Js.show (messagesWebhookUrl settings) +:+ "?user="
                       +:+ Js.encodeURIComponent (Js.show (userEmail settings)) ]
                     2 []).
  { unfold Connection.Single.testConnection, Connection.Single.verdict, Connection.Single.showTest,
      Connection.fetchBoth, setImage.
    unfold bind, try_catch, get, modify, ret, throw. simpl.
    destruct (net (Js.show (avatarWebhookUrl settings) +:+ _)) as [[ok blob json] | e]; simpl;
      [| reflexivity].
    destruct (net (Js.show (messagesWebhookUrl settings) +:+ _)) as [[ok' blob' json'] | e'];
      simpl; [| reflexivity].
    destruct ok, ok'; reflexivity. }
  rewrite Hrun. cbn [final outcome fetched].
  split; [reflexivity |]. split; [reflexivity |]. split; [reflexivity |].
  split; [cbn; apply imagesWritten_image |].
  generalize (Connection.Single.verdict _ net settings). intros [image key]. cbn [fst snd].
  unfold Connection.Single.revert, updateDisplay, setImageIfChanged, setImage,
    overlayCountOnImage, Single.stateKey, emit.
  destruct s as [cfg img msgs n cache l o].
  unfold bind, try_catch, get, modify, ret, throw, await. simpl.
  destruct img as [avatar |]; simpl.
  - unfold Render.overlayCountResult. destruct (loads avatar); simpl.
    + rewrite !imagesWritten_image, <- app_assoc. repeat split.
    + rewrite imagesWritten_image. repeat split.
  - rewrite imagesWritten_image. repeat split.
Qed.

End SingleConnectionTest.

(** ** The property inspector *)

Section TextFacts.
Import JsText.

Lemma trimStart_head s c rest : trimStart s = String c rest -> isWhiteSpace c = false.
Proof.
  induction s as [| a s IH]; simpl; [discriminate |].
  destruct (isWhiteSpace a) eqn:Ea; [exact IH |]. now intros [= <- <-].
Qed.

Lemma trimStart_fixed s : trimStart (trimStart s) = trimStart s.
Proof.
  destruct (trimStart s) as [| c rest] eqn:E; [reflexivity |].
  simpl. now rewrite (trimStart_head _ _ _ E).
Qed.

Lemma trimEnd_fixed s : trimEnd (trimEnd s) = trimEnd s.
Proof.
  induction s as [| a s IH]; simpl; [reflexivity |].
  destruct (trimEnd s) as [| b t] eqn:E.
  - destruct (isWhiteSpace a) eqn:Ea; simpl; [reflexivity | now rewrite Ea].
  - change (trimEnd (String a (String b t))) with
      (match trimEnd (String b t) with
       | EmptyString => if isWhiteSpace a then EmptyString else String a EmptyString
       | rest' => String a rest'
       end).
    now rewrite IH.
Qed.

(** Trimming the end keeps a first code unit that is no white space. *)
Lemma trimEnd_head c rest :
  isWhiteSpace c = false -> exists rest', trimEnd (String c rest) = String c rest'.
Proof. intros Hc. simpl. rewrite Hc. destruct (trimEnd rest); eauto. Qed.

Lemma trim_fixed s : trimStart (trim s) = trim s /\ trimEnd (trim s) = trim s.
Proof.
  unfold trim. split; [| apply trimEnd_fixed].
  destruct (trimStart s) as [| c rest] eqn:E; [reflexivity |].
  pose proof (trimStart_head _ _ _ E) as Hc.
  destruct (trimEnd_head c rest Hc) as [rest' ->]. simpl. now rewrite Hc.
Qed.

Lemma digit_10_char c d :
  digit 10 c = Some d ->
  0 <= d < 10 /\ isWhiteSpace c = false /\ c <> "-"%char /\ c <> "+"%char
  /\ c <> "x"%char /\ c <> "X"%char /\ (c = "0"%char <-> d = 0).
Proof.
  destruct c as [[] [] [] [] [] [] [] []]; intros Hd; vm_compute in Hd;
    try discriminate; injection Hd as <-;
    (split; [lia |]); (split; [reflexivity |]);
    (split; [discriminate |]); (split; [discriminate |]);
    (split; [discriminate |]); (split; [discriminate |]);
    (split; intros Hx; first [reflexivity | discriminate Hx]).
Qed.

(** A numeral of decimal digits is read in radix 10 from its first code
    unit. *)
Lemma parseInt_allDigits s :
  allDigits s = true -> parseInt s = digits 10 s None.
Proof.
  destruct s as [| c rest]; [reflexivity |]. simpl allDigits.
  destruct (digit 10 c) as [d |] eqn:Hd; [| discriminate]. intros Hrest.
  destruct (digit_10_char c d Hd) as (_ & Hws & Hm & Hp & _ & _ & H0).
  unfold parseInt. simpl trimStart. rewrite Hws.
  assert (Hsign : match String c rest with
                  | String "-" rest0 => (-1, rest0)
                  | String "+" rest0 => (1, rest0)
                  | _ => (1, String c rest)
                  end = (1, String c rest)).
  { destruct c as [[] [] [] [] [] [] [] []]; try reflexivity; congruence. }
  rewrite Hsign.
  assert (Hradix : match String c rest with
                   | String "0" (String "x" rest0) => (16, rest0)
                   | String "0" (String "X" rest0) => (16, rest0)
                   | _ => (10, String c rest)
                   end = (10, String c rest)).
  { destruct rest as [| c' rest'].
    - destruct c as [[] [] [] [] [] [] [] []]; reflexivity.
    - simpl in Hrest. destruct (digit 10 c') as [d' |] eqn:Hd'; [| discriminate].
      destruct (digit_10_char c' d' Hd') as (_ & _ & _ & _ & Hx & HX & _).
      destruct c as [[] [] [] [] [] [] [] []]; try reflexivity;
        destruct c' as [[] [] [] [] [] [] [] []]; try reflexivity; congruence. }
  rewrite Hradix. destruct (digits 10 (String c rest) None) as [z |]; simpl; [| reflexivity].
  f_equal. destruct z; reflexivity.
Qed.

Lemma digits_app a b acc :
  allDigits a = true -> digits 10 (a +:+ b) acc = digits 10 b (digits 10 a acc).
Proof.
  revert acc. induction a as [| c a IH]; intros acc; simpl; [reflexivity |].
  destruct (digit 10 c); [| discriminate]. intros Ha. now apply IH.
Qed.

Lemma allDigits_app a b : allDigits a = true -> allDigits b = true -> allDigits (a +:+ b) = true.
Proof.
  induction a as [| c a IH]; simpl; [auto |].
  destruct (digit 10 c); [| discriminate]. auto.
Qed.

Lemma append_snoc a c s : (a +:+ String c "") +:+ s = a +:+ String c s.
Proof. induction a as [| x a IH]; [reflexivity | exact (f_equal (String x) IH)]. Qed.

Lemma pretty_N_go_app x : forall s, pretty_N_go x s = pretty_N_go x "" +:+ s.
Proof.
  induction (N.lt_wf_0 x) as [x _ IH]. intros s.
  destruct (decide (0 < x)%N) as [Hx | Hx].
  - rewrite (pretty_N_go_step x s), (pretty_N_go_step x "") by exact Hx.
    assert (Hlt : (x `div` 10 < x)%N) by (apply N.div_lt; lia).
    rewrite (IH _ Hlt (String _ s)), (IH _ Hlt (String _ "")).
    now rewrite append_snoc.
  - assert (x = 0%N) as -> by lia. now rewrite !pretty_N_go_0.
Qed.

Lemma digit_pretty_N_char d : (d < 10)%N -> digit 10 (pretty_N_char d) = Some (Z.of_N d).
Proof.
  intros Hd.
  assert (Hcases : (d = 0 \/ d = 1 \/ d = 2 \/ d = 3 \/ d = 4 \/ d = 5 \/ d = 6 \/ d = 7
                    \/ d = 8 \/ d = 9)%N) by lia.
  repeat destruct Hcases as [-> | Hcases]; try subst d; reflexivity.
Qed.

Lemma pretty_N_go_digits x :
  (0 < x)%N ->
  allDigits (pretty_N_go x "") = true
  /\ digits 10 (pretty_N_go x "") None = Some (Z.of_N x).
Proof.
  induction (N.lt_wf_0 x) as [x _ IH]. intros Hx.
  rewrite (pretty_N_go_step x "") by exact Hx. rewrite pretty_N_go_app.
  assert (Hlt : (x `div` 10 < x)%N) by (apply N.div_lt; lia).
  assert (Hd : digit 10 (pretty_N_char (x `mod` 10)) = Some (Z.of_N (x `mod` 10)%N)).
  { apply digit_pretty_N_char. apply N.mod_lt. lia. }
  assert (Hlast : allDigits (String (pretty_N_char (x `mod` 10)) "") = true)
    by (simpl; now rewrite Hd).
  destruct (decide (0 < x `div` 10)%N) as [Hq | Hq].
  - destruct (IH _ Hlt Hq) as [Hall Hval].
    split; [now apply allDigits_app |].
    rewrite digits_app by exact Hall. rewrite Hval. simpl. rewrite Hd. f_equal.
    pose proof (N.div_mod x 10 ltac:(lia)). lia.
  - assert (E : (x `div` 10 = 0)%N) by (apply N.le_0_r, N.nlt_ge, Hq). rewrite E, pretty_N_go_0.
    split; [exact Hlast |]. simpl. rewrite Hd. f_equal.
    pose proof (N.div_mod x 10 ltac:(lia)). lia.
Qed.

(** [parseInt] reads back the decimal numeral of a number that is not
    negative. *)
Lemma parseInt_pretty (n : Z) : 0 <= n -> parseInt (pretty n) = Some n.
Proof.
  intros Hn. destruct n as [| p | p]; [reflexivity | | lia].
  change (pretty (Z.pos p)) with (pretty (N.pos p)).
  unfold pretty, pretty_N. destruct (decide (N.pos p = 0)%N) as [Habs | _]; [discriminate |].
  destruct (pretty_N_go_digits (N.pos p)) as [Hall Hval]; [lia |].
  rewrite parseInt_allDigits by exact Hall. rewrite Hval. reflexivity.
Qed.

End TextFacts.

Section InspectorFacts.
Import Async JsText.

Lemma eqb_empty_false s : String.eqb s "" = false -> s <> "".
Proof. intros He ->. discriminate. Qed.

(** X16.  What the property inspector of the carousel saves is valid.
    Whatever the four fields hold, a click on Save either shows an error
    and sends nothing, or shows the success alert; settings are sent only
    on success and when the socket is connected.  The settings sent carry
    the two URLs trimmed: not empty, and neither starting nor ending with
    white space; a polling refresh rate between 5 and 300 and a carousel
    duration between 1 and 60.  A field that holds the decimal numeral of
    a number in range is saved as that number; a number field left empty
    is saved as 30, respectively 5. *)
Theorem inspector_saves_valid_settings (connected : bool) (form : Inspector.Form) :
  let e := Inspector.saveSettings connected form in
  (Inspector.alertType e = "success"
   \/ (Inspector.alertType e = "error" /\ Inspector.sent e = None))
  /\ (forall st, Inspector.sent e = Some st ->
      connected = true /\ Inspector.alertType e = "success"
      /\ Inspector.avatarWebhookUrl st = trim (Inspector.avatarWebhookUrl_value form)
      /\ Inspector.rotatingWebhookUrl st = trim (Inspector.rotatingWebhookUrl_value form)
      /\ Inspector.avatarWebhookUrl st <> "" /\ Inspector.rotatingWebhookUrl st <> ""
      /\ trimStart (Inspector.avatarWebhookUrl st) = Inspector.avatarWebhookUrl st
      /\ trimEnd (Inspector.avatarWebhookUrl st) = Inspector.avatarWebhookUrl st
      /\ trimStart (Inspector.rotatingWebhookUrl st) = Inspector.rotatingWebhookUrl st
      /\ trimEnd (Inspector.rotatingWebhookUrl st) = Inspector.rotatingWebhookUrl st
      /\ 5 <= Inspector.pollingRefreshRate st <= 300
      /\ 1 <= Inspector.carouselDuration st <= 60)
  /\ (forall rate duration : option Z,
        trim (Inspector.avatarWebhookUrl_value form) <> "" ->
        trim (Inspector.rotatingWebhookUrl_value form) <> "" ->
        Inspector.pollingRefreshRate_value form = from_option pretty "" rate ->
        Inspector.carouselDuration_value form = from_option pretty "" duration ->
        (forall n, rate = Some n -> 5 <= n <= 300) ->
        (forall n, duration = Some n -> 1 <= n <= 60) ->
        connected = true ->
        Inspector.sent e
        = Some (Inspector.mkInstanceSettings
                  (trim (Inspector.avatarWebhookUrl_value form))
                  (trim (Inspector.rotatingWebhookUrl_value form))
                  (default 30 rate) (default 5 duration))).
Proof.
  intros e. subst e. unfold Inspector.saveSettings, Inspector.showAlert.
  set (a := trim (Inspector.avatarWebhookUrl_value form)).
  set (b := trim (Inspector.rotatingWebhookUrl_value form)).
  set (rate := num_or (parseInt (Inspector.pollingRefreshRate_value form)) 30).
  set (dur := num_or (parseInt (Inspector.carouselDuration_value form)) 5).
  split; [| split].
  - destruct (String.eqb a "" || String.eqb b "")%bool; [right; split; reflexivity |].
    destruct ((rate <? 5) || (300 <? rate)); [right; split; reflexivity |].
    destruct ((dur <? 1) || (60 <? dur)); [right; split; reflexivity |].
    now left.
  - intros st.
    destruct (String.eqb a "") eqn:Ea; [discriminate |].
    destruct (String.eqb b "") eqn:Eb; [discriminate |]. cbn [orb].
    destruct ((rate <? 5) || (300 <? rate)) eqn:Er; [discriminate |].
    destruct ((dur <? 1) || (60 <? dur)) eqn:Ed; [discriminate |].
    cbn [Inspector.sent Inspector.alertType].
    destruct connected; [| discriminate]. intros [= <-].
    cbn [Inspector.avatarWebhookUrl Inspector.rotatingWebhookUrl Inspector.pollingRefreshRate
         Inspector.carouselDuration].
    apply orb_false_iff in Er as [Er1 Er2]. apply orb_false_iff in Ed as [Ed1 Ed2].
    apply Z.ltb_ge in Er1, Er2, Ed1, Ed2.
    split; [reflexivity |]. split; [reflexivity |]. split; [reflexivity |].
    split; [reflexivity |].
    split; [now apply eqb_empty_false |]. split; [now apply eqb_empty_false |].
    split; [apply trim_fixed |]. split; [apply trim_fixed |].
    split; [apply trim_fixed |]. split; [apply trim_fixed |].
    split; lia.
  - intros orate oduration Ha Hb Hrate Hdur Hr Hd ->.
    assert (Erate : rate = default 30 orate).
    { subst rate. rewrite Hrate. destruct orate as [n |]; simpl; [| reflexivity].
      specialize (Hr n eq_refl). rewrite parseInt_pretty by lia. simpl.
      destruct (Z.eqb_spec n 0); [lia | reflexivity]. }
    assert (Edur : dur = default 5 oduration).
    { subst dur. rewrite Hdur. destruct oduration as [n |]; simpl; [| reflexivity].
      specialize (Hd n eq_refl). rewrite parseInt_pretty by lia. simpl.
      destruct (Z.eqb_spec n 0); [lia | reflexivity]. }
    destruct (String.eqb_spec a ""); [contradiction |].
    destruct (String.eqb_spec b ""); [contradiction |]. cbn [orb].
    assert (Hr' : 5 <= rate <= 300).
    { rewrite Erate. destruct orate as [m |]; simpl; [now apply Hr | lia]. }
    assert (Hd' : 1 <= dur <= 60).
    { rewrite Edur. destruct oduration as [m |]; simpl; [now apply Hd | lia]. }
    destruct (Z.ltb_spec rate 5); [lia |]. destruct (Z.ltb_spec 300 rate); [lia |].
    destruct (Z.ltb_spec dur 1); [lia |]. destruct (Z.ltb_spec 60 dur); [lia |].
    cbn [orb Inspector.sent]. now rewrite Erate, Edur.
Qed.

End InspectorFacts.

Section InspectorTest.
Import Async JsText TeamsRotating.

(** X17.  A connection test started from the inspector reaches the
    rotating webhook.  The inspector sends a test only with both URLs
    filled in, trimmed; for the payload it sends, the plugin requests the
    trimmed rotating URL exactly once and the title it sets is "Test OK",
    "Test Fail" or "Test Error": the title "URLs Required" of the plugin is
    not reached from the inspector. *)
Theorem inspector_test_reaches_webhook (connected : bool) (form : Inspector.Form)
    (settings : Settings) (net : string -> FetchResult) (s : State) :
  Inspector.sent (Inspector.testConnection connected form) = Some settings ->
  let r := run net (Connection.Rotating.testConnection settings s) in
  fetched r = [trim (Inspector.rotatingWebhookUrl_value form)]
  /\ List.In (Connection.Rotating.verdict net settings) ["Test OK"; "Test Fail"; "Test Error"]
  /\ final r = emit (SetTitle (Connection.Rotating.verdict net settings)) s.
Proof.
  unfold Inspector.testConnection, Inspector.showAlert.
  destruct (String.eqb (trim (Inspector.avatarWebhookUrl_value form)) "") eqn:Ea; [discriminate |].
  destruct (String.eqb (trim (Inspector.rotatingWebhookUrl_value form)) "") eqn:Eb;
    [discriminate |].
  cbn [orb Inspector.sent]. destruct connected; [| discriminate]. intros [= <-]. cbv zeta.
  rewrite testConnection_run. cbn [final fetched].
  unfold Connection.Rotating.verdict. cbn [avatarWebhookUrl rotatingWebhookUrl Js.truthy Js.show].
  rewrite Ea, Eb. cbn [negb andb orb].
  split; [reflexivity |]. split; [| reflexivity].
  destruct (net _) as [[ok blob json] | e]; [destruct ok |]; simpl; auto.
Qed.

End InspectorTest.

(** ** A poll that brings nothing new *)

Section RunFacts.
Import Async.
Context {St : Type}.

(** A [try] around a method that returns runs as the method does. *)
Lemma run_catch_returns {A : Type} (net : string -> FetchResult) (m : Act St A)
    (h : string -> Prog St A) (a : A) :
  outcome (run net m) = Returned a -> run net (catchAct m h) = run net m.
Proof.
  induction m as [A s a' | A s e | A s url k IH | A s k IH | A c _ k IH]; simpl; intros Hm.
  - reflexivity.
  - discriminate.
  - now rewrite (IH _ _ h a Hm).
  - now rewrite (IH _ h a Hm).
  - now rewrite (IH _ h a Hm).
Qed.

End RunFacts.

Section SteadyPoll.
Import Async Inv TeamsRotating Frame Display Resolve.
Context `{Js.Builtins}.

(** On a hit a resolution is over at once: the slot holds the cached
    image, the flag is down again, one line is logged. *)
Lemma resolveAvatar_hit_eq slot user s image :
  avatarCache s !! cacheKey user = Some image ->
  resolveAvatar slot user s
  = Ret (set_fetching slot false
           (emit (Log ("Using cached avatar for user " +:+ Js.show (userId user)))
              (set_image slot (Some image) (set_fetching slot true s)))) tt.
Proof.
  intros Hc. unfold resolveAvatar, log, bind, get, modify.
  destruct slot; simpl; rewrite Hc; reflexivity.
Qed.

Lemma length_users_pos' s : users s <> [] -> (0 <? length (users s))%nat = true.
Proof. destruct (users s); [congruence | reflexivity]. Qed.

(** With a current image a display update forks nothing and requests
    nothing. *)
Lemma updateDisplay_current_prefix s image :
  users s <> [] -> currentAvatarImage s = Some image ->
  prefix (updateDisplay s) = mkRun (after updateDisplay s) (Returned tt) [] 0 [].
Proof.
  intros Hu Hc. unfold after, updateDisplay, setImageIfChanged, setImage, setTitle.
  unfold bind, get, modify, ret. simpl.
  rewrite (length_users_pos _ Hu), Hc. simpl.
  case_bool_decide; simpl; destruct (useDisplayNameAsTitle (settings s)); reflexivity.
Qed.

(** With the avatar of the next user in the cache, the pre-fetch of the
    next avatar is over at once and touches the next slot only. *)
Lemma prefetchNextAvatar_cached s :
  (forall nextUser,
     Js.at_index (users s) (Js.succ_mod (currentUserIndex s) (length (users s))) = Some nextUser ->
     Js.truthy (userId nextUser) = true ->
     is_Some (avatarCache s !! cacheKey nextUser)) ->
  exists s', prefetchNextAvatar s = Ret s' tt /\ sameButNext s s' /\ avatarCache s' = avatarCache s.
Proof.
  intros Hnext.
  destruct (prefetchNextAvatar_cases s) as [E | (u & Hf & Hu & Hid & E)].
  - exists s. split; [exact E |]. split; [apply sameButNext_refl | reflexivity].
  - destruct (Hnext u Hu Hid) as [image Hc].
    rewrite E, (resolveAvatar_hit_eq NextSlot u s image Hc).
    eexists. split; [reflexivity |]. split; [| reflexivity].
    unfold sameButNext. cbn. rewrite imagesWritten_log. tauto.
Qed.

(** X18.  A poll that brings nothing new is invisible.  When the rotating
    webhook answers with an array that sorts to the roster already held,
    the current user is the first entry with its [userId], its avatar is in
    the cache and on display under its key, and the avatar of the next user
    is in the cache too, then the poll requests the rotating webhook and
    nothing else, writes no image, and leaves the roster, the position, the
    current image, the cache and the key on display as they were. *)
Theorem steady_poll_is_invisible (net : string -> FetchResult) (s : State)
    (url : string) (resp : Response) (items : list UserEntry)
    (i : nat) (currentUser : UserEntry) (image : DataUrl) :
  rotatingWebhookUrl (settings s) = Some url -> url <> "" ->
  net url = Responded resp -> resp_ok resp = true -> resp_json resp = Some (JsonArray items) ->
  JsArray.sort compareCount items = users s ->
  currentUserIndex s = Js.Idx i -> nth_error (users s) i = Some currentUser ->
  JsArray.findIndex (fun user => bool_decide (userId user = userId currentUser)) (users s)
  = Some i ->
  Js.truthy (userId currentUser) = true ->
  isFetchingCurrent s = false -> isFetchingNext s = false ->
  avatarCache s !! cacheKey currentUser = Some image ->
  currentAvatarImage s = Some image ->
  (forall nextUser,
     Js.at_index (users s) (Js.succ_mod (currentUserIndex s) (length (users s))) = Some nextUser ->
     Js.truthy (userId nextUser) = true ->
     is_Some (avatarCache s !! cacheKey nextUser)) ->
  lastDisplayedState s = Some (stateKey s) ->
  let r := run net (fetchUsersData s) in
  outcome r = Returned tt
  /\ fetched r = [url]
  /\ imagesWritten (out (final r)) = imagesWritten (out s)
  /\ users (final r) = users s
  /\ currentUserIndex (final r) = currentUserIndex s
  /\ currentAvatarImage (final r) = currentAvatarImage s
  /\ avatarCache (final r) = avatarCache s
  /\ lastDisplayedState (final r) = lastDisplayedState s.
Proof.
  intros Hurl Hne Hnet Hok Hjson Hsort Hi Hcur Hfind Hid Hfc Hfn Hcache Himg Hnext Hlast r.
  subst r.
  assert (Hu : users s <> []) by (intros E; rewrite E in Hcur; destruct i; discriminate).
  (* the state once the answer is stored *)
  set (s1 := set_currentUserIndex (Js.Idx i) (set_users (users s) s)).
  assert (Hcur1 : prefetchCurrentAvatar s1
                  = Ret (set_fetching CurrentSlot false
                           (emit (Log ("Using cached avatar for user "
                                       +:+ Js.show (userId currentUser)))
                              (set_image CurrentSlot (Some image)
                                 (set_fetching CurrentSlot true s1)))) tt).
  { rewrite (prefetchCurrentAvatar_resolves s1 currentUser Hfc Hcur Hid).
    now apply resolveAvatar_hit_eq. }
  set (s2 := set_fetching CurrentSlot false _) in Hcur1.
  destruct (prefetchNextAvatar_cached s2) as (s3 & Hnext3 & Hframe & Hcache3).
  { intros nextUser Hn. apply Hnext. rewrite Hi. exact Hn. }
  assert (Hu3 : users s3 <> []).
  { destruct Hframe as (_ & -> & _). exact Hu. }
  assert (Himg3 : currentAvatarImage s3 = Some image).
  { destruct Hframe as (_ & _ & _ & -> & _). reflexivity. }
  assert (Hkey3 : stateKey s3 = stateKey s).
  { destruct Hframe as (_ & E1 & E2 & _). apply stateKey_ext; [rewrite E1 | rewrite E2; cbn];
      [reflexivity | now rewrite Hi]. }
  assert (Hlast3 : lastDisplayedState s3 = Some (stateKey s3)).
  { rewrite Hkey3. destruct Hframe as (_ & _ & _ & _ & _ & _ & _ & _ & -> & _). exact Hlast. }
  assert (Hrun : run net (fetchUsersData s)
                 = mkRun (after updateDisplay s3) (Returned tt) [url] 2 []).
  { unfold fetchUsersData, try_catch.
    cbn -[prefetchCurrentAvatar prefetchNextAvatar updateDisplay JsArray.sort newIndex
          setImageIfChanged Nat.ltb].
    rewrite Hurl. cbn [Js.truthy negb]. destruct (String.eqb_spec url ""); [contradiction |].
    cbn -[prefetchCurrentAvatar prefetchNextAvatar updateDisplay JsArray.sort newIndex
          setImageIfChanged Nat.ltb].
    rewrite Hnet.
    cbn -[prefetchCurrentAvatar prefetchNextAvatar updateDisplay JsArray.sort newIndex
          setImageIfChanged Nat.ltb].
    rewrite Hok.
    cbn -[prefetchCurrentAvatar prefetchNextAvatar updateDisplay JsArray.sort newIndex
          setImageIfChanged Nat.ltb].
    rewrite Hjson.
    cbn -[prefetchCurrentAvatar prefetchNextAvatar updateDisplay JsArray.sort newIndex
          setImageIfChanged Nat.ltb].
    rewrite Hsort, Hi. cbn [Js.at_index]. rewrite Hcur. unfold newIndex. rewrite Hfind.
    fold s1. rewrite (length_users_pos' _ Hu).
    match goal with
    | |- context [run net (catchAct ?k ?h)] =>
        assert (HK : run net (catchAct k h)
                     = mkRun (after updateDisplay s3) (Returned tt) [] 0 [])
    end.
    { unfold bind at 1. rewrite Hcur1. cbn [bindAct].
      unfold bind at 1. unfold get at 1. cbn [bindAct].
      assert (Hfn2 : isFetchingNext s2 = false) by exact Hfn.
      assert (Hlen2 : (0 <? length (users s2))%nat = true) by (apply (length_users_pos' _ Hu)).
      rewrite Hfn2, Hlen2. cbn [negb andb].
      unfold bind at 1. unfold spawn at 1. rewrite Hnext3. cbn [bindAct catchAct run prefix].
      assert (Hupd : run net (updateDisplay s3)
                     = mkRun (after updateDisplay s3) (Returned tt) [] 0 []).
      { rewrite run_sync; [now apply (updateDisplay_current_prefix s3 image) |].
        rewrite updateDisplay_returns. discriminate. }
      rewrite (run_catch_returns net (updateDisplay s3) _ tt) by (now rewrite Hupd).
      rewrite Hupd. reflexivity. }
    rewrite HK. reflexivity. }
  rewrite Hrun. cbn [final outcome fetched].
  assert (Hafter : after updateDisplay s3 = emit (SetTitle (titleOf s3)) s3).
  { rewrite (updateDisplay_current s3 image Hu3 Himg3), setImageIfChanged_after.
    now rewrite (bool_decide_eq_true_2 _ Hlast3). }
  rewrite Hafter.
  cbn [emit set_out out users currentUserIndex currentAvatarImage avatarCache lastDisplayedState].
  rewrite imagesWritten_title.
  destruct Hframe as (_ & F2 & F3 & F4 & _ & _ & _ & _ & F9 & _ & _ & F12).
  rewrite F12, F2, F3, F4, F9, Hcache3. subst s2 s1. cbn. rewrite imagesWritten_log.
  split; [reflexivity |]. split; [reflexivity |]. split; [reflexivity |].
  split; [reflexivity |]. split; [now rewrite Hi |]. split; [now rewrite Himg |].
  split; reflexivity.
Qed.

End SteadyPoll.

(** ** Keys are unambiguous *)

Section KeyFacts.
Import JsText.

Lemma occurs_app c a b : occurs c (a +:+ b) = (occurs c a || occurs c b)%bool.
Proof.
  induction a as [| x a IH]; [reflexivity |].
  change (occurs c (String x a +:+ b)) with (Ascii.eqb c x || occurs c (a +:+ b))%bool.
  rewrite IH. apply orb_assoc.
Qed.

Lemma allDigits_no_underscore s : allDigits s = true -> occurs "_" s = false.
Proof.
  induction s as [| c s IH]; simpl; [reflexivity |].
  destruct (digit 10 c) as [d |] eqn:Hd; [| discriminate]. intros Hs. rewrite (IH Hs).
  destruct c as [[] [] [] [] [] [] [] []]; try reflexivity; vm_compute in Hd; discriminate.
Qed.

Lemma pretty_N_no_underscore (n : N) : occurs "_" (pretty n) = false.
Proof.
  unfold pretty, pretty_N. destruct (decide (n = 0)%N) as [-> | Hn]; [reflexivity |].
  apply allDigits_no_underscore, pretty_N_go_digits. lia.
Qed.

Lemma pretty_Z_no_underscore (z : Z) : occurs "_" (pretty z) = false.
Proof.
  destruct z as [| p | p]; [reflexivity | apply (pretty_N_no_underscore (N.pos p)) |].
  change (pretty (Z.neg p)) with ("-" +:+ pretty (N.pos p)).
  rewrite occurs_app, (pretty_N_no_underscore (N.pos p)). reflexivity.
Qed.

Lemma show_index_no_underscore i : occurs "_" (Js.show_index i) = false.
Proof. destruct i as [n |]; [apply (pretty_N_no_underscore (N.of_nat n)) | reflexivity]. Qed.

Lemma show_index_inj i j : Js.show_index i = Js.show_index j -> i = j.
Proof.
  assert (Hnan : forall n : nat, pretty n <> "NaN").
  { intros n E. unfold pretty, pretty_nat, pretty, pretty_N in E.
    destruct (decide (N.of_nat n = 0)%N) as [_ | Hn]; [discriminate |].
    destruct (pretty_N_go_digits (N.of_nat n)) as [Hall _]; [lia |].
    rewrite E in Hall. discriminate. }
  destruct i as [n |], j as [m |]; simpl; intros E.
  - f_equal. now apply (inj pretty).
  - now destruct (Hnan n).
  - now destruct (Hnan m).
  - reflexivity.
Qed.

(** Two strings that end in an underscore and a tail without underscore
    are equal only if their tails are, and what is before. *)
Lemma split_last_underscore x : forall y p q,
  occurs "_" p = false -> occurs "_" q = false ->
  x +:+ String "_" p = y +:+ String "_" q -> x = y /\ p = q.
Proof.
  induction x as [| c x IH]; intros [| d y] p q Hp Hq E.
  - injection E as ->. split; reflexivity.
  - change (String "_" p = String d (y +:+ String "_" q)) in E. injection E as <- ->.
    rewrite occurs_app in Hp. simpl in Hp. rewrite orb_true_r in Hp. discriminate.
  - change (String c (x +:+ String "_" p) = String "_" q) in E. injection E as -> <-.
    rewrite occurs_app in Hq. simpl in Hq. rewrite orb_true_r in Hq. discriminate.
  - change (String c (x +:+ String "_" p) = String d (y +:+ String "_" q)) in E.
    injection E as -> E. destruct (IH y p q Hp Hq E) as [-> ->]. split; reflexivity.
Qed.

Lemma append_underscore_assoc a c i :
  a +:+ String "_" (c +:+ String "_" i) = (a +:+ String "_" c) +:+ String "_" i.
Proof.
  induction a as [| x a IH]; [reflexivity |].
  exact (f_equal (String x) IH).
Qed.

End KeyFacts.

Section Keys.
Import JsText.
Context `{Js.Builtins}.

(** X19.  The keys are unambiguous.  Two roster entries have the same cache
    key exactly when their [userId]s print alike and their counts, a
    missing count read as 0, are equal: an underscore in a [userId] cannot
    make the key of one user that of another.  Likewise two sessions of the
    carousel have the same display key exactly when they agree on the
    printed [userId] and the count of the current user and on the position,
    and two sessions of the single avatar exactly when they agree on the
    printed email and on the count. *)
Theorem keys_unambiguous :
  (forall u v : UserEntry,
     TeamsRotating.cacheKey u = TeamsRotating.cacheKey v
     <-> Js.show (userId u) = Js.show (userId v)
         /\ Js.num_or_0 (count u) = Js.num_or_0 (count v))
  /\ (forall s t : TeamsRotating.State,
        let current (s : TeamsRotating.State) :=
          Js.at_index (TeamsRotating.users s) (TeamsRotating.currentUserIndex s) in
        TeamsRotating.stateKey s = TeamsRotating.stateKey t
        <-> Js.show (current s ≫= userId) = Js.show (current t ≫= userId)
            /\ Js.num_or_0 (current s ≫= count) = Js.num_or_0 (current t ≫= count)
            /\ TeamsRotating.currentUserIndex s = TeamsRotating.currentUserIndex t)
  /\ (forall s t : TeamsAvatar.State,
        Single.stateKey s = Single.stateKey t
        <-> Js.show (userEmail (TeamsAvatar.settings s))
            = Js.show (userEmail (TeamsAvatar.settings t))
            /\ TeamsAvatar.unreadCount s = TeamsAvatar.unreadCount t).
Proof.
  split; [| split].
  - intros u v. unfold TeamsRotating.cacheKey. split.
    + intros E.
      apply (split_last_underscore _ _ _ _ (pretty_Z_no_underscore _) (pretty_Z_no_underscore _))
        in E as [E1 E2].
      split; [exact E1 | now apply (inj pretty)].
    + intros [-> ->]. reflexivity.
  - intros s t current. unfold TeamsRotating.stateKey. fold (current s). fold (current t).
    generalize (current s) (current t). intros us ut. split.
    + intros E.
      change ("avatar:" +:+ ?x) with
        (String "a" (String "v" (String "a" (String "t" (String "a" (String "r" (String ":" x)))))))
        in E.
      injection E as E.
      change (Js.show (us ≫= userId)
              +:+ String "_" (pretty (Js.num_or_0 (us ≫= count))
                              +:+ String "_" (Js.show_index (TeamsRotating.currentUserIndex s)))
              = Js.show (ut ≫= userId)
                +:+ String "_" (pretty (Js.num_or_0 (ut ≫= count))
                                +:+ String "_" (Js.show_index (TeamsRotating.currentUserIndex t))))
        in E.
      rewrite !append_underscore_assoc in E.
      apply (split_last_underscore _ _ _ _ (show_index_no_underscore _)
               (show_index_no_underscore _)) in E as [E E3].
      apply (split_last_underscore _ _ _ _ (pretty_Z_no_underscore _) (pretty_Z_no_underscore _))
        in E as [E1 E2].
      split; [exact E1 |]. split; [now apply (inj pretty) | now apply show_index_inj].
    + intros (-> & -> & ->). reflexivity.
  - intros s t. unfold Single.stateKey. split.
    + intros E.
      change ("avatar:" +:+ ?x) with
        (String "a" (String "v" (String "a" (String "t" (String "a" (String "r" (String ":" x)))))))
        in E.
      injection E as E.
      apply (split_last_underscore _ _ _ _ (pretty_Z_no_underscore _) (pretty_Z_no_underscore _))
        in E as [E1 E2].
      split; [exact E1 | now apply (inj pretty)].
    + intros [-> ->]. reflexivity.
Qed.

End Keys.

(** ** Bots *)

Section Bots.
Import Async TeamsRotating Resolve.
Context `{Js.Builtins}.

(** X20.  Bots never reach the avatar webhook.  For a roster entry whose
    [fromType] is "bot" and whose key is not in the cache, a resolution
    makes no request at all, whatever the settings and the network: it
    returns with the initials image of the entry, the count drawn over it,
    in its slot and in the cache under the key of the entry, and the
    in-flight flag down.  The initials are those of the display name, or of
    the [userId] when there is no display name; for the display name
    "Workflows" they are "WF". *)
Theorem bots_never_fetch (net : string -> FetchResult) (slot : Slot) (user : UserEntry)
    (s : State) :
  fromType user = Some "bot" ->
  avatarCache s !! cacheKey user = None ->
  let r := run net (resolveAvatar slot user s) in
  let initials :=
    Render.generateInitialsImage (nameOf user)
      (if bool_decide (displayName user = Some "Workflows") then Some "WF" else None) in
  let image := DataUrlOfCanvas (Render.overlayCanvas initials (Js.num_or_0 (count user))) in
  outcome r = Returned tt
  /\ fetched r = []
  /\ imageOf slot (final r) = Some image
  /\ avatarCache (final r) = <[cacheKey user := image]> (avatarCache s)
  /\ fetchingOf slot (final r) = false
  /\ Render.initialsOf "Workflows" (Some "WF") = "WF".
Proof.
  intros Hbot Hc r initials image. subst r initials image.
  unfold resolveAvatar. rewrite (bool_decide_eq_true_2 _ Hbot).
  set (initials := Render.generateInitialsImage _ _).
  assert (Hl : loads initials = true) by reflexivity. clearbody initials.
  unfold compositeAndCache, overlayCountOnImage, blobToDataUrl, log,
    Render.overlayCountResult. rewrite Hl.
  destruct s as [cfg us idx cur nxt fn fc tr cache frames fi last ti st o].
  unfold bind, try_catch, try_finally, get, modify, ret, throw, fetch, await, spawn.
  cbn [avatarCache] in Hc.
  destruct slot; cbn -[cacheKey Render.overlayCanvas]; rewrite Hc;
    cbn -[cacheKey Render.overlayCanvas]; repeat split.
Qed.

End Bots.

(** ** Restarting *)

Section Restart.
Import Async.
Context `{Js.Builtins}.

(** How a poll of the carousel starts: with a rotating URL it is suspended
    on its request and nothing has changed; without one, and no key on
    display, it has returned with the "Config Required" image written. *)
Lemma fetchUsersData_starts (s : TeamsRotating.State) (url : option string) :
  rotatingWebhookUrl (TeamsRotating.settings s) = url ->
  (Js.truthy url = true ->
   exists k, TeamsRotating.fetchUsersData s = AwaitFetch s (Js.show url) k)
  /\ (Js.truthy url = false ->
      TeamsRotating.lastDisplayedState s = None ->
      TeamsRotating.fetchUsersData s
      = Ret (TeamsRotating.emit (SetImage Render.generateConfigRequiredImage)
               (TeamsRotating.set_lastDisplayedState (Some "configRequired") s)) tt).
Proof.
  intros <-.
  destruct s as [cfg us idx cur nxt fn fc tr cache frames fi last ti st o].
  unfold TeamsRotating.fetchUsersData, TeamsRotating.setImageIfChanged, TeamsRotating.setImage.
  unfold try_catch, bind, get, fetch, modify, ret. simpl.
  destruct (Js.truthy (rotatingWebhookUrl cfg)); simpl;
    (split; intros Ht; [try discriminate Ht | try discriminate Ht]).
  - eexists. reflexivity.
  - intros ->. reflexivity.
Qed.

(** The synchronous part of [onDidReceiveSettings]: the fields are reset,
    the poll is called without [await], and the frame timer is cleared. *)
Lemma onDidReceiveSettings_forks (settings : Settings) (s : TeamsRotating.State) :
  Lifecycle.onDidReceiveSettings settings s
  = Fork (TeamsRotating.fetchUsersData
            {| TeamsRotating.settings := settings; TeamsRotating.users := [];
               TeamsRotating.currentUserIndex := Js.Idx 0;
               TeamsRotating.currentAvatarImage := None;
               TeamsRotating.nextAvatarImage := None;
               TeamsRotating.isFetchingNext := false;
               TeamsRotating.isFetchingCurrent := false;
               TeamsRotating.isTransitioning := false;
               TeamsRotating.avatarCache := ∅; TeamsRotating.transitionFrames := [];
               TeamsRotating.currentFrameIndex := TeamsRotating.currentFrameIndex s;
               TeamsRotating.lastDisplayedState := None;
               TeamsRotating.transitionInterval := false;
               TeamsRotating.safetyTimeout := TeamsRotating.safetyTimeout s;
               TeamsRotating.out := TeamsRotating.out s |})
         (fun s' => Ret (TeamsRotating.set_transitionInterval false s') tt).
Proof.
  destruct s as [cfg us idx cur nxt fn fc tr cache frames fi last ti st o]. reflexivity.
Qed.

(** The settings and the roster right after a settings change. *)
Lemma restarted_settings_and_roster (settings : Settings) (s : TeamsRotating.State) :
  let s' := final (prefix (Lifecycle.onDidReceiveSettings settings s)) in
  TeamsRotating.settings s' = settings /\ TeamsRotating.users s' = [].
Proof.
  cbv zeta. rewrite onDidReceiveSettings_forks.
  match goal with
  | |- context [TeamsRotating.fetchUsersData ?s0] =>
      destruct (fetchUsersData_starts s0 (rotatingWebhookUrl settings) eq_refl) as [Hyes Hno]
  end.
  destruct (Js.truthy (rotatingWebhookUrl settings)).
  - destruct (Hyes eq_refl) as [k ->]. clear. cbn. split; reflexivity.
  - rewrite (Hno eq_refl eq_refl). clear. cbn. split; reflexivity.
Qed.


(** How a poll of the single avatar starts when the cache is empty: with
    an email and both URLs it is suspended on the request for the avatar
    and nothing has changed; otherwise, with no key on display, it has
    returned with the "Config Required" image written. *)
Lemma fetchData_starts (s : TeamsAvatar.State) (cfg : Settings) :
  TeamsAvatar.settings s = cfg ->
  TeamsAvatar.avatarCache s = ∅ ->
  (SingleLifecycle.configured cfg = true ->
   exists k, TeamsAvatar.fetchData s
             = AwaitFetch s (Js.show (avatarWebhookUrl cfg) +:+ "?user="
                             +:+ Js.encodeURIComponent (Js.show (userEmail cfg))) k)
  /\ (SingleLifecycle.configured cfg = false ->
      TeamsAvatar.lastDisplayedImageState s = None ->
      TeamsAvatar.fetchData s
      = Ret (TeamsAvatar.emit (SetImage Render.generateConfigRequiredImage)
               (TeamsAvatar.set_lastDisplayedImageState (Some "configRequired") s)) tt).
Proof.
  intros <- Hc.
  destruct s as [cfg img msgs unread cache last o]. simpl in Hc. subst cache.
  unfold SingleLifecycle.configured, TeamsAvatar.fetchData, TeamsAvatar.setImageIfChanged,
    TeamsAvatar.setImage.
  unfold try_catch, bind, get, fetch, modify, ret. simpl.
  destruct (Js.truthy (userEmail cfg)), (Js.truthy (avatarWebhookUrl cfg)),
    (Js.truthy (messagesWebhookUrl cfg)); simpl;
    (split; intros Ht; [try discriminate Ht | try discriminate Ht]).
  1: rewrite lookup_empty; simpl; eexists; reflexivity.
  all: intros ->; reflexivity.
Qed.

Lemma single_onDidReceiveSettings_forks (settings : Settings) (s : TeamsAvatar.State) :
  SingleLifecycle.onDidReceiveSettings settings s
  = Fork (TeamsAvatar.fetchData
            {| TeamsAvatar.settings := settings;
               TeamsAvatar.avatarImage := TeamsAvatar.avatarImage s;
               TeamsAvatar.messages := TeamsAvatar.messages s;
               TeamsAvatar.unreadCount := TeamsAvatar.unreadCount s;
               TeamsAvatar.avatarCache := ∅;
               TeamsAvatar.lastDisplayedImageState := None;
               TeamsAvatar.out := TeamsAvatar.out s |})
         (fun s' => Ret s' tt).
Proof.
  destruct s as [cfg img msgs unread cache last o]. reflexivity.
Qed.

(** X22.  A settings change of the single avatar empties the cache and
    starts a poll: when [onDidReceiveSettings] hands control back the
    instance holds the new settings, an empty cache and the avatar, the
    messages and the count it held before.  With an email and both URLs
    the request for the avatar of the new email is out, whatever the cache
    held before, and the poll is suspended on it; otherwise nothing is
    requested and the "Config Required" image has been written. *)
Theorem settings_change_refetches_avatar (settings : Settings) (s : TeamsAvatar.State) :
  let r := prefix (SingleLifecycle.onDidReceiveSettings settings s) in
  let s' := final r in
  outcome r = Returned tt
  /\ TeamsAvatar.settings s' = settings
  /\ TeamsAvatar.avatarCache s' = ∅
  /\ TeamsAvatar.avatarImage s' = TeamsAvatar.avatarImage s
  /\ TeamsAvatar.messages s' = TeamsAvatar.messages s
  /\ TeamsAvatar.unreadCount s' = TeamsAvatar.unreadCount s
  /\ (if SingleLifecycle.configured settings then
        fetched r = [ Js.show (avatarWebhookUrl settings) +:+ "?user="
                      +:+ Js.encodeURIComponent (Js.show (userEmail settings)) ]
        /\ length (detached r) = 1%nat
        /\ TeamsAvatar.lastDisplayedImageState s' = None
        /\ imagesWritten (TeamsAvatar.out s') = imagesWritten (TeamsAvatar.out s)
      else
        fetched r = [] /\ detached r = []
        /\ TeamsAvatar.lastDisplayedImageState s' = Some "configRequired"
        /\ imagesWritten (TeamsAvatar.out s')
           = imagesWritten (TeamsAvatar.out s) ++ [Render.generateConfigRequiredImage]).
Proof.
  cbv zeta. rewrite single_onDidReceiveSettings_forks.
  match goal with
  | |- context [TeamsAvatar.fetchData ?s0] =>
      destruct (fetchData_starts s0 settings eq_refl eq_refl) as [Hyes Hno]
  end.
  destruct (SingleLifecycle.configured settings).
  - destruct (Hyes eq_refl) as [k ->]. clear. cbn. repeat split.
  - rewrite (Hno eq_refl eq_refl). clear. cbn. rewrite imagesWritten_image. repeat split.
Qed.

End Restart.

(** ** A poll in flight when the settings change *)

Ltac settings_step :=
  lazymatch goal with
  | |- Inv.Keeps _ (Async.bind _ _) => apply Keeps_bind; [| intros ?]
  | |- Inv.Keeps _ (Async.try_finally _ _) => apply Keeps_try_finally
  | |- Inv.Keeps _ (Async.try_catch _ _) => apply Keeps_try_catch; [| intros ?]
  | |- Inv.Keeps _ Async.get => apply Keeps_get
  | |- Inv.Keeps _ (Async.ret _) => apply Keeps_ret
  | |- Inv.Keeps _ (Async.throw _) => apply Keeps_throw
  | |- Inv.Keeps _ (Async.fetch _) => apply Keeps_fetch
  | |- Inv.Keeps _ (Async.await _) => apply Keeps_await
  | |- Inv.Keeps _ (Async.spawn _) => apply Keeps_spawn
  | |- Inv.Keeps _ (Async.modify _) => apply Keeps_modify; intros ? Hs; exact Hs
  | |- Inv.Keeps _ (if ?b then _ else _) => destruct b
  | |- Inv.Keeps _ (match ?x with _ => _ end) => destruct x
  | |- forall _, _ -> _ => intros ? Hs; exact Hs
  end.

Section StalePoll.
Import Async Inv TeamsRotating Frame.
Context `{Js.Builtins}.

(** No method of a poll assigns the settings. *)
Lemma resolveAvatar_settings cfg slot user :
  Keeps (fun s => settings s = cfg) (resolveAvatar slot user).
Proof.
  unfold resolveAvatar, compositeAndCache, overlayCountOnImage, blobToDataUrl, log.
  destruct slot; repeat settings_step.
Qed.

Lemma prefetchNextAvatar_settings cfg : Keeps (fun s => settings s = cfg) prefetchNextAvatar.
Proof. unfold prefetchNextAvatar. repeat settings_step; apply resolveAvatar_settings. Qed.

Lemma prefetchCurrentAvatar_settings cfg : Keeps (fun s => settings s = cfg) prefetchCurrentAvatar.
Proof. unfold prefetchCurrentAvatar. repeat settings_step; apply resolveAvatar_settings. Qed.

Lemma setImageIfChanged_settings cfg image key :
  Keeps (fun s => settings s = cfg) (setImageIfChanged image key).
Proof. unfold setImageIfChanged, setImage. repeat settings_step. Qed.

Lemma updateDisplay_settings cfg : Keeps (fun s => settings s = cfg) updateDisplay.
Proof.
  unfold updateDisplay, setTitle.
  repeat settings_step;
    first [apply setImageIfChanged_settings | apply prefetchNextAvatar_settings].
Qed.

(** A poll resumed with an array, in whatever state [s1] the session has by
    then: the array is installed, sorted, with the position re-anchored on
    the user that is current in [s1]; the settings of [s1] stay. *)
Lemma fetchUsersData_resumed net s s1 url resp items :
  rotatingWebhookUrl (settings s) = Some url -> url <> "" ->
  net url = Responded resp -> resp_ok resp = true -> resp_json resp = Some (JsonArray items) ->
  let r := run net (resume net (fetchUsersData s) s1) in
  let sortedUsers := JsArray.sort compareCount items in
  users (final r) = sortedUsers
  /\ currentUserIndex (final r)
     = Js.Idx (newIndex (Js.at_index (users s1) (currentUserIndex s1)) sortedUsers)
  /\ settings (final r) = settings s1.
Proof.
  intros Hurl Hne Hnet Hok Hjson r sortedUsers. subst r sortedUsers.
  unfold fetchUsersData, try_catch.
  cbn -[prefetchCurrentAvatar prefetchNextAvatar updateDisplay JsArray.sort newIndex setImageIfChanged].
  rewrite Hurl. cbn [Js.truthy negb]. destruct (String.eqb_spec url ""); [contradiction |].
  cbn -[prefetchCurrentAvatar prefetchNextAvatar updateDisplay JsArray.sort newIndex setImageIfChanged].
  rewrite Hnet.
  cbn -[prefetchCurrentAvatar prefetchNextAvatar updateDisplay JsArray.sort newIndex setImageIfChanged].
  rewrite Hok.
  cbn -[prefetchCurrentAvatar prefetchNextAvatar updateDisplay JsArray.sort newIndex setImageIfChanged].
  rewrite Hjson.
  cbn -[prefetchCurrentAvatar prefetchNextAvatar updateDisplay JsArray.sort newIndex setImageIfChanged].
  set (s2 := set_currentUserIndex _ _).
  match goal with
  | |- context [final (run net ?m)] =>
      assert (Hk : sameRoster s2 (final (run net m)));
      [| assert (Hc : settings (final (run net m)) = settings s1) ]
  end.
  - apply keeps_run, keeps_catchAct.
    + match goal with
      | |- keeps ?R (?m s2) => cut (Keeps R m); [intros HK; apply HK, sameRoster_refl |]
      end.
      keeps_auto;
        first [ apply prefetchCurrentAvatar_sameRoster
              | apply prefetchNextAvatar_sameRoster
              | apply updateDisplay_sameRoster ].
    + intros e. unfold log. keeps_auto. apply setImageIfChanged_sameRoster.
  - apply (keeps_run (fun x => settings x = settings s1)), keeps_catchAct.
    + match goal with
      | |- keeps ?R (?m s2) => cut (Keeps R m); [intros HK; apply HK; reflexivity |]
      end.
      repeat settings_step;
        first [ apply prefetchCurrentAvatar_settings
              | apply prefetchNextAvatar_settings
              | apply updateDisplay_settings ].
    + intros e. unfold log. repeat settings_step. apply setImageIfChanged_settings.
  - destruct Hk as (Hu & Hi & _). split; [exact Hu |]. split; [exact Hi | exact Hc].
Qed.

(** X23.  A poll in flight outlives a settings change.  Let a poll be
    suspended on its request to the rotating URL of the old settings when
    [onDidReceiveSettings] delivers new ones.  When that webhook then
    answers with an array, the suspended poll installs it in the restarted
    carousel: the roster is the sorted array of the old webhook, at
    position 0, under the new settings.  Nothing in the continuation of the
    poll looks at the settings again. *)
Theorem poll_in_flight_outlives_settings_change (net : string -> FetchResult) (s : State)
    (settings' : Settings) (url : string) (resp : Response) (items : list UserEntry) :
  rotatingWebhookUrl (settings s) = Some url -> url <> "" ->
  net url = Responded resp -> resp_ok resp = true -> resp_json resp = Some (JsonArray items) ->
  let poll := fetchUsersData s in
  let s1 := final (prefix (Lifecycle.onDidReceiveSettings settings' s)) in
  let r := run net (resume net poll s1) in
  outcome (prefix poll) = Suspended /\ fetched (prefix poll) = [url]
  /\ settings s1 = settings' /\ users s1 = []
  /\ settings (final r) = settings'
  /\ users (final r) = JsArray.sort compareCount items
  /\ currentUserIndex (final r) = Js.Idx 0.
Proof.
  intros Hurl Hne Hnet Hok Hjson poll s1 r.
  destruct (restarted_settings_and_roster settings' s) as (Hs1 & Hu1).
  fold s1 in Hs1, Hu1.
  destruct (fetchUsersData_resumed net s s1 url resp items Hurl Hne Hnet Hok Hjson)
    as (Hu & Hi & Hc).
  fold poll in Hu, Hi, Hc. fold r in Hu, Hi, Hc.
  assert (Ht : Js.truthy (Some url) = true).
  { cbn [Js.truthy]. destruct (String.eqb_spec url ""); [contradiction | reflexivity]. }
  destruct (fetchUsersData_starts s (Some url) Hurl) as [Hyes _].
  destruct (Hyes Ht) as [k Hk].
  split; [subst poll; rewrite Hk; reflexivity |].
  split; [subst poll; rewrite Hk; reflexivity |].
  split; [exact Hs1 |]. split; [exact Hu1 |].
  split; [now rewrite Hc |]. split; [exact Hu |].
  rewrite Hi, Hu1. destruct (currentUserIndex s1) as [[| i] |]; reflexivity.
Qed.

End StalePoll.

Section FurtherSession.
Import Async TeamsRotating Example.

(** The roster webhook cannot be reached once the session is ready: the
    error image is written and the carousel keeps its roster. *)
Lemma failed_poll_keeps_carousel_witness :
  Poll.failure (fun _ => NetworkError "Failed to fetch") ready
  = Some ("error", Render.generateErrorImage)
  /\ users (final (run (fun _ => NetworkError "Failed to fetch") (@fetchUsersData asciiBuiltins ready)))
     = users ready
  /\ imagesWritten
       (out (final (run (fun _ => NetworkError "Failed to fetch") (@fetchUsersData asciiBuiltins ready))))
     = imagesWritten (out ready) ++ [Render.generateErrorImage].
Proof.
  assert (Hf : Poll.failure (fun _ => NetworkError "Failed to fetch") ready
               = Some ("error", Render.generateErrorImage)) by (vm_compute; reflexivity).
  split; [exact Hf |].
  destruct (@failed_poll_keeps_carousel asciiBuiltins _ _ _ _ Hf)
    as (Hu & _ & _ & _ & _ & _ & _ & Hw & _).
  split; [exact Hu |].
  rewrite Hw. f_equal.
Defined.

(** The session that is ready has two images that load: a crossfade
    starts. *)
Lemma transition_started_or_instant_witness :
  users ready <> [] /\ isTransitioning ready = false
  /\ isTransitioning (final (run net404 (@showNextUserWithTransition asciiBuiltins ready))) = true
  /\ length (transitionFrames (final (run net404 (@showNextUserWithTransition asciiBuiltins ready))))
     = 25%nat.
Proof.
  assert (Hu : users ready <> []) by (vm_compute; discriminate).
  assert (Ht : isTransitioning ready = false) by (vm_compute; reflexivity).
  split; [exact Hu |]. split; [exact Ht |].
  pose proof (proj2 (proj2 (@transition_started_or_instant asciiBuiltins net404 ready)) Hu Ht) as Hs.
  assert (Hc : Playback.canCrossfade ready = true) by (vm_compute; reflexivity).
  rewrite Hc in Hs. destruct Hs as (H1 & _ & _ & _ & _ & H6 & _).
  split; [exact H1 | exact H6].
Defined.

Lemma crossfade_played_to_its_end_witness :
  users ready <> [] /\ isTransitioning ready = false
  /\ currentAvatarImage ready = Some readyCurrent /\ nextAvatarImage ready = Some readyNext
  /\ loads readyCurrent = true /\ loads readyNext = true
  /\ currentAvatarImage
       (@Playback.ticks asciiBuiltins 26
          (final (run net404 (@showNextUserWithTransition asciiBuiltins ready))))
     = Some readyNext.
Proof.
  assert (Hu : users ready <> []) by (vm_compute; discriminate).
  assert (Ht : isTransitioning ready = false) by (vm_compute; reflexivity).
  assert (Hc : currentAvatarImage ready = Some readyCurrent) by (vm_compute; reflexivity).
  assert (Hn : nextAvatarImage ready = Some readyNext) by (vm_compute; reflexivity).
  assert (Hlc : loads readyCurrent = true) by (vm_compute; reflexivity).
  assert (Hln : loads readyNext = true) by (vm_compute; reflexivity).
  repeat (split; [assumption |]).
  destruct (proj2 (@crossfade_played_to_its_end asciiBuiltins net404 ready readyCurrent readyNext
                     Hu Ht Hc Hn Hlc Hln)) as (_ & _ & _ & _ & H5 & _).
  exact H5.
Defined.

(** The whole playback on the example session: 25 frames and the image of
    the bot, which is then the current user. *)
Example playback_example :
  let s2 := @Playback.ticks asciiBuiltins 26 playing in
  length (imagesWritten (out s2)) = (length (imagesWritten (out ready)) + 26)%nat
  /\ currentUserIndex s2 = Js.Idx 1
  /\ lastDisplayedState s2 = Some "avatar:b1_3_1".
Proof. vm_compute. repeat split. Qed.

(** The current image is lost: the display update shows the next image and
    makes it the current one. *)
Lemma updateDisplay_settles_witness :
  users (set_currentAvatarImage None ready) <> []
  /\ nextAvatarImage (set_currentAvatarImage None ready) = Some readyNext
  /\ currentAvatarImage (after (@updateDisplay asciiBuiltins) (set_currentAvatarImage None ready))
     = Some readyNext.
Proof.
  assert (Hu : users (set_currentAvatarImage None ready) <> []) by (vm_compute; discriminate).
  assert (Hn : nextAvatarImage (set_currentAvatarImage None ready) = Some readyNext)
    by (vm_compute; reflexivity).
  split; [exact Hu |]. split; [exact Hn |].
  destruct (@updateDisplay_settles asciiBuiltins (set_currentAvatarImage None ready))
    as (_ & _ & _ & _ & Hshow).
  exact (proj1 (Hshow readyNext Hu (or_intror (conj eq_refl Hn)))).
Defined.

Lemma carousel_round_robin_witness :
  users ready <> [] /\ currentUserIndex ready = Js.Idx 0 /\ (0 < length (users ready))%nat
  /\ currentUserIndex (@Carousel.switches asciiBuiltins (length (users ready)) ready) = Js.Idx 0.
Proof.
  assert (Hu : users ready <> []) by (vm_compute; discriminate).
  assert (Hi : currentUserIndex ready = Js.Idx 0) by (vm_compute; reflexivity).
  assert (Hlt : (0 < length (users ready))%nat) by (vm_compute; lia).
  split; [exact Hu |]. split; [exact Hi |]. split; [exact Hlt |].
  exact (proj1 (proj2 (@carousel_round_robin asciiBuiltins ready 0 Hu Hi Hlt))).
Defined.

(** The entry of the first user outlives the pre-fetch for the second. *)
Lemma prefetch_keeps_cache_entries_witness :
  avatarCache ready !! "u1_5" = Some readyCurrent
  /\ avatarCache (final (run netOk (@prefetchNextAvatar asciiBuiltins ready))) !! "u1_5"
     = Some readyCurrent.
Proof.
  assert (Hk : avatarCache ready !! "u1_5" = Some readyCurrent) by (vm_compute; reflexivity).
  split; [exact Hk |].
  exact (proj1 (@prefetch_keeps_cache_entries asciiBuiltins netOk ready "u1_5" readyCurrent Hk)).
Defined.

End FurtherSession.

Section WalkFacts.
Import Async TeamsRotating Session Walk.

Lemma reachable_resumeFirst net c :
  @reachable asciiBuiltins c -> @reachable asciiBuiltins (resumeFirst asciiBuiltins net c).
Proof.
  intros Hc. unfold resumeFirst. destruct (pending c) as [| task rest] eqn:Hp; [exact Hc |].
  eapply reachable_step; [exact Hc |].
  exact (@step_resume asciiBuiltins c net [] task rest Hp).
Qed.

Lemma reachable_resumeMany net n : forall c,
  @reachable asciiBuiltins c -> @reachable asciiBuiltins (resumeMany asciiBuiltins net n c).
Proof.
  induction n as [| n IH]; intros c Hc; simpl; [exact Hc |].
  apply IH, reachable_resumeFirst, Hc.
Qed.

Lemma reachable_appeared : @reachable asciiBuiltins appeared.
Proof.
  eapply reachable_step; [apply (reachable_start Example.config) |].
  exact (@step_event asciiBuiltins (mkConfig (initial Example.config) []) WillAppear).
Qed.

Lemma reachable_shown : @reachable asciiBuiltins shown.
Proof. apply reachable_resumeMany, reachable_appeared. Qed.

Lemma reachable_settled : @reachable asciiBuiltins settled.
Proof. apply reachable_resumeMany, reachable_appeared. Qed.

(** The walk ends where the example session is ready, but for what the
    appearance of the button wrote. *)
Example settled_is_ready :
  users (state settled) = users Example.ready
  /\ currentAvatarImage (state settled) = currentAvatarImage Example.ready
  /\ nextAvatarImage (state settled) = nextAvatarImage Example.ready
  /\ avatarCache (state settled) = avatarCache Example.ready
  /\ pending settled = []
  /\ imagesWritten (out (state settled))
     = Render.generateLoadingImage :: imagesWritten (out Example.ready).
Proof. vm_compute. repeat split. Qed.

(** A carousel tick interrupted by a settings change.  The session is
    settled, with a roster and both images, and the carousel timer fires:
    the transition is in progress and frame generation is suspended on the
    load of the current image.  New settings, without URLs, are delivered
    and reset the images.  The tick is resumed twice: there is no next
    image to load, frame generation fails, the failure is logged, no frame
    is stored and the transition is over. *)
Example settings_change_interrupts_crossfade :
  let c1 := settle (@handler asciiBuiltins (CarouselTimer false) (state settled))
              (pending settled) in
  let c2 := settle (@handler asciiBuiltins
                      (DidReceiveSettings (mkSettings None None None None false)) (state c1))
              (pending c1) in
  let c3 := resumeMany asciiBuiltins Example.net404 2 c2 in
  @reachable asciiBuiltins c3
  /\ users (state settled) <> [] /\ isTransitioning (state settled) = false
  /\ is_Some (currentAvatarImage (state settled)) /\ is_Some (nextAvatarImage (state settled))
  /\ isTransitioning (state c1) = true /\ length (pending c2) = 1%nat
  /\ isTransitioning (state c3) = false /\ transitionFrames (state c3) = []
  /\ pending c3 = []
  /\ In (Log "Transition frame generation failed: Failed to generate transition frames: undefined")
        (out (state c3)).
Proof.
  intros c1 c2 c3. split.
  - apply reachable_resumeMany.
    eapply reachable_step; [| apply step_event].
    eapply reachable_step; [| apply step_event].
    exact reachable_settled.
  - split; [vm_compute; discriminate |]. split; [vm_compute; reflexivity |].
    split; [vm_compute; eauto |]. split; [vm_compute; eauto |].
    split; [vm_compute; reflexivity |]. split; [vm_compute; reflexivity |].
    split; [vm_compute; reflexivity |]. split; [vm_compute; reflexivity |].
    split; [vm_compute; reflexivity |].
    vm_compute. repeat first [now left | right].
Qed.

Lemma images_always_load_witness :
  @reachable asciiBuiltins settled /\ Images.loadable (state settled).
Proof.
  split; [exact reachable_settled |].
  exact (proj1 (@images_always_load asciiBuiltins settled reachable_settled)).
Defined.

Lemma cache_never_evicts_witness :
  @reachable asciiBuiltins shown
  /\ is_Some (avatarCache (state shown) !! "u1_5")
  /\ is_Some (avatarCache
                (state (settle (@handler asciiBuiltins KeyUp (state shown)) (pending shown)))
              !! "u1_5").
Proof.
  assert (Hk : is_Some (avatarCache (state shown) !! "u1_5")) by (vm_compute; eauto).
  split; [exact reachable_shown |]. split; [exact Hk |].
  refine (@cache_never_evicts asciiBuiltins shown _ (Delivered KeyUp) "u1_5"
            reachable_shown (@step_event asciiBuiltins shown KeyUp) _ Hk).
  discriminate.
Defined.

Lemma position_in_roster_witness :
  @reachable asciiBuiltins settled /\ users (state settled) <> []
  /\ currentUserIndex (state settled) <> Js.NaN.
Proof.
  assert (Hu : users (state settled) <> []) by (vm_compute; discriminate).
  split; [exact reachable_settled |]. split; [exact Hu |].
  exact (proj1 (proj2 (@position_in_roster asciiBuiltins settled reachable_settled) Hu)).
Defined.

Lemma single_avatar_poll_witness :
  let s := TeamsAvatar.initial Example.config in
  let r := run Example.netOk (@TeamsAvatar.fetchData asciiBuiltins s) in
  userEmail (TeamsAvatar.settings s) = Some "ann@example.org"
  /\ TeamsAvatar.avatarCache s !! "ann@example.org" = None
  /\ fetched r = [ "https://hooks.example/avatar?user=ann%40example.org";
                   "https://hooks.example/messages?user=ann%40example.org" ]
  /\ TeamsAvatar.unreadCount (final r) = 2
  /\ TeamsAvatar.avatarCache (final r) !! "ann@example.org"
     = Some (DataUrlOfBlob Example.portrait).
Proof.
  intros s r. split; [reflexivity |]. split; [reflexivity |].
  destruct (@single_avatar_poll asciiBuiltins Example.netOk s
              "ann@example.org" "https://hooks.example/avatar" "https://hooks.example/messages"
              (DataUrlOfBlob Example.portrait)
              {| resp_ok := true; resp_blob := None;
                 resp_json := Some (JsonArray [mkUser None None None None;
                                               mkUser None None None None]) |}
              [mkUser None None None None; mkUser None None None None])
    as (_ & Hf & _ & Hc & _ & Hn & _).
  - reflexivity.
  - discriminate.
  - reflexivity.
  - discriminate.
  - reflexivity.
  - discriminate.
  - simpl. eexists _, Example.portrait. repeat split; reflexivity.
  - reflexivity.
  - reflexivity.
  - reflexivity.
  - split; [exact Hf |]. split; [exact Hn |]. subst r. rewrite Hc. apply lookup_insert_eq.
Defined.

Lemma single_avatar_consistent_witness :
  Single.consistent (TeamsAvatar.initial Example.config)
  /\ Single.consistent
       (final (run Example.netOk
                 (@TeamsAvatar.fetchData asciiBuiltins (TeamsAvatar.initial Example.config)))).
Proof.
  pose proof (proj1 (@single_avatar_consistent asciiBuiltins Example.netOk) Example.config) as H0.
  split; [exact H0 |].
  exact (proj2 (@single_avatar_consistent asciiBuiltins Example.netOk) _ H0).
Defined.

End WalkFacts.

Section FurtherExamples.
Import Async TeamsRotating Example.

Example parseInt_examples :
  JsText.parseInt "12abc" = Some 12 /\ JsText.parseInt "  7" = Some 7
  /\ JsText.parseInt "0x1F" = Some 31 /\ JsText.parseInt "-3" = Some (-3)
  /\ JsText.parseInt "" = None /\ JsText.parseInt "abc" = None
  /\ JsText.num_or (JsText.parseInt "0") 30 = 30.
Proof. repeat split. Qed.

(** A refresh rate of 4 is refused; with the field left empty 30 is saved. *)
Example saveSettings_examples :
  Inspector.alert (Inspector.saveSettings true (Inspector.mkForm "a" "b" "4" "5"))
  = "Polling refresh rate must be between 5 and 300 seconds"
  /\ Inspector.sent (Inspector.saveSettings true (Inspector.mkForm " a " "b" "" "12s"))
     = Some (Inspector.mkInstanceSettings "a" "b" 30 12).
Proof. split; reflexivity. Qed.

Lemma inspector_test_reaches_webhook_witness :
  let form := Inspector.mkForm " https://hooks.example/avatar" "https://hooks.example/roster " "" "" in
  let settings := mkSettings (Some "https://hooks.example/roster")
                    (Some "https://hooks.example/avatar") None None false in
  Inspector.sent (Inspector.testConnection true form) = Some settings
  /\ fetched (run net404 (Connection.Rotating.testConnection settings ready))
     = ["https://hooks.example/roster"].
Proof.
  intros form settings.
  assert (Hs : Inspector.sent (Inspector.testConnection true form) = Some settings) by reflexivity.
  split; [exact Hs |].
  exact (proj1 (inspector_test_reaches_webhook true form settings net404 ready Hs)).
Defined.

Lemma steady_poll_is_invisible_witness :
  JsArray.sort compareCount roster = users ready
  /\ lastDisplayedState ready = Some (stateKey ready)
  /\ fetched (run net404 (@fetchUsersData asciiBuiltins ready)) = ["https://hooks.example/roster"]
  /\ imagesWritten (out (final (run net404 (@fetchUsersData asciiBuiltins ready))))
     = imagesWritten (out ready).
Proof.
  assert (Hsort : JsArray.sort compareCount roster = users ready) by (vm_compute; reflexivity).
  assert (Hlast : lastDisplayedState ready = Some (stateKey ready))
    by (vm_compute; reflexivity).
  split; [exact Hsort |]. split; [exact Hlast |].
  destruct (@steady_poll_is_invisible asciiBuiltins net404 ready
              "https://hooks.example/roster" rosterResponse roster 0
              (mkUser (Some "u1") (Some "Ann Lee") (Some 5) None) readyCurrent)
    as (_ & Hf & Hw & _); try (vm_compute; reflexivity); try exact Hsort; try exact Hlast.
  - discriminate.
  - intros nextUser Hn _. vm_compute in Hn. injection Hn as <-. vm_compute. eauto.
  - split; [exact Hf | exact Hw].
Defined.

End FurtherExamples.

Section BotExample.
Import Async TeamsRotating Example Resolve.

(** The Workflows bot, not yet in the cache of the session. *)
Lemma bots_never_fetch_witness :
  let bot := mkUser (Some "wf") (Some "Workflows") (Some 2) (Some "bot") in
  fromType bot = Some "bot"
  /\ avatarCache ready !! cacheKey bot = None
  /\ fetched (run netOk (@resolveAvatar asciiBuiltins NextSlot bot ready)) = [].
Proof.
  intros bot.
  assert (Hb : fromType bot = Some "bot") by reflexivity.
  assert (Hc : avatarCache ready !! cacheKey bot = None)
    by (vm_compute; reflexivity).
  split; [exact Hb |]. split; [exact Hc |].
  exact (proj1 (proj2 (@bots_never_fetch asciiBuiltins netOk NextSlot bot ready Hb Hc))).
Defined.

End BotExample.

Section StalePollExample.
Import Async TeamsRotating Example.

(** The roster of the old webhook comes back under the settings of another
    one. *)
Lemma poll_in_flight_outlives_settings_change_witness :
  let settings' := mkSettings (Some "https://other.example/roster")
                     (Some "https://hooks.example/avatar") None None false in
  let s1 := final (prefix (@Lifecycle.onDidReceiveSettings asciiBuiltins settings' ready)) in
  let r := run net404 (resume net404 (@fetchUsersData asciiBuiltins ready) s1) in
  rotatingWebhookUrl (settings ready) = Some "https://hooks.example/roster"
  /\ net404 "https://hooks.example/roster" = Responded rosterResponse
  /\ settings (final r) = settings'
  /\ users (final r) = JsArray.sort compareCount roster.
Proof.
  intros settings' s1 r.
  assert (Hurl : rotatingWebhookUrl (settings ready) = Some "https://hooks.example/roster")
    by (vm_compute; reflexivity).
  assert (Hnet : net404 "https://hooks.example/roster" = Responded rosterResponse)
    by (vm_compute; reflexivity).
  split; [exact Hurl |]. split; [exact Hnet |].
  destruct (@poll_in_flight_outlives_settings_change asciiBuiltins net404 ready settings'
              "https://hooks.example/roster" rosterResponse roster Hurl
              ltac:(discriminate) Hnet eq_refl eq_refl)
    as (_ & _ & _ & _ & Hc & Hu & _).
  split; [exact Hc | exact Hu].
Defined.

End StalePollExample.
